(** * Message broker and connection manager: a shallow embedding

    Source files embedded here:
    - [core/message_broker.py]   (class [MessageBroker])
    - [server/websocket_handler.py] (class [ConnectionManager])

    Both classes run on one asyncio event loop.  Code between two
    suspension points executes atomically, so every operation is a function
    on the state that runs up to its next suspension point; what the
    environment decides (clock readings, object identities, whether a
    subscriber or a transport call raises, which task runs next) is an
    explicit argument. *)

From Stdlib Require Import Ascii String.
From Stdlib Require Import Floats.PrimFloat.
From stdpp Require Import gmap strings list fin_maps pretty.
Open Scope string_scope.
Open Scope list_scope.
Open Scope nat_scope.

(** ** Python values and exceptions *)

(** A Python float.  The broker only stores clock readings and formats them
    into the message id, so a float is kept as the text [repr] prints for it
    (distinct floats print differently). *)
Inductive PyFloat := FloatRepr (text : string).

Definition float_text (f : PyFloat) : string :=
  match f with FloatRepr s => s end.

Inductive PyVal :=
| VNone
| VBool (b : bool)
| VInt (z : Z)
| VFloat (f : PyFloat)
| VStr (s : string).

#[global] Instance PyFloat_eq_dec : EqDecision PyFloat.
Proof. solve_decision. Defined.

#[global] Instance PyVal_eq_dec : EqDecision PyVal.
Proof. solve_decision. Defined.

(** The exceptions the broker's code meets. *)
Inductive PyException := QueueFull | KeyError.

Inductive Exc (A : Type) :=
| Ok (a : A)
| Raise (e : PyException).
Arguments Ok {A} a.
Arguments Raise {A} e.

(** [bool(x)] for an optional list, as in [bool(d.get(k))]. *)
Definition truthy {A} (o : option (list A)) : bool :=
  match o with
  | Some (_ :: _) => true
  | _ => false
  end.

(** [l.remove(x)]: drops the first occurrence. *)
Fixpoint remove_first `{EqDecision A} (x : A) (l : list A) : list A :=
  match l with
  | [] => []
  | y :: r => if decide (x = y) then r else y :: remove_first x r
  end.

(** [x in l]. *)
Definition inb `{EqDecision A} (x : A) (l : list A) : bool := bool_decide (x ∈ l).

(** ** The broker's data *)

Abbreviation Message := (gmap string PyVal).
Definition Callback := nat.
Definition TaskId := nat.

(** [asyncio.Queue(maxsize)]: a FIFO that is unbounded when [maxsize <= 0]. *)
Record Queue := mkQueue { q_items : list Message; maxsize : Z }.

Definition qsize (q : Queue) : nat := length (q_items q).

Definition full (q : Queue) : bool :=
  (0 <? maxsize q)%Z && (maxsize q <=? Z.of_nat (qsize q))%Z.

Definition put_nowait (item : Message) (q : Queue) : Exc Queue :=
  if full q then Raise QueueFull
  else Ok (mkQueue (q_items q ++ [item]) (maxsize q)).

(** [queue.get()] when an item is there; [None] means the caller waits. *)
Definition get (q : Queue) : option (Message * Queue) :=
  match q_items q with
  | [] => None
  | m :: r => Some (m, mkQueue r (maxsize q))
  end.

Record MessageStats := mkStats {
  total_published : nat;
  total_processed : nat;
  total_failed : nat;
  topics_created : nat;
  total_consumed : nat }.

Record MessageBroker := mkBroker {
  topics : gmap string Queue;
  subscribers : gmap string (list Callback);
  message_handlers : gmap string (list TaskId);
  consumers : gmap string (list TaskId);
  max_queue_size : Z;
  _running : bool;
  _broker_tasks : list TaskId;
  message_stats : MessageStats }.

(** [MessageBroker.__init__]. *)
Definition init (max_queue_size : Z) : MessageBroker :=
  mkBroker ∅ ∅ ∅ ∅ max_queue_size false [] (mkStats 0 0 0 0 0).

Definition with_stats (f : MessageStats → MessageStats) (b : MessageBroker) : MessageBroker :=
  mkBroker (topics b) (subscribers b) (message_handlers b) (consumers b)
           (max_queue_size b) (_running b) (_broker_tasks b) (f (message_stats b)).

Definition with_topics (t : gmap string Queue) (b : MessageBroker) : MessageBroker :=
  mkBroker t (subscribers b) (message_handlers b) (consumers b)
           (max_queue_size b) (_running b) (_broker_tasks b) (message_stats b).

Definition with_subscribers (s : gmap string (list Callback)) (b : MessageBroker) : MessageBroker :=
  mkBroker (topics b) s (message_handlers b) (consumers b)
           (max_queue_size b) (_running b) (_broker_tasks b) (message_stats b).

Definition with_handlers (h : gmap string (list TaskId)) (b : MessageBroker) : MessageBroker :=
  mkBroker (topics b) (subscribers b) h (consumers b)
           (max_queue_size b) (_running b) (_broker_tasks b) (message_stats b).

Definition with_consumers (c : gmap string (list TaskId)) (b : MessageBroker) : MessageBroker :=
  mkBroker (topics b) (subscribers b) (message_handlers b) c
           (max_queue_size b) (_running b) (_broker_tasks b) (message_stats b).

Definition with_running (r : bool) (b : MessageBroker) : MessageBroker :=
  mkBroker (topics b) (subscribers b) (message_handlers b) (consumers b)
           (max_queue_size b) r (_broker_tasks b) (message_stats b).

Definition with_broker_tasks (l : list TaskId) (b : MessageBroker) : MessageBroker :=
  mkBroker (topics b) (subscribers b) (message_handlers b) (consumers b)
           (max_queue_size b) (_running b) l (message_stats b).

Definition inc_published (s : MessageStats) : MessageStats :=
  mkStats (total_published s + 1) (total_processed s) (total_failed s)
          (topics_created s) (total_consumed s).

Definition inc_consumed (s : MessageStats) : MessageStats :=
  mkStats (total_published s) (total_processed s) (total_failed s)
          (topics_created s) (total_consumed s + 1).

Definition inc_topics_created (s : MessageStats) : MessageStats :=
  mkStats (total_published s) (total_processed s) (total_failed s)
          (topics_created s + 1) (total_consumed s).

Definition inc_failed (s : MessageStats) : MessageStats :=
  mkStats (total_published s) (total_processed s) (total_failed s + 1)
          (topics_created s) (total_consumed s).

Definition add_processed_failed (successful failed : nat) (s : MessageStats) : MessageStats :=
  mkStats (total_published s) (total_processed s + successful) (total_failed s + failed)
          (topics_created s) (total_consumed s).

(** [_ensure_topic_exists]. *)
Definition _ensure_topic_exists (topic : string) (b : MessageBroker) : MessageBroker :=
  match topics b !! topic with
  | Some _ => b
  | None =>
      mkBroker (<[topic := mkQueue [] (max_queue_size b)]> (topics b))
               (<[topic := []]> (subscribers b))
               (<[topic := []]> (message_handlers b))
               (<[topic := []]> (consumers b))
               (max_queue_size b) (_running b) (_broker_tasks b)
               (inc_topics_created (message_stats b))
  end.

(** [InternalMessageType], in declaration order. *)
Definition InternalMessageType : list string :=
  [ "InternalMessageType.USER_QUERY";
    "InternalMessageType.QUERY_RESPONSE";
    "InternalMessageType.SYSTEM_STATUS";
    "InternalMessageType.AGENT_STATUS";
    "InternalMessageType.HEARTBEAT" ].

(** [start]. *)
Definition start (b : MessageBroker) : MessageBroker :=
  if _running b then b
  else foldl (λ acc topic, _ensure_topic_exists topic acc)
             (with_running true b) InternalMessageType.

(** ** Tasks of the event loop *)

(** What a subscriber callback does when it is called with a message:
    it returns, or it raises an [Exception]. *)
Inductive SubOutcome := Returns | Raises.

(** One entry of the list [asyncio.gather(..., return_exceptions=True)]
    returns: the value a task returned, or the exception it ended with. *)
Inductive CallResult := RValue (b : bool) | RException.

(** [_call_subscriber]: the call is wrapped in [try/except Exception]. *)
Definition _call_subscriber (o : SubOutcome) : CallResult :=
  match o with
  | Returns => RValue true
  | Raises => RValue false
  end.

(** [isinstance(result, Exception)]. *)
Definition is_exception (r : CallResult) : bool :=
  match r with
  | RException => true
  | RValue _ => false
  end.

(** [sum(1 for result in results if not isinstance(result, Exception))]. *)
Definition successful (results : list CallResult) : nat :=
  length (List.filter (λ r, negb (is_exception r)) results).

(** The tally at the end of [_process_message]. *)
Definition tally (results : list CallResult) (s : MessageStats) : MessageStats :=
  add_processed_failed (successful results) (length results - successful results) s.

(** [_process_message] for a non-empty list of subscribers when nothing
    else runs before the [gather] returns; [outcome c] is what subscriber
    [c] does with the message. *)
Definition _process_message (subscribers : list Callback) (outcome : Callback → SubOutcome)
    (b : MessageBroker) : MessageBroker :=
  match subscribers with
  | [] => b                                       (* "message dropped" *)
  | _ => with_stats (tally ((λ c, _call_subscriber (outcome c)) <$> subscribers)) b
  end.

(** Where a [_process_topic_messages] task is suspended. *)
Inductive ProcState :=
| PCreated                      (* made by create_task, not started yet *)
| PLoopTop                      (* before the test of the while loop (also: in sleep(1.0)) *)
| PWaiting                      (* in wait_for(queue.get(), timeout=1.0) *)
| PGather (message : Message) (pending : list Callback) (results : list CallResult)
                                (* in gather: [pending] subscriber tasks have not run yet *)
| PDone.

Record DispatchTask := mkTask { task_topic : string; task_state : ProcState }.

(** Tasks that [subscribe] creates with [asyncio.create_task]; the event loop
    starts tasks in the order of their creation. *)
Inductive Scheduled :=
| SEnsureExists (topic : string)
| SEnsureProcessing (topic : string).

(** The broker together with the tasks it has created.  [consumers] holds
    tasks of callers; the tasks below are the broker's own. *)
Record World := mkWorld {
  broker : MessageBroker;
  tasks : gmap TaskId DispatchTask;
  next_task : TaskId;
  ready : list Scheduled }.

Definition set_broker (f : MessageBroker → MessageBroker) (w : World) : World :=
  mkWorld (f (broker w)) (tasks w) (next_task w) (ready w).

Definition set_task (tid : TaskId) (topic : string) (st : ProcState) (w : World) : World :=
  mkWorld (broker w) (<[tid := mkTask topic st]> (tasks w)) (next_task w) (ready w).

Definition schedule (s : Scheduled) (w : World) : World :=
  mkWorld (broker w) (tasks w) (next_task w) (ready w ++ [s]).

Definition is_done (st : ProcState) : bool :=
  match st with PDone => true | _ => false end.

(** [task.done()]. *)
Definition done (w : World) (tid : TaskId) : bool :=
  match tasks w !! tid with
  | Some t => is_done (task_state t)
  | None => true
  end.

(** [_ensure_topic_processing]. *)
Definition _ensure_topic_processing (topic : string) (w : World) : World :=
  let b := broker w in
  let handlers := default [] (message_handlers b !! topic) in
  let active_tasks := List.filter (λ t, negb (done w t)) handlers in
  match active_tasks with
  | [] =>
      let task := next_task w in
      mkWorld (with_broker_tasks (_broker_tasks b ++ [task])
                 (with_handlers (<[topic := handlers ++ [task]]> (message_handlers b)) b))
              (<[task := mkTask topic PCreated]> (tasks w))
              (S task) (ready w)
  | _ :: _ =>
      set_broker (with_handlers (<[topic := handlers]> (message_handlers b))) w
  end.






(** The enriched message of [publish]: [t1] and [t2] are the two readings of
    [time.time()], [oid] is [id(message)]. *)
Definition broker_id (topic : string) (now : PyFloat) (oid : N) : string :=
  topic +:+ "_" +:+ float_text now +:+ "_" +:+ pretty oid.

Definition enrich (topic : string) (message : Message) (t1 t2 : PyFloat) (oid : N) : Message :=
  <["_broker_id" := VStr (broker_id topic t2 oid)]>
    (<["_broker_topic" := VStr topic]>
       (<["_broker_timestamp" := VFloat t1]> message)).

(** [publish].  Everything after the first test runs inside
    [try ... except Exception: return False]. *)
Definition publish (topic : string) (message : Message) (t1 t2 : PyFloat) (oid : N)
    (w : World) : bool * World :=
  if negb (_running (broker w)) then (false, w)
  else
    let w1 := set_broker (_ensure_topic_exists topic) w in
    let enriched_message := enrich topic message t1 t2 oid in
    let has_subscribers := truthy (subscribers (broker w1) !! topic) in
    let has_consumers := truthy (consumers (broker w1) !! topic) in
    if negb has_subscribers && negb has_consumers then (false, w1)
    else
      match topics (broker w1) !! topic with
      | None => (false, w1)                      (* KeyError, outer handler *)
      | Some queue =>
          match put_nowait enriched_message queue with
          | Raise _ => (false, w1)               (* asyncio.QueueFull *)
          | Ok queue' =>
              let w2 := set_broker (λ b, with_stats inc_published
                                           (with_topics (<[topic := queue']> (topics b)) b)) w1 in
              (true, _ensure_topic_processing topic w2)
          end
      end.

(** [subscribe]: the two [create_task] calls only schedule work. *)
Definition subscribe (topic : string) (callback : Callback) (w : World) : bool * World :=
  if negb (_running (broker w)) then (false, w)
  else
    let w1 := schedule (SEnsureExists topic) w in
    let w2 := match subscribers (broker w1) !! topic with
              | Some _ => w1
              | None => set_broker (λ b, with_subscribers (<[topic := []]> (subscribers b)) b) w1
              end in
    let subs := default [] (subscribers (broker w2) !! topic) in
    if inb callback subs then (false, w2)
    else
      (true, schedule (SEnsureProcessing topic)
               (set_broker (λ b, with_subscribers
                                   (<[topic := subs ++ [callback]]> (subscribers b)) b) w2)).

(** [unsubscribe]. *)
Definition unsubscribe (topic : string) (callback : Callback) (b : MessageBroker)
    : bool * MessageBroker :=
  match subscribers b !! topic with
  | Some subs =>
      if inb callback subs
      then (true, with_subscribers (<[topic := remove_first callback subs]> (subscribers b)) b)
      else (false, b)
  | None => (false, b)
  end.

(** The event loop starts the oldest task that [subscribe] scheduled. *)
Definition run_ready (w : World) : World :=
  match ready w with
  | [] => w
  | s :: rest =>
      let w' := mkWorld (broker w) (tasks w) (next_task w) rest in
      match s with
      | SEnsureExists topic => set_broker (_ensure_topic_exists topic) w'
      | SEnsureProcessing topic => _ensure_topic_processing topic w'
      end
  end.

(** [stop]: each task is cancelled and awaited, then the maps are cleared.
    The [gather] is taken as one step in which every awaited dispatch task
    finishes.  The tasks listed in [consumers] belong to callers: cancelling
    them ends their [consume] generators, which is the step [consume_close]
    below, and leaves no other mark on the broker. *)
Definition finish_task (t : DispatchTask) : DispatchTask := mkTask (task_topic t) PDone.

Definition all_tasks (b : MessageBroker) : list TaskId :=
  concat (snd <$> map_to_list (message_handlers b)) ++ _broker_tasks b.

Definition stop (w : World) : World :=
  let b := broker w in
  if negb (_running b) then w
  else
    mkWorld (mkBroker ∅ ∅ ∅ ∅ (max_queue_size b) false [] (message_stats b))
            (foldr (λ tid ts, alter finish_task tid ts) (tasks w) (all_tasks b))
            (next_task w) (ready w).

(** ** What an observer sees *)

Inductive Event :=
| EvPublished (topic : string) (m : Message)              (* put_nowait succeeded *)
| EvDequeued (topic : string) (m : Message)               (* queue.get() returned m *)
| EvInvoked (topic : string) (c : Callback) (m : Message).  (* subscriber c called with m *)

(** [_process_topic_messages] with the [_process_message] it awaits, from
    one suspension point to the next: the subscriber tasks that
    [_process_message] creates run one per step, and the step after the
    last one is the tally.
    [subscribers] in the source is the list object held by
    [self.subscribers[topic]] and [queue] the object held by
    [self.topics[topic]]; both stay the same objects until [stop], which
    ends the task.  [o] is what the subscriber called in this step does. *)
Definition _process_topic_messages (tid : TaskId) (o : SubOutcome) (w : World)
    : World * list Event :=
  match tasks w !! tid with
  | None => (w, [])
  | Some (mkTask topic st) =>
      let b := broker w in
      match st with
      | PCreated =>
          match topics b !! topic with
          | None => (set_task tid topic PDone w, [])       (* KeyError, outer handler *)
          | Some _ => (set_task tid topic PLoopTop w, [])
          end
      | PLoopTop =>
          if negb (_running b) then (set_task tid topic PDone w, [])
          else if truthy (subscribers b !! topic)
               then (set_task tid topic PWaiting w, [])
               else (w, [])                                  (* sleep(1.0); continue *)
      | PWaiting =>
          match topics b !! topic ≫= get with
          | Some (message, q') =>
              let w1 := set_broker (with_topics (<[topic := q']> (topics b))) w in
              match default [] (subscribers b !! topic) with
              | [] => (set_task tid topic PLoopTop w1, [EvDequeued topic message])
              | subs => (set_task tid topic (PGather message subs []) w1,
                         [EvDequeued topic message])
              end
          | None =>                                           (* asyncio.TimeoutError *)
              if negb (truthy (subscribers b !! topic))
              then (set_task tid topic PDone w, [])           (* break *)
              else (set_task tid topic PLoopTop w, [])        (* continue *)
          end
      | PGather message (c :: pending) results =>
          (set_task tid topic (PGather message pending (results ++ [_call_subscriber o])) w,
           [EvInvoked topic c message])
      | PGather message [] results =>
          (set_task tid topic PLoopTop (set_broker (with_stats (tally results)) w), [])
      | PDone => (w, [])
      end
  end.

(** ** [consume] and [consume_one] *)

(** The [finally] block of [consume]. *)
Definition consume_close (topic : string) (consumer_task : TaskId) (b : MessageBroker)
    : MessageBroker :=
  match consumers b !! topic with
  | Some cs =>
      if inb consumer_task cs
      then with_consumers (<[topic := remove_first consumer_task cs]> (consumers b)) b
      else b
  | None => b
  end.

(** [consume] up to the start of its loop; [false]: the generator returns
    at once. *)
Definition consume_open (topic : string) (consumer_task : TaskId) (b : MessageBroker)
    : bool * MessageBroker :=
  if negb (_running b) then (false, b)
  else
    let b1 := _ensure_topic_exists topic b in
    let cs := default [] (consumers b1 !! topic) in
    (true, with_consumers (<[topic := cs ++ [consumer_task]]> (consumers b1)) b1).

Inductive ConsumeStep :=
| Yielded (m : Message)
| Idle
| Finished.

(** One round of the loop of [consume] for a generator that is between
    [consume_open] and [consume_close]; [timeout_given] is
    [timeout is not None]. *)
Definition consume_next (timeout_given : bool) (topic : string) (consumer_task : TaskId)
    (b : MessageBroker) : ConsumeStep * MessageBroker :=
  if negb (inb consumer_task (default [] (consumers b !! topic))) then (Finished, b)
  else if negb (_running b) then (Finished, consume_close topic consumer_task b)
  else
    match topics b !! topic ≫= get with
    | Some (message, q') =>
        (Yielded message,
         with_stats inc_consumed (with_topics (<[topic := q']> (topics b)) b))
    | None =>
        if timeout_given then (Finished, consume_close topic consumer_task b)
        else (Idle, b)
    end.

(** A call of [publish] with what the environment supplies to it. *)
Record PublishCall := mkCall {
  pc_topic : string;
  pc_message : Message;
  pc_t1 : PyFloat;
  pc_t2 : PyFloat;
  pc_oid : N }.

Definition do_publish (c : PublishCall) (w : World) : bool * World :=
  publish (pc_topic c) (pc_message c) (pc_t1 c) (pc_t2 c) (pc_oid c) w.

(** [wait_for(queue.get(), timeout)] in [consume_one]: [during] are the
    calls of [publish] that other tasks make before the timeout; the wait
    ends with the first item in the queue.  Returns the message (or [None]
    at the timeout) and what each of the calls that ran returned. *)
Fixpoint consume_one_wait (topic : string) (during : list PublishCall) (w : World)
    : option Message * list bool * World :=
  match topics (broker w) !! topic ≫= get with
  | Some (message, q') =>
      (Some message, [],
       set_broker (λ b, with_stats inc_consumed (with_topics (<[topic := q']> (topics b)) b)) w)
  | None =>
      match during with
      | [] => (None, [], w)                                  (* asyncio.TimeoutError *)
      | c :: rest =>
          let '(r, w1) := do_publish c w in
          let '(res, rs, w2) := consume_one_wait topic rest w1 in
          (res, r :: rs, w2)
      end
  end.

(** [consume_one]. *)
Definition consume_one (topic : string) (during : list PublishCall) (w : World)
    : option Message * list bool * World :=
  if negb (_running (broker w)) then (None, [], w)
  else consume_one_wait topic during (set_broker (_ensure_topic_exists topic) w).

(** ** Operations of the broker, as steps *)

Inductive Op :=
| OStart
| OStop
| OPublish (c : PublishCall)
| OSubscribe (topic : string) (callback : Callback)
| OUnsubscribe (topic : string) (callback : Callback)
| ORunReady
| OProcStep (tid : TaskId) (o : SubOutcome)
| OConsumeOpen (topic : string) (consumer_task : TaskId)
| OConsumeNext (timeout_given : bool) (topic : string) (consumer_task : TaskId)
| OConsumeClose (topic : string) (consumer_task : TaskId)
| OConsumeOne (topic : string) (during : list PublishCall).

Definition published_event (c : PublishCall) (r : bool) : list Event :=
  if r then [EvPublished (pc_topic c)
               (enrich (pc_topic c) (pc_message c) (pc_t1 c) (pc_t2 c) (pc_oid c))]
  else [].

Definition exec (op : Op) (w : World) : World * list Event :=
  match op with
  | OStart => (set_broker start w, [])
  | OStop => (stop w, [])
  | OPublish c =>
      let '(r, w') := do_publish c w in (w', published_event c r)
  | OSubscribe topic callback => ((subscribe topic callback w).2, [])
  | OUnsubscribe topic callback => (set_broker (λ b, (unsubscribe topic callback b).2) w, [])
  | ORunReady => (run_ready w, [])
  | OProcStep tid o => _process_topic_messages tid o w
  | OConsumeOpen topic ct => (set_broker (λ b, (consume_open topic ct b).2) w, [])
  | OConsumeNext tg topic ct =>
      match consume_next tg topic ct (broker w) with
      | (Yielded m, b') => (set_broker (λ _, b') w, [EvDequeued topic m])
      | (_, b') => (set_broker (λ _, b') w, [])
      end
  | OConsumeClose topic ct => (set_broker (consume_close topic ct) w, [])
  | OConsumeOne topic during =>
      let '(res, rs, w') := consume_one topic during w in
      (w', concat (zip_with published_event (take (length rs) during) rs)
             ++ match res with Some m => [EvDequeued topic m] | None => [] end)
  end.

Fixpoint exec_all (ops : list Op) (w : World) : World * list Event :=
  match ops with
  | [] => (w, [])
  | op :: rest =>
      let '(w1, e1) := exec op w in
      let '(w2, e2) := exec_all rest w1 in
      (w2, e1 ++ e2)
  end.

(** A broker right after [__init__], with no task yet. *)
Definition new_world (max_queue_size : Z) : World :=
  mkWorld (init max_queue_size) ∅ 0 [].

(** ** Views of the state used in the statements *)

(** [self.subscribers.get(topic, [])] and [self.consumers.get(topic, [])]. *)
Definition subscriber_list (b : MessageBroker) (topic : string) : list Callback :=
  default [] (subscribers b !! topic).

Definition consumer_list (b : MessageBroker) (topic : string) : list TaskId :=
  default [] (consumers b !! topic).

(** The content of a topic's queue; no queue, no content. *)
Definition queue_items (w : World) (topic : string) : list Message :=
  match topics (broker w) !! topic with
  | Some q => q_items q
  | None => []
  end.

Definition queue_length (w : World) (topic : string) : nat := length (queue_items w topic).

Definition stats_le (s1 s2 : MessageStats) : Prop :=
  total_published s1 ≤ total_published s2 ∧
  total_consumed s1 ≤ total_consumed s2 ∧
  total_processed s1 ≤ total_processed s2 ∧
  total_failed s1 ≤ total_failed s2 ∧
  topics_created s1 ≤ topics_created s2.

(** The three ways [publish] ends. *)
Inductive publish_spec (topic : string) (message : Message) (t1 t2 : PyFloat) (oid : N)
    (w : World) : bool * World → Prop :=
| publish_not_running :
    _running (broker w) = false →
    publish_spec topic message t1 t2 oid w (false, w)
| publish_rejected :
    _running (broker w) = true →
    (subscriber_list (_ensure_topic_exists topic (broker w)) topic = [] ∧
     consumer_list (_ensure_topic_exists topic (broker w)) topic = []
     ∨ ∃ q, topics (_ensure_topic_exists topic (broker w)) !! topic = Some q
            ∧ full q = true) →
    publish_spec topic message t1 t2 oid w (false, set_broker (_ensure_topic_exists topic) w)
| publish_enqueued q :
    _running (broker w) = true →
    ¬ (subscriber_list (_ensure_topic_exists topic (broker w)) topic = [] ∧
       consumer_list (_ensure_topic_exists topic (broker w)) topic = []) →
    topics (_ensure_topic_exists topic (broker w)) !! topic = Some q →
    full q = false →
    publish_spec topic message t1 t2 oid w
      (true,
       _ensure_topic_processing topic
         (set_broker (λ b, with_stats inc_published
            (with_topics (<[topic := mkQueue (q_items q ++ [enrich topic message t1 t2 oid])
                                              (maxsize q)]> (topics b)) b))
            (set_broker (_ensure_topic_exists topic) w))).

(** A topic nobody listens to and whose queue is empty. *)
Definition idle_topic (topic : string) (w : World) : Prop :=
  subscriber_list (broker w) topic = [] ∧
  consumer_list (broker w) topic = [] ∧
  queue_items w topic = [].

(** Changes of the broker that the task invariant does not see. *)
Definition same_shape (b b' : MessageBroker) : Prop :=
  (∀ t, is_Some (topics b !! t) → is_Some (topics b' !! t)) ∧
  message_handlers b' = message_handlers b ∧
  (map_Forall (λ _ l, NoDup l) (subscribers b) → map_Forall (λ _ l, NoDup l) (subscribers b')).

(** ** Reading a trace *)

(** The messages that were put into the queue of [topic], in order. *)
Definition published (tr : list Event) (topic : string) : list Message :=
  omap (λ e, match e with
             | EvPublished t m => if decide (t = topic) then Some m else None
             | _ => None
             end) tr.

(** The messages that were taken out of the queue of [topic], in order. *)
Definition dequeued (tr : list Event) (topic : string) : list Message :=
  omap (λ e, match e with
             | EvDequeued t m => if decide (t = topic) then Some m else None
             | _ => None
             end) tr.

(** The messages of [topic] that subscriber [c] was called with, in order. *)
Definition invoked (tr : list Event) (topic : string) (c : Callback) : list Message :=
  omap (λ e, match e with
             | EvInvoked t c' m => if decide (t = topic ∧ c' = c) then Some m else None
             | _ => None
             end) tr.

(** ** Invariants of the dispatch tasks *)

(** Task [tid] runs [_process_topic_messages(topic)] and has not finished. *)
Definition active_in (ts : gmap TaskId DispatchTask) (topic : string) (tid : TaskId) : Prop :=
  ∃ st, ts !! tid = Some (mkTask topic st) ∧ st ≠ PDone.

Record task_inv (w : World) : Prop := mkTaskInv {
  (* a topic has at most one dispatch task that is not done *)
  inv_single : ∀ t i j, active_in (tasks w) t i → active_in (tasks w) t j → i = j;
  (* it is listed in message_handlers, and its topic exists *)
  inv_tracked : ∀ t i, active_in (tasks w) t i →
      is_Some (topics (broker w) !! t) ∧ i ∈ default [] (message_handlers (broker w) !! t);
  inv_fresh : ∀ i, is_Some (tasks w !! i) → i < next_task w;
  inv_nodup : map_Forall (λ _ l, NoDup l) (subscribers (broker w));
  (* a scheduled _ensure_topic_processing comes after the topic's creation *)
  inv_ready : ∀ i t, ready w !! i = Some (SEnsureProcessing t) →
      is_Some (topics (broker w) !! t) ∨ ∃ j, j < i ∧ ready w !! j = Some (SEnsureExists t) }.

Record trace_inv (w : World) (tr : list Event) : Prop := mkTraceInv {
  (* the queue holds what was published and not yet taken, in order *)
  inv_fifo : ∀ t, published tr t = dequeued tr t ++ queue_items w t;
  inv_order : ∀ t c, invoked tr t c `sublist_of` dequeued tr t;
  (* a subscriber that is still to be called has not seen the message *)
  inv_gather : ∀ i t m pend res,
      tasks w !! i = Some (mkTask t (PGather m pend res)) →
      NoDup pend ∧ ∀ c, c ∈ pend → (invoked tr t c ++ [m]) `sublist_of` dequeued tr t }.

Definition is_stop (op : Op) : bool :=
  match op with OStop => true | _ => false end.
(** ** What the dispatch task delivers *)




(** The tasks listed for a topic in [message_handlers] were created for
    that topic. *)
Definition handler_inv (w : World) : Prop :=
  ∀ t l i, message_handlers (broker w) !! t = Some l → i ∈ l →
    i < next_task w ∧ ∀ d, tasks w !! i = Some d → task_topic d = t.


(** ** The connection manager ([server/websocket_handler.py])

    Clock readings and durations are Python floats, that is binary64
    numbers with the arithmetic and the comparisons of IEEE 754: the kernel's
    [float]. *)

(** A [WebSocket] object, by identity.  What a call on it does is decided
    by the peer and the network: it returns, raises [WebSocketDisconnect],
    or raises another [Exception]. *)
Definition WebSocket := nat.

Inductive IoOutcome := IoOk | IoDisconnect | IoError.

Inductive WsMessage :=
| Ping (timestamp : float) (user_id : string)
| Disconnect (reason : string) (timestamp : float)
| Text (message : string).

Inductive WsEvent :=
| WsSent (ws : WebSocket) (m : WsMessage)
| WsClosed (ws : WebSocket) (code : Z) (reason : string).

(** The event loop's view of a task. *)
Inductive TaskStatus := TaskPending | TaskCancelRequested | TaskFinished.

Record ConnectionManager := mkManager {
  active_connections : gmap string WebSocket;
  user_heartbeats : gmap string float;
  heartbeat_tasks : gmap string TaskId;
  heartbeat_interval : float;
  ping_timeout : float;
  _heartbeat_running : bool;
  _main_heartbeat_task : option TaskId;
  task_status : gmap TaskId TaskStatus }.

(** [ConnectionManager.__init__]; the defaults are 30.0 and 10.0. *)
Definition manager_init (heartbeat_interval ping_timeout : float) : ConnectionManager :=
  mkManager ∅ ∅ ∅ heartbeat_interval ping_timeout false None ∅.

Definition default_manager : ConnectionManager := manager_init 30%float 10%float.

(** [if not task.done(): task.cancel()]. *)
Definition cancel_if_not_done (task : TaskId) (status : gmap TaskId TaskStatus)
    : gmap TaskId TaskStatus :=
  match status !! task with
  | Some TaskFinished => status
  | _ => <[task := TaskCancelRequested]> status
  end.

(** [_cleanup_user_connection]. *)
Definition _cleanup_user_connection (user_id : string) (cm : ConnectionManager)
    : ConnectionManager :=
  mkManager (delete user_id (active_connections cm))
            (delete user_id (user_heartbeats cm))
            (delete user_id (heartbeat_tasks cm))
            (heartbeat_interval cm) (ping_timeout cm)
            (_heartbeat_running cm) (_main_heartbeat_task cm)
            (match heartbeat_tasks cm !! user_id with
             | Some task => cancel_if_not_done task (task_status cm)
             | None => task_status cm
             end).

(** [_start_main_heartbeat]; [task] is the task [create_task] returns. *)
Definition _start_main_heartbeat (task : TaskId) (cm : ConnectionManager) : ConnectionManager :=
  if _heartbeat_running cm then cm
  else mkManager (active_connections cm) (user_heartbeats cm) (heartbeat_tasks cm)
                 (heartbeat_interval cm) (ping_timeout cm) true (Some task)
                 (<[task := TaskPending]> (task_status cm)).

(** [_stop_main_heartbeat]. *)
Definition _stop_main_heartbeat (cm : ConnectionManager) : ConnectionManager :=
  mkManager (active_connections cm) (user_heartbeats cm) (heartbeat_tasks cm)
            (heartbeat_interval cm) (ping_timeout cm) false (_main_heartbeat_task cm)
            (match _main_heartbeat_task cm with
             | Some task => cancel_if_not_done task (task_status cm)
             | None => task_status cm
             end).

(** [_start_heartbeat_for_user]. *)
Definition _start_heartbeat_for_user (user_id : string) (task : TaskId) (cm : ConnectionManager)
    : ConnectionManager :=
  let status := match heartbeat_tasks cm !! user_id with
                | Some old => cancel_if_not_done old (task_status cm)
                | None => task_status cm
                end in
  mkManager (active_connections cm) (user_heartbeats cm)
            (<[user_id := task]> (heartbeat_tasks cm))
            (heartbeat_interval cm) (ping_timeout cm)
            (_heartbeat_running cm) (_main_heartbeat_task cm)
            (<[task := TaskPending]> status).

(** [connect], after [websocket.accept()] has returned: [user_id] is the
    fresh uuid, [now] the clock, [task] and [main_task] the tasks that
    [create_task] returns. *)
Definition connect (websocket : WebSocket) (user_id : string) (now : float)
    (task main_task : TaskId) (cm : ConnectionManager) : ConnectionManager :=
  let cm1 := mkManager (<[user_id := websocket]> (active_connections cm))
                       (<[user_id := now]> (user_heartbeats cm))
                       (heartbeat_tasks cm)
                       (heartbeat_interval cm) (ping_timeout cm)
                       (_heartbeat_running cm) (_main_heartbeat_task cm) (task_status cm) in
  _start_main_heartbeat main_task (_start_heartbeat_for_user user_id task cm1).

(** [update_user_heartbeat]. *)
Definition update_user_heartbeat (user_id : string) (now : float) (cm : ConnectionManager)
    : ConnectionManager :=
  match active_connections cm !! user_id with
  | Some _ =>
      mkManager (active_connections cm) (<[user_id := now]> (user_heartbeats cm))
                (heartbeat_tasks cm) (heartbeat_interval cm) (ping_timeout cm)
                (_heartbeat_running cm) (_main_heartbeat_task cm) (task_status cm)
  | None => cm
  end.

(** [send_personal_message]; [o] is what [websocket.send_text] does. *)
Definition send_personal_message (message : string) (user_id : string) (o : IoOutcome)
    (cm : ConnectionManager) : bool * ConnectionManager * list WsEvent :=
  match active_connections cm !! user_id with
  | Some websocket =>
      match o with
      | IoOk => (true, cm, [WsSent websocket (Text message)])
      | _ => (false, _cleanup_user_connection user_id cm, [])
      end
  | None => (false, cm, [])
  end.

(** [_force_disconnect_user]; [send] and [close] are what
    [websocket.send_text] and [websocket.close] do.  The body runs inside
    [try ... except Exception], the notification inside its own
    [try ... except: pass]. *)
Definition _force_disconnect_user (user_id reason : string) (now : float) (send close : IoOutcome)
    (cm : ConnectionManager) : ConnectionManager * list WsEvent :=
  match active_connections cm !! user_id with
  | Some websocket =>
      let notified := match send with
                      | IoOk => [WsSent websocket (Disconnect reason now)]
                      | _ => []
                      end in
      match close with
      | IoOk => (_cleanup_user_connection user_id cm,
                 notified ++ [WsClosed websocket 1011 reason])
      | _ => (cm, notified)                 (* handler: the error is logged *)
      end
  | None => (_cleanup_user_connection user_id cm, [])
  end.

Inductive LoopStep := Continue | Break.

Definition finish (task : TaskId) (cm : ConnectionManager) : ConnectionManager :=
  mkManager (active_connections cm) (user_heartbeats cm) (heartbeat_tasks cm)
            (heartbeat_interval cm) (ping_timeout cm)
            (_heartbeat_running cm) (_main_heartbeat_task cm)
            (<[task := TaskFinished]> (task_status cm)).

(** [_user_heartbeat_loop], run by [task]: from the test of the while loop
    to [asyncio.sleep(self.heartbeat_interval)].  [ping] is what sending the
    ping does. *)
Definition _user_heartbeat_loop_ping (task : TaskId) (user_id : string) (now : float)
    (ping send close : IoOutcome) (cm : ConnectionManager)
    : LoopStep * ConnectionManager * list WsEvent :=
  match active_connections cm !! user_id with
  | Some websocket =>
      if negb (_heartbeat_running cm) then (Break, finish task cm, [])
      else
        match ping with
        | IoOk => (Continue, cm, [WsSent websocket (Ping now user_id)])
        | IoDisconnect => (Break, finish task cm, [])
        | IoError =>
            let '(cm', evs) := _force_disconnect_user user_id "heartbeat_error" now send close cm in
            (Break, finish task cm', evs)
        end
  | None => (Break, finish task cm, [])
  end.

(** The test [time.time() - last_heartbeat > interval + ping_timeout], on
    floats: the difference and the sum are each rounded to the nearest
    float, and [a > b] is [b < a]. *)
Definition heartbeat_expired (user_id : string) (now : float) (cm : ConnectionManager) : bool :=
  let last_heartbeat := default 0%float (user_heartbeats cm !! user_id) in
  PrimFloat.ltb (PrimFloat.add (heartbeat_interval cm) (ping_timeout cm))
                (PrimFloat.sub now last_heartbeat).

(** [_user_heartbeat_loop]: from the return of the sleep to the next test of
    the while loop; [now] is the clock after the sleep. *)
Definition _user_heartbeat_loop_check (task : TaskId) (user_id : string) (now : float)
    (send close : IoOutcome) (cm : ConnectionManager)
    : LoopStep * ConnectionManager * list WsEvent :=
  if heartbeat_expired user_id now cm then
    let '(cm', evs) := _force_disconnect_user user_id "heartbeat_timeout" now send close cm in
    (Break, finish task cm', evs)
  else (Continue, cm, []).

(** ** More of the broker: statistics *)

(** The dictionary [get_topic_stats] returns. *)
Record TopicStats := mkTopicStats {
  ts_topic : string;
  ts_queue_size : nat;
  ts_max_queue_size : Z;
  ts_subscribers_count : nat;
  ts_active_handlers : nat;
  ts_total_handlers : nat;
  ts_active_consumers : nat;
  ts_total_consumers : nat;
  ts_queue_full : bool;
  ts_queue_empty : bool }.

(** [queue.empty()]. *)
Definition empty (q : Queue) : bool := bool_decide (q_items q = []).

(** [get_topic_stats]; [consumer_done] is [task.done()] for the callers'
    tasks listed in [consumers]. *)
Definition get_topic_stats (consumer_done : TaskId → bool) (topic : string) (w : World)
    : option TopicStats :=
  let b := broker w in
  match topics b !! topic with
  | None => None
  | Some queue =>
      let subs := default [] (subscribers b !! topic) in
      let handlers := default [] (message_handlers b !! topic) in
      let cons := default [] (consumers b !! topic) in
      Some (mkTopicStats topic (qsize queue) (maxsize queue) (length subs)
              (length (List.filter (λ h, negb (done w h)) handlers))
              (length handlers)
              (length (List.filter (λ c, negb (consumer_done c)) cons))
              (length cons)
              (full queue) (empty queue))
  end.

(** ** How the operations change the broker *)

(** Every change an operation makes to the broker object is one of these,
    or several in a row; the index counts the items put into queues. *)
Inductive bstep : nat → MessageBroker → MessageBroker → Prop :=
| bs_refl b : bstep 0 b b
| bs_trans n1 n2 b1 b2 b3 : bstep n1 b1 b2 → bstep n2 b2 b3 → bstep (n1 + n2) b1 b3
| bs_ensure topic b : bstep 0 b (_ensure_topic_exists topic b)
| bs_put topic q item q' b :
    topics b !! topic = Some q → put_nowait item q = Ok q' →
    bstep 1 b (with_stats inc_published (with_topics (<[topic := q']> (topics b)) b))
| bs_take topic q m q' b :
    topics b !! topic = Some q → get q = Some (m, q') →
    bstep 0 b (with_topics (<[topic := q']> (topics b)) b)
| bs_consumed b : bstep 0 b (with_stats inc_consumed b)
| bs_tally results b : bstep 0 b (with_stats (tally results) b)
| bs_subscribe topic cb b :
    cb ∉ default [] (subscribers b !! topic) →
    bstep 0 b (with_subscribers
                 (<[topic := default [] (subscribers b !! topic) ++ [cb]]> (subscribers b)) b)
| bs_subscribers_new topic b :
    bstep 0 b (with_subscribers (<[topic := []]> (subscribers b)) b)
| bs_unsubscribe topic cb l b :
    subscribers b !! topic = Some l →
    bstep 0 b (with_subscribers (<[topic := remove_first cb l]> (subscribers b)) b)
| bs_handlers topic l b : bstep 0 b (with_handlers (<[topic := l]> (message_handlers b)) b)
| bs_broker_tasks l b : bstep 0 b (with_broker_tasks l b)
| bs_consumers topic l b : bstep 0 b (with_consumers (<[topic := l]> (consumers b)) b)
| bs_running r b : bstep 0 b (with_running r b)
| bs_stop b :
    bstep 0 b (mkBroker ∅ ∅ ∅ ∅ (max_queue_size b) false [] (message_stats b)).

(** The number of accepted publishes a trace shows. *)
Definition count_published (tr : list Event) : nat :=
  length (List.filter (λ e, match e with EvPublished _ _ => true | _ => false end) tr).

(** What every reachable broker satisfies. *)
Record broker_wf (b : MessageBroker) : Prop := mkBrokerWf {
  wf_capacity : map_Forall (λ _ q, maxsize q = max_queue_size b ∧
                                   (0 < maxsize q → Z.of_nat (qsize q) ≤ maxsize q)%Z)
                           (topics b);
  wf_keys : ∀ t, is_Some (topics b !! t) →
      is_Some (subscribers b !! t) ∧ is_Some (message_handlers b !! t)
      ∧ is_Some (consumers b !! t);
  wf_count : size (topics b) ≤ topics_created (message_stats b);
  wf_nodup : map_Forall (λ _ l, NoDup l) (subscribers b) }.
(** ** Who can be called *)

(** Callback [cb] cannot be called for [topic]: it is not subscribed to it,
    and no [gather] of the topic's dispatch task still has to call it. *)
Definition quiet (topic : string) (cb : Callback) (w : World) : Prop :=
  (cb ∉ subscriber_list (broker w) topic) ∧
  (∀ tid m pend res, tasks w !! tid = Some (mkTask topic (PGather m pend res)) → cb ∉ pend).

(** [op] is [subscribe(topic, cb)]. *)
Definition subscribes (topic : string) (cb : Callback) (op : Op) : bool :=
  match op with
  | OSubscribe t c => bool_decide (t = topic ∧ c = cb)
  | _ => false
  end.

(** From [w] to [w'] no callback was added to a subscriber list and no
    [gather] was started. *)
Definition no_new_callee (w w' : World) : Prop :=
  (∀ t c, c ∈ subscriber_list (broker w') t → c ∈ subscriber_list (broker w) t) ∧
  (∀ i t m pend res, tasks w' !! i = Some (mkTask t (PGather m pend res)) →
                     tasks w !! i = Some (mkTask t (PGather m pend res))).

(** A trace in which no subscriber is called. *)
Definition no_invocation (tr : list Event) : Prop :=
  Forall (λ e, match e with EvInvoked _ _ _ => False | _ => True end) tr.

(** One round of a dispatch task that is waiting for a message: the step
    that takes the message, one step for each subscriber task of the
    [gather] ([outcome c] is what subscriber [c] does), and the tally. *)
Definition dispatch_round (tid : TaskId) (outcome : Callback → SubOutcome)
    (subs : list Callback) : list Op :=
  OProcStep tid Returns :: ((λ c, OProcStep tid (outcome c)) <$> subs) ++ [OProcStep tid Returns].

(** ** [health_check] *)

(** [wait_for(queue.get(), timeout)] of [consume_one] when the tasks that
    run before the timeout take the steps [during], whatever they are; the
    wait ends with the first item in the queue.  [queue] in the source is
    the object [self.topics[topic]] held when the wait began: a [stop()]
    that clears [self.topics] leaves nobody who could put an item into it,
    and the wait ends with the timeout. *)
Fixpoint consume_one_among (topic : string) (during : list Op) (w : World)
    : option Message * World * list Event :=
  match topics (broker w) !! topic ≫= get with
  | Some (message, q') =>
      (Some message,
       set_broker (λ b, with_stats inc_consumed (with_topics (<[topic := q']> (topics b)) b)) w,
       [EvDequeued topic message])
  | None =>
      match during with
      | [] => (None, w, [])                                  (* asyncio.TimeoutError *)
      | op :: rest =>
          let '(w1, e1) := exec op w in
          if is_stop op && _running (broker w)
          then let '(w2, e2) := exec_all rest w1 in (None, w2, e1 ++ e2)
          else let '(res, w2, e2) := consume_one_among topic rest w1 in (res, w2, e1 ++ e2)
      end
  end.

(** [consume_one] among the steps [during] of other tasks. *)
Definition consume_one_with (topic : string) (during : list Op) (w : World)
    : option Message * World * list Event :=
  if negb (_running (broker w)) then (None, w, [])
  else consume_one_among topic during (set_broker (_ensure_topic_exists topic) w).

Definition test_topic : string := "health_check_test".

(** The dictionary [health_check] returns, without its ["stats"] and
    ["timestamp"] entries. *)
Record HealthReport := mkHealth {
  healthy : bool;
  running : bool;
  subscribe_test_passed : bool;
  consume_test_passed : bool }.

(** What the environment supplies to one [health_check]. *)
Record HealthEnv := mkHealthEnv {
  test_subscriber : Callback;        (* the closure created by this call *)
  he_timestamp : PyFloat;            (* time.time() in test_message *)
  he_t1 : PyFloat;                   (* the clock and id(message) in the first publish *)
  he_t2 : PyFloat;
  he_oid1 : N;
  he_sleeping : list Op;             (* steps of other tasks during sleep(0.1) *)
  he_t3 : PyFloat;                   (* the same for the second publish *)
  he_t4 : PyFloat;
  he_oid2 : N;
  he_waiting : list Op }.            (* steps of other tasks while consume_one waits *)

(** The messages a callback was called with, on any topic. *)
Definition calls (tr : list Event) (cb : Callback) : list Message :=
  omap (λ e, match e with
             | EvInvoked _ c m => if decide (c = cb) then Some m else None
             | _ => None
             end) tr.

Definition test_message (e : HealthEnv) : PublishCall :=
  mkCall test_topic {[ "test" := VBool true; "timestamp" := VFloat (he_timestamp e) ]}
         (he_t1 e) (he_t2 e) (he_oid1 e).

Definition consume_test (e : HealthEnv) : PublishCall :=
  mkCall test_topic {[ "consume_test" := VBool true ]} (he_t3 e) (he_t4 e) (he_oid2 e).

(** [health_check].  None of the calls in its [try] block raises an
    [Exception], so the [except] branch is not taken.  [test_results] is
    what [test_subscriber] was called with since it was created. *)
Definition health_check (e : HealthEnv) (w : World) : HealthReport * World * list Event :=
  let w1 := (subscribe test_topic (test_subscriber e) w).2 in
  let '(r1, w2) := do_publish (test_message e) w1 in
  let '(w3, tr3) := exec_all (he_sleeping e) w2 in
  let '(r2, w4) := do_publish (consume_test e) w3 in
  let '(consumed_message, w5, tr5) := consume_one_with test_topic (he_waiting e) w4 in
  let tr := published_event (test_message e) r1 ++ tr3
            ++ published_event (consume_test e) r2 ++ tr5 in
  let test_results := calls tr (test_subscriber e) in
  let subscribe_success := bool_decide (0 < length test_results) in
  let consume_success := bool_decide (is_Some consumed_message) in
  let w6 := set_broker (λ b, (unsubscribe test_topic (test_subscriber e) b).2) w5 in
  (mkHealth (subscribe_success && consume_success) (_running (broker w6))
            subscribe_success consume_success,
   w6, tr).

(** [op] is a [subscribe] of callback [cb], to whatever topic. *)
Definition subscribes_callback (cb : Callback) (op : Op) : bool :=
  match op with
  | OSubscribe _ c => bool_decide (c = cb)
  | _ => false
  end.

(** ** More of the connection manager *)


(** The loop at the start of [disconnect]: the first user whose websocket
    is the given object. *)
Fixpoint find_user (order : list string) (websocket : WebSocket)
    (connections : gmap string WebSocket) : option string :=
  match order with
  | [] => None
  | uid :: rest =>
      if bool_decide (connections !! uid = Some websocket) then Some uid
      else find_user rest websocket connections
  end.

(** [disconnect]. *)
Definition disconnect (order : list string) (websocket : WebSocket) (cm : ConnectionManager)
    : ConnectionManager :=
  let cm1 := match find_user order websocket (active_connections cm) with
             | Some user_id =>
                 if bool_decide (user_id = "") then cm          (* if user_id: *)
                 else _cleanup_user_connection user_id cm
             | None => cm
             end in
  if bool_decide (active_connections cm1 = ∅) && _heartbeat_running cm1
  then _stop_main_heartbeat cm1
  else cm1.

(** [disconnect_all] when no other task changes the manager while it
    closes the connections; [order] is [list(self.active_connections.keys())]
    and [close u] is what [websocket.close()] does for user [u]. *)
Definition disconnect_all (order : list string) (close : string → IoOutcome)
    (cm : ConnectionManager) : ConnectionManager * list WsEvent :=
  foldl (λ acc user_id,
           match active_connections acc.1 !! user_id with
           | Some websocket =>
               match close user_id with
               | IoOk => (_cleanup_user_connection user_id acc.1,
                          acc.2 ++ [WsClosed websocket 1000 ""])
               | _ => acc                      (* handler: the error is logged *)
               end
           | None => acc                       (* KeyError, same handler *)
           end)
        (_stop_main_heartbeat cm, []) order.

(** [exclude_user and user_id == exclude_user]. *)
Definition excluded (exclude_user : option string) (user_id : string) : bool :=
  match exclude_user with
  | Some x => negb (bool_decide (x = "")) && bool_decide (user_id = x)
  | None => false
  end.

(** The users [broadcast] sends to, with their websockets. *)
Definition targets (order : list string) (exclude_user : option string)
    (cm : ConnectionManager) : list (string * WebSocket) :=
  omap (λ user_id, match active_connections cm !! user_id with
                   | Some websocket =>
                       if excluded exclude_user user_id then None
                       else Some (user_id, websocket)
                   | None => None
                   end) order.

(** [broadcast] when no other task changes the manager while it sends;
    [send u] is what [websocket.send_text] does for user [u]. *)
Definition broadcast (order : list string) (message : string) (exclude_user : option string)
    (send : string → IoOutcome) (cm : ConnectionManager) : ConnectionManager * list WsEvent :=
  if bool_decide (active_connections cm = ∅) then (cm, [])
  else
    let sent := omap (λ t, match send t.1 with
                           | IoOk => Some (WsSent t.2 (Text message))
                           | _ => None
                           end) (targets order exclude_user cm) in
    let disconnected_users :=
      omap (λ t, match send t.1 with
                 | IoOk => None
                 | _ => Some t.1
                 end) (targets order exclude_user cm) in
    (foldl (λ acc user_id, _cleanup_user_connection user_id acc) cm disconnected_users, sent).

(** The entry of one user in [get_connection_stats]. *)
Record UserStats := mkUserStats {
  last_heartbeat : float;
  seconds_since_heartbeat : float;
  has_heartbeat_task : bool }.

Record ConnectionStats := mkConnectionStats {
  total_connections : nat;
  heartbeat_running : bool;
  stats_heartbeat_interval : float;
  stats_ping_timeout : float;
  users : gmap string UserStats }.

(** [get_connection_stats]; [current_time] is the clock. *)
Definition get_connection_stats (current_time : float) (cm : ConnectionManager)
    : ConnectionStats :=
  mkConnectionStats
    (size (active_connections cm)) (_heartbeat_running cm)
    (heartbeat_interval cm) (ping_timeout cm)
    (map_imap (λ user_id _,
                 let last := default 0%float (user_heartbeats cm !! user_id) in
                 Some (mkUserStats last (PrimFloat.sub current_time last)
                         (bool_decide (is_Some (heartbeat_tasks cm !! user_id)))))
              (active_connections cm)).

(** The operations of the manager, as steps. *)
Inductive CmOp :=
| CConnect (websocket : WebSocket) (user_id : string) (now : float) (task main_task : TaskId)
| CDisconnect (order : list string) (websocket : WebSocket)
| CDisconnectAll (order : list string) (close : string → IoOutcome)
| CSend (message user_id : string) (o : IoOutcome)
| CBroadcast (order : list string) (message : string) (exclude_user : option string)
             (send : string → IoOutcome)
| CUpdateHeartbeat (user_id : string) (now : float)
| CHeartbeatPing (task : TaskId) (user_id : string) (now : float) (ping send close : IoOutcome)
| CHeartbeatCheck (task : TaskId) (user_id : string) (now : float) (send close : IoOutcome).

Definition cm_exec (op : CmOp) (cm : ConnectionManager) : ConnectionManager :=
  match op with
  | CConnect websocket user_id now task main_task =>
      connect websocket user_id now task main_task cm
  | CDisconnect order websocket => disconnect order websocket cm
  | CDisconnectAll order close => (disconnect_all order close cm).1
  | CSend message user_id o => (send_personal_message message user_id o cm).1.2
  | CBroadcast order message exclude_user send =>
      (broadcast order message exclude_user send cm).1
  | CUpdateHeartbeat user_id now => update_user_heartbeat user_id now cm
  | CHeartbeatPing task user_id now ping send close =>
      (_user_heartbeat_loop_ping task user_id now ping send close cm).1.2
  | CHeartbeatCheck task user_id now send close =>
      (_user_heartbeat_loop_check task user_id now send close cm).1.2
  end.

(** The three dictionaries have the same keys. *)
Definition registry_consistent (cm : ConnectionManager) : Prop :=
  ∀ user_id,
    (is_Some (user_heartbeats cm !! user_id) ↔ is_Some (active_connections cm !! user_id)) ∧
    (is_Some (heartbeat_tasks cm !! user_id) ↔ is_Some (active_connections cm !! user_id)).

Definition cm_exec_all (ops : list CmOp) (cm : ConnectionManager) : ConnectionManager :=
  foldl (λ acc op, cm_exec op acc) cm ops.

(** The transport call returned. *)
Definition returned (o : IoOutcome) : bool :=
  match o with
  | IoOk => true
  | _ => false
  end.

(** ** Subscriptions that last *)

(** Callback [cb] is subscribed to [topic], and the topic has its queue. *)
Definition served (topic : string) (cb : Callback) (b : MessageBroker) : Prop :=
  is_Some (topics b !! topic) ∧ cb ∈ subscriber_list b topic.

(** [op] is [stop()] or [unsubscribe(topic, cb)]. *)
Definition ends_subscription (topic : string) (cb : Callback) (op : Op) : bool :=
  match op with
  | OStop => true
  | OUnsubscribe t c => bool_decide (t = topic ∧ c = cb)
  | _ => false
  end.


(** ** Concrete inputs *)

Definition hello : Message := {[ "text" := VStr "hi" ]}.

Definition clock0 : PyFloat := FloatRepr "1700000000.5".

Definition hello_call (topic : string) : PublishCall := mkCall topic hello clock0 clock0 140231%N.

(** A broker with capacity 1000 after [start()]. *)
Definition started_world : World := set_broker start (new_world 1000).

Definition response_topic : string := "InternalMessageType.QUERY_RESPONSE".

(** Two subscribers on a well-known topic, the scheduled tasks have run. *)
Definition two_subscribers : World :=
  (exec_all [OSubscribe response_topic 0; OSubscribe response_topic 1;
             ORunReady; ORunReady; ORunReady; ORunReady] started_world).1.

(** One message goes through the dispatch task (task 0); the first
    subscriber raises, the second one returns. *)
Definition dispatch_with_raising_subscriber : list Op :=
  [OPublish (hello_call response_topic);
   OProcStep 0 Returns; OProcStep 0 Returns; OProcStep 0 Returns;
   OProcStep 0 Raises; OProcStep 0 Returns; OProcStep 0 Returns].

(** A manager with the default timing and one connection accepted at
    time 0. *)
Definition one_connection : ConnectionManager :=
  connect 7 "user-1" 0%float 1 0 default_manager.

Definition goodbye : Message := {[ "text" := VStr "bye" ]}.

(** A whole run: start, two subscribers, two messages, and the dispatch task
    (task 0) delivers both; the second subscriber leaves in between. *)
Definition fifo_run : list Op :=
  [OStart;
   OSubscribe response_topic 0; OSubscribe response_topic 1;
   ORunReady; ORunReady; ORunReady; ORunReady;
   OPublish (mkCall response_topic hello clock0 clock0 140231%N);
   OPublish (mkCall response_topic goodbye clock0 clock0 140232%N);
   OProcStep 0 Returns; OProcStep 0 Returns; OProcStep 0 Returns;
   OProcStep 0 Returns; OProcStep 0 Raises; OProcStep 0 Returns;
   OUnsubscribe response_topic 1;
   OProcStep 0 Returns; OProcStep 0 Returns;
   OProcStep 0 Returns; OProcStep 0 Returns].

(** A broker with capacity 1 whose queue for [response_topic] holds one
    message; the topic has one subscriber. *)
Definition full_queue_world : World :=
  (exec_all [OSubscribe response_topic 0; OPublish (hello_call response_topic)]
     (set_broker start (new_world 1))).1.

(** A broker of capacity 2 with one subscriber on [response_topic] and
    three publishes: the third one finds the queue full. *)
Definition three_publishes : list Op :=
  [OStart; OSubscribe response_topic 0;
   OPublish (hello_call response_topic); OPublish (hello_call response_topic);
   OPublish (hello_call response_topic)].

(** One subscriber (callback 0) and one [consume] generator (task 9) on
    [response_topic]; the dispatch task (task 0) waits for a message. *)
Definition waiting_dispatcher : World :=
  (exec_all [OSubscribe response_topic 0; ORunReady; ORunReady;
             OConsumeOpen response_topic 9;
             OProcStep 0 Returns; OProcStep 0 Returns] started_world).1.

(** A first health check, with callback 42 as its test subscriber: during
    the sleep the two tasks scheduled by [subscribe] run and the new
    dispatch task (task 0) starts; nobody publishes during the wait. *)
Definition first_check : HealthEnv :=
  mkHealthEnv 42 clock0 clock0 clock0 140231%N
              [ORunReady; ORunReady; OProcStep 0 Returns; OProcStep 0 Returns]
              clock0 clock0 140232%N [].

(** A later health check, with callback 43: during the sleep the dispatch
    task takes the test message and calls the subscriber. *)
Definition second_check : HealthEnv :=
  mkHealthEnv 43 clock0 clock0 clock0 140233%N
              [ORunReady; ORunReady; OProcStep 0 Returns; OProcStep 0 Returns;
               OProcStep 0 Returns; OProcStep 0 Returns]
              clock0 clock0 140234%N [].

(** Two connections accepted at time 0: websocket 7 for ["user-1"] and
    websocket 8 for ["user-2"]. *)
Definition two_connections : ConnectionManager :=
  connect 8 "user-2" 0%float 2 0 one_connection.


(** ** Basic facts *)

Lemma truthy_default {A} (o : option (list A)) : truthy o = false ↔ default [] o = [].
Proof. destruct o as [[|x l]|]; simpl; split; intros; congruence. Qed.

Lemma inb_true `{EqDecision A} (x : A) l : inb x l = true ↔ x ∈ l.
Proof. unfold inb. apply bool_decide_eq_true. Qed.

Lemma inb_false `{EqDecision A} (x : A) l : inb x l = false ↔ x ∉ l.
Proof. unfold inb. apply bool_decide_eq_false. Qed.

Lemma ensure_exists_topics_lookup topic t b :
  topics (_ensure_topic_exists topic b) !! t =
  match topics b !! t with
  | Some q => Some q
  | None => if decide (topic = t) then Some (mkQueue [] (max_queue_size b)) else None
  end.
Proof.
  unfold _ensure_topic_exists. destruct (topics b !! topic) eqn:E; simpl.
  - destruct (topics b !! t) eqn:E'; [done|]. case_decide; [congruence|done].
  - rewrite lookup_insert. case_decide; subst.
    + by rewrite E.
    + by destruct (topics b !! t).
Qed.

Lemma ensure_exists_is_Some topic b : is_Some (topics (_ensure_topic_exists topic b) !! topic).
Proof.
  rewrite ensure_exists_topics_lookup. destruct (topics b !! topic); [eauto|].
  rewrite decide_True by done. eauto.
Qed.

Lemma ensure_exists_subscriber_list topic t b :
  subscriber_list b t = [] → subscriber_list (_ensure_topic_exists topic b) t = [].
Proof.
  unfold subscriber_list, _ensure_topic_exists. destruct (topics b !! topic); [done|]; simpl.
  intros H. rewrite lookup_insert. by case_decide.
Qed.

Lemma ensure_exists_consumer_list topic t b :
  consumer_list b t = [] → consumer_list (_ensure_topic_exists topic b) t = [].
Proof.
  unfold consumer_list, _ensure_topic_exists. destruct (topics b !! topic); [done|]; simpl.
  intros H. rewrite lookup_insert. by case_decide.
Qed.

Lemma ensure_exists_queue_items topic t w :
  queue_items (set_broker (_ensure_topic_exists topic) w) t = queue_items w t.
Proof.
  unfold queue_items; simpl. rewrite ensure_exists_topics_lookup.
  destruct (topics (broker w) !! t); [done|]. by case_decide.
Qed.

Lemma ensure_exists_running topic b : _running (_ensure_topic_exists topic b) = _running b.
Proof. unfold _ensure_topic_exists. by destruct (topics b !! topic). Qed.

Lemma ensure_exists_max topic b : max_queue_size (_ensure_topic_exists topic b) = max_queue_size b.
Proof. unfold _ensure_topic_exists. by destruct (topics b !! topic). Qed.

Lemma ensure_processing_topics topic w :
  topics (broker (_ensure_topic_processing topic w)) = topics (broker w).
Proof.
  unfold _ensure_topic_processing.
  by destruct (List.filter _ (default [] (message_handlers (broker w) !! topic))).
Qed.

Lemma ensure_processing_subscribers topic w :
  subscribers (broker (_ensure_topic_processing topic w)) = subscribers (broker w).
Proof.
  unfold _ensure_topic_processing.
  by destruct (List.filter _ (default [] (message_handlers (broker w) !! topic))).
Qed.

Lemma ensure_processing_consumers topic w :
  consumers (broker (_ensure_topic_processing topic w)) = consumers (broker w).
Proof.
  unfold _ensure_topic_processing.
  by destruct (List.filter _ (default [] (message_handlers (broker w) !! topic))).
Qed.

Lemma ensure_processing_stats topic w :
  message_stats (broker (_ensure_topic_processing topic w)) = message_stats (broker w).
Proof.
  unfold _ensure_topic_processing.
  by destruct (List.filter _ (default [] (message_handlers (broker w) !! topic))).
Qed.

Lemma ensure_processing_running topic w :
  _running (broker (_ensure_topic_processing topic w)) = _running (broker w).
Proof.
  unfold _ensure_topic_processing.
  by destruct (List.filter _ (default [] (message_handlers (broker w) !! topic))).
Qed.

Lemma publish_cases topic message t1 t2 oid w :
  publish_spec topic message t1 t2 oid w (publish topic message t1 t2 oid w).
Proof.
  unfold publish. destruct (_running (broker w)) eqn:Hrun; simpl.
  2: { by constructor. }
  pose proof (ensure_exists_is_Some topic (broker w)) as [q Hq].
  destruct (truthy (subscribers (_ensure_topic_exists topic (broker w)) !! topic)) eqn:Hs;
    destruct (truthy (consumers (_ensure_topic_exists topic (broker w)) !! topic)) eqn:Hc;
    simpl.
  4: { constructor; [done|]. left. unfold subscriber_list, consumer_list.
       by rewrite <- !truthy_default. }
  all: rewrite Hq; unfold put_nowait; destruct (full q) eqn:Hf;
    [ constructor; [done|]; right; eauto
    | apply publish_enqueued; [done| |done|done];
      unfold subscriber_list, consumer_list; rewrite <- !truthy_default;
      intros [? ?]; congruence ].
Qed.

Lemma stats_le_refl s : stats_le s s.
Proof. unfold stats_le. lia. Qed.

Lemma stats_le_trans s1 s2 s3 : stats_le s1 s2 → stats_le s2 s3 → stats_le s1 s3.
Proof. unfold stats_le. lia. Qed.

Lemma ensure_exists_stats topic b :
  stats_le (message_stats b) (message_stats (_ensure_topic_exists topic b)).
Proof.
  unfold _ensure_topic_exists. destruct (topics b !! topic); simpl.
  - apply stats_le_refl.
  - unfold stats_le; simpl; lia.
Qed.

Lemma start_stats b : stats_le (message_stats b) (message_stats (start b)).
Proof.
  unfold start. destruct (_running b); [apply stats_le_refl|].
  change (message_stats b) with (message_stats (with_running true b)).
  generalize (with_running true b) as b0.
  induction InternalMessageType as [|t l IH]; intros b0; simpl.
  - apply stats_le_refl.
  - eapply stats_le_trans; [apply (ensure_exists_stats t)|apply IH].
Qed.

Lemma stop_stats w : message_stats (broker (stop w)) = message_stats (broker w).
Proof. unfold stop. by destruct (_running (broker w)). Qed.

Lemma publish_stats topic message t1 t2 oid w :
  stats_le (message_stats (broker w))
           (message_stats (broker (publish topic message t1 t2 oid w).2)).
Proof.
  destruct (publish_cases topic message t1 t2 oid w); simpl.
  - apply stats_le_refl.
  - apply ensure_exists_stats.
  - rewrite ensure_processing_stats; simpl.
    eapply stats_le_trans; [apply (ensure_exists_stats topic)|].
    unfold stats_le; simpl; lia.
Qed.

Lemma subscribe_stats topic cb w :
  message_stats (broker (subscribe topic cb w).2) = message_stats (broker w).
Proof.
  unfold subscribe. destruct (_running (broker w)); simpl; [|done].
  destruct (subscribers (broker w) !! topic) eqn:E; simpl.
  - rewrite E; simpl. by destruct (inb cb l).
  - rewrite lookup_insert_eq; simpl. by destruct (inb cb []).
Qed.

Lemma unsubscribe_stats topic cb b :
  message_stats (unsubscribe topic cb b).2 = message_stats b.
Proof.
  unfold unsubscribe. destruct (subscribers b !! topic); [|done].
  by destruct (inb cb l).
Qed.

Lemma run_ready_stats w :
  stats_le (message_stats (broker w)) (message_stats (broker (run_ready w))).
Proof.
  unfold run_ready. destruct (ready w) as [|[t|t] rest]; simpl.
  - apply stats_le_refl.
  - apply ensure_exists_stats.
  - rewrite ensure_processing_stats. apply stats_le_refl.
Qed.

Lemma proc_step_stats tid o w :
  stats_le (message_stats (broker w)) (message_stats (broker (_process_topic_messages tid o w).1)).
Proof.
  unfold _process_topic_messages.
  destruct (tasks w !! tid) as [[topic st]|]; [|apply stats_le_refl].
  destruct st as [| | |m [|c pend] res|]; simpl; try apply stats_le_refl.
  - destruct (topics (broker w) !! topic); apply stats_le_refl.
  - destruct (_running (broker w)); simpl; [|apply stats_le_refl].
    destruct (truthy _); apply stats_le_refl.
  - destruct (topics (broker w) !! topic ≫= get) as [[m q']|]; simpl.
    + destruct (default [] _); apply stats_le_refl.
    + destruct (truthy _); apply stats_le_refl.
  - unfold stats_le, tally; simpl; lia.
Qed.

Lemma consume_close_stats topic ct b :
  message_stats (consume_close topic ct b) = message_stats b.
Proof.
  unfold consume_close. destruct (consumers b !! topic); [|done]. by destruct (inb ct l).
Qed.

Lemma consume_open_stats topic ct b :
  stats_le (message_stats b) (message_stats (consume_open topic ct b).2).
Proof.
  unfold consume_open. destruct (_running b); simpl; [|apply stats_le_refl].
  apply ensure_exists_stats.
Qed.

Lemma consume_next_stats tg topic ct b :
  stats_le (message_stats b) (message_stats (consume_next tg topic ct b).2).
Proof.
  unfold consume_next. destruct (inb ct _); simpl; [|apply stats_le_refl].
  destruct (_running b); simpl; [|rewrite consume_close_stats; apply stats_le_refl].
  destruct (topics b !! topic ≫= get) as [[m q']|]; simpl.
  - unfold stats_le; simpl; lia.
  - destruct tg; simpl; [rewrite consume_close_stats|]; apply stats_le_refl.
Qed.

Lemma consume_one_wait_stats topic during w :
  stats_le (message_stats (broker w))
           (message_stats (broker (consume_one_wait topic during w).2)).
Proof.
  revert w. induction during as [|c rest IH]; intros w; simpl.
  - destruct (topics (broker w) !! topic ≫= get) as [[m q']|]; simpl.
    + unfold stats_le; simpl; lia.
    + apply stats_le_refl.
  - destruct (topics (broker w) !! topic ≫= get) as [[m q']|]; simpl.
    + unfold stats_le; simpl; lia.
    + pose proof (publish_stats (pc_topic c) (pc_message c) (pc_t1 c) (pc_t2 c) (pc_oid c) w) as Hp.
      unfold do_publish. destruct (publish _ _ _ _ _ w) as [r w1]; simpl in *.
      specialize (IH w1). destruct (consume_one_wait topic rest w1) as [[res rs] w2]; simpl in *.
      eapply stats_le_trans; eauto.
Qed.

Lemma consume_one_stats topic during w :
  stats_le (message_stats (broker w))
           (message_stats (broker (consume_one topic during w).2)).
Proof.
  unfold consume_one. destruct (_running (broker w)); simpl; [|apply stats_le_refl].
  eapply stats_le_trans; [|apply consume_one_wait_stats]. simpl. apply ensure_exists_stats.
Qed.

Lemma exec_stats op w :
  stats_le (message_stats (broker w)) (message_stats (broker (exec op w).1)).
Proof.
  destruct op; simpl.
  - apply start_stats.
  - rewrite stop_stats. apply stats_le_refl.
  - pose proof (publish_stats (pc_topic c) (pc_message c) (pc_t1 c) (pc_t2 c) (pc_oid c) w).
    unfold do_publish. by destruct (publish _ _ _ _ _ w).
  - rewrite subscribe_stats. apply stats_le_refl.
  - rewrite unsubscribe_stats. apply stats_le_refl.
  - apply run_ready_stats.
  - apply proc_step_stats.
  - apply consume_open_stats.
  - pose proof (consume_next_stats timeout_given topic consumer_task (broker w)).
    by destruct (consume_next _ _ _ _) as [[]]; simpl in *.
  - rewrite consume_close_stats. apply stats_le_refl.
  - pose proof (consume_one_stats topic during w).
    by destruct (consume_one topic during w) as [[res rs] w'].
Qed.

Lemma remove_first_notin `{EqDecision A} (x : A) l : x ∉ l → remove_first x l = l.
Proof.
  induction l as [|y l IH]; [done|]. intros Hn; simpl.
  apply not_elem_of_cons in Hn as [Hne Hn]. rewrite decide_False by done. by rewrite IH.
Qed.

Lemma subscribe_registered topic cb w :
  _running (broker w) = true →
  cb ∈ subscriber_list (broker w) topic →
  subscribe topic cb w = (false, schedule (SEnsureExists topic) w).
Proof.
  intros Hr Hin. unfold subscribe, subscriber_list in *. rewrite Hr; simpl.
  destruct (subscribers (broker w) !! topic) as [l|] eqn:E; simpl in *.
  - rewrite E; simpl. apply inb_true in Hin. by rewrite Hin.
  - by apply elem_of_nil in Hin.
Qed.

Lemma subscribe_registers topic cb w :
  _running (broker w) = true →
  cb ∈ subscriber_list (broker (subscribe topic cb w).2) topic.
Proof.
  intros Hr. unfold subscribe, subscriber_list. rewrite Hr; simpl.
  destruct (subscribers (broker w) !! topic) as [l|] eqn:E; simpl.
  - rewrite E; simpl. destruct (inb cb l) eqn:Hin; simpl.
    + rewrite E; simpl. by apply inb_true.
    + rewrite lookup_insert_eq; simpl. apply elem_of_app. right. by apply list_elem_of_singleton.
  - rewrite lookup_insert_eq; simpl. destruct (inb cb []) eqn:Hin; simpl.
    + apply inb_true in Hin. by apply elem_of_nil in Hin.
    + rewrite lookup_insert_eq; simpl. by apply list_elem_of_singleton.
Qed.

Lemma subscribe_running topic cb w :
  _running (broker (subscribe topic cb w).2) = _running (broker w).
Proof.
  unfold subscribe. destruct (_running (broker w)) eqn:Hr; simpl; [|done].
  destruct (subscribers (broker w) !! topic) as [l|] eqn:E; simpl.
  - rewrite E; simpl. by destruct (inb cb l).
  - rewrite lookup_insert_eq; simpl. by destruct (inb cb []).
Qed.

Lemma subscribe_NoDup topic cb w :
  (∀ t l, subscribers (broker w) !! t = Some l → NoDup l) →
  ∀ t l, subscribers (broker (subscribe topic cb w).2) !! t = Some l → NoDup l.
Proof.
  intros Hnd t l. unfold subscribe. destruct (_running (broker w)); simpl; [|apply Hnd].
  destruct (subscribers (broker w) !! topic) as [l0|] eqn:E; simpl.
  - rewrite E; simpl. destruct (inb cb l0) eqn:Hin; simpl; [apply Hnd|].
    rewrite lookup_insert. case_decide; [|apply Hnd].
    intros [= <-]. apply NoDup_app. split; [by eapply Hnd|]. split.
    + intros x Hx Hx'. apply list_elem_of_singleton in Hx' as ->. by apply inb_false in Hin.
    + apply NoDup_singleton.
  - rewrite lookup_insert_eq; simpl. destruct (inb cb []) eqn:Hin; simpl.
    + apply inb_true in Hin. by apply elem_of_nil in Hin.
    + rewrite insert_insert_eq. rewrite lookup_insert.
      case_decide; [intros [= <-]; apply NoDup_singleton|apply Hnd].
Qed.

Lemma cleanup_twice user_id cm :
  _cleanup_user_connection user_id (_cleanup_user_connection user_id cm)
  = _cleanup_user_connection user_id cm.
Proof.
  unfold _cleanup_user_connection; simpl.
  rewrite !delete_delete_eq, lookup_delete_eq. done.
Qed.

Lemma publish_running topic message t1 t2 oid w :
  _running (broker (publish topic message t1 t2 oid w).2) = _running (broker w).
Proof.
  destruct (publish_cases topic message t1 t2 oid w); simpl.
  - done.
  - apply ensure_exists_running.
  - rewrite ensure_processing_running; simpl. apply ensure_exists_running.
Qed.

Lemma ensure_exists_consumers_incl topic t ct b :
  ct ∈ consumer_list (_ensure_topic_exists topic b) t → ct ∈ consumer_list b t.
Proof.
  unfold consumer_list, _ensure_topic_exists. destruct (topics b !! topic); [done|]; simpl.
  rewrite lookup_insert. case_decide; [|done]. simpl. intros H'. by apply elem_of_nil in H'.
Qed.

Lemma publish_consumers_incl topic message t1 t2 oid w t ct :
  ct ∈ consumer_list (broker (publish topic message t1 t2 oid w).2) t →
  ct ∈ consumer_list (broker w) t.
Proof.
  destruct (publish_cases topic message t1 t2 oid w); simpl.
  - done.
  - apply ensure_exists_consumers_incl.
  - unfold consumer_list at 1. rewrite ensure_processing_consumers; simpl.
    apply ensure_exists_consumers_incl.
Qed.

Lemma publish_idle_topic topic t' message t1 t2 oid w :
  idle_topic topic w →
  idle_topic topic (publish t' message t1 t2 oid w).2 ∧
  (t' = topic → (publish t' message t1 t2 oid w).1 = false).
Proof.
  intros (Hs & Hc & Hq).
  destruct (publish_cases t' message t1 t2 oid w) as [Hr|Hr Hrej|q Hr Hany Hq' Hf]; simpl.
  - done.
  - split; [|done]. split; [|split].
    + by apply ensure_exists_subscriber_list.
    + by apply ensure_exists_consumer_list.
    + by rewrite ensure_exists_queue_items.
  - destruct (decide (t' = topic)) as [->|Hne].
    { destruct Hany. split.
      - by apply ensure_exists_subscriber_list.
      - by apply ensure_exists_consumer_list. }
    split; [|done]. split; [|split].
    + unfold subscriber_list. rewrite ensure_processing_subscribers; simpl.
      by apply ensure_exists_subscriber_list.
    + unfold consumer_list. rewrite ensure_processing_consumers; simpl.
      by apply ensure_exists_consumer_list.
    + unfold queue_items. rewrite ensure_processing_topics; simpl.
      rewrite lookup_insert_ne by done.
      pose proof (ensure_exists_queue_items t' topic w) as He.
      unfold queue_items in He; simpl in He. by rewrite He.
Qed.

Lemma publish_no_receivers topic message t1 t2 oid w :
  subscriber_list (broker w) topic = [] →
  consumer_list (broker w) topic = [] →
  (publish topic message t1 t2 oid w).1 = false ∧
  queue_items (publish topic message t1 t2 oid w).2 topic = queue_items w topic.
Proof.
  intros Hs Hc.
  destruct (publish_cases topic message t1 t2 oid w) as [Hr|Hr Hrej|q Hr Hany Hq Hf]; simpl.
  - done.
  - by rewrite ensure_exists_queue_items.
  - destruct Hany. split.
    + by apply ensure_exists_subscriber_list.
    + by apply ensure_exists_consumer_list.
Qed.

Lemma idle_topic_no_item topic w :
  queue_items w topic = [] → topics (broker w) !! topic ≫= get = None.
Proof.
  unfold queue_items, get. destruct (topics (broker w) !! topic) as [q|]; simpl; [|done].
  by intros ->.
Qed.

Lemma consume_one_wait_consumers_incl topic during w t ct :
  ct ∈ consumer_list (broker (consume_one_wait topic during w).2) t →
  ct ∈ consumer_list (broker w) t.
Proof.
  revert w. induction during as [|c rest IH]; intros w; simpl.
  - by destruct (topics (broker w) !! topic ≫= get) as [[m q']|].
  - destruct (topics (broker w) !! topic ≫= get) as [[m q']|]; [done|].
    pose proof (publish_consumers_incl (pc_topic c) (pc_message c) (pc_t1 c) (pc_t2 c)
                  (pc_oid c) w t ct) as Hp.
    unfold do_publish. destruct (publish _ _ _ _ _ w) as [r w1]; simpl in *.
    specialize (IH w1). destruct (consume_one_wait topic rest w1) as [[res rs] w2]; simpl in *.
    auto.
Qed.

Lemma consume_one_wait_idle topic during w :
  idle_topic topic w →
  (consume_one_wait topic during w).1.1 = None ∧
  length (consume_one_wait topic during w).1.2 = length during ∧
  (∀ i c, during !! i = Some c → pc_topic c = topic →
          (consume_one_wait topic during w).1.2 !! i = Some false) ∧
  idle_topic topic (consume_one_wait topic during w).2.
Proof.
  revert w. induction during as [|c rest IH]; intros w Hidle; simpl.
  - rewrite idle_topic_no_item by apply Hidle. simpl. repeat split; try apply Hidle.
    intros i c Hc. by rewrite lookup_nil in Hc.
  - rewrite idle_topic_no_item by apply Hidle.
    pose proof (publish_idle_topic topic (pc_topic c) (pc_message c) (pc_t1 c) (pc_t2 c)
                  (pc_oid c) w Hidle) as [Hidle' Hfalse].
    unfold do_publish. destruct (publish _ _ _ _ _ w) as [r w1]; simpl in *.
    specialize (IH w1 Hidle'). destruct (consume_one_wait topic rest w1) as [[res rs] w2].
    simpl in *. destruct IH as (H1 & H2 & H3 & H4). repeat split; try apply H4; auto.
    intros [|i] c' Hc' Ht; simpl in *.
    + injection Hc' as ->. by rewrite Hfalse.
    + by eapply H3.
Qed.

Lemma successful_call_results outcomes :
  successful (_call_subscriber <$> outcomes) = length outcomes.
Proof.
  unfold successful. induction outcomes as [|o l IH]; [done|].
  destruct o; simpl; f_equal; apply IH.
Qed.

Lemma stop_not_running w : _running (broker w) = false → stop w = w.
Proof. intros H. unfold stop. by rewrite H. Qed.

Lemma stop_running w : _running (broker (stop w)) = false.
Proof. unfold stop. by destruct (_running (broker w)) eqn:E. Qed.

Lemma exec_all_stats ops w :
  stats_le (message_stats (broker w)) (message_stats (broker (exec_all ops w).1)).
Proof.
  revert w. induction ops as [|op rest IH]; intros w; simpl; [apply stats_le_refl|].
  pose proof (exec_stats op w) as H1. destruct (exec op w) as [w1 e1].
  specialize (IH w1). destruct (exec_all rest w1) as [w2 e2]. simpl in *.
  by eapply stats_le_trans.
Qed.

(** *** The heartbeat check *)

Lemma heartbeat_check_fresh task user_id now send close cm :
  heartbeat_expired user_id now cm = false →
  _user_heartbeat_loop_check task user_id now send close cm = (Continue, cm, []).
Proof. intros H. unfold _user_heartbeat_loop_check. by rewrite H. Qed.

Lemma heartbeat_check_evicts task user_id now send cm ws :
  heartbeat_expired user_id now cm = true →
  active_connections cm !! user_id = Some ws →
  ∃ cm' notified,
    _user_heartbeat_loop_check task user_id now send IoOk cm
    = (Break, cm', notified ++ [WsClosed ws 1011 "heartbeat_timeout"]) ∧
    active_connections cm' !! user_id = None ∧
    user_heartbeats cm' !! user_id = None ∧
    heartbeat_tasks cm' !! user_id = None.
Proof.
  intros He Hc. unfold _user_heartbeat_loop_check, _force_disconnect_user. rewrite He, Hc.
  eexists _, _. split; [reflexivity|]. simpl. by rewrite !lookup_delete_eq.
Qed.

Lemma heartbeat_check_close_raises task user_id now send close cm ws :
  heartbeat_expired user_id now cm = true →
  active_connections cm !! user_id = Some ws →
  close ≠ IoOk →
  active_connections (_user_heartbeat_loop_check task user_id now send close cm).1.2
    !! user_id = Some ws.
Proof.
  intros He Hc Hclose. unfold _user_heartbeat_loop_check, _force_disconnect_user. rewrite He, Hc.
  by destruct close.
Qed.

(** *** Message ids *)













Lemma publish_enqueues topic message t1 t2 oid w :
  (publish topic message t1 t2 oid w).1 = true →
  queue_items (publish topic message t1 t2 oid w).2 topic
  = queue_items w topic ++ [enrich topic message t1 t2 oid].
Proof.
  destruct (publish_cases topic message t1 t2 oid w) as [Hr|Hr Hrej|q Hr Hany Hq Hf]; simpl;
    [done..|intros _].
  unfold queue_items. rewrite ensure_processing_topics; simpl.
  rewrite lookup_insert_eq; simpl.
  pose proof (ensure_exists_queue_items topic topic w) as He.
  unfold queue_items in He; simpl in He. rewrite Hq in He. by rewrite <- He.
Qed.

(** The steps of a dispatch task from the start of [gather] to the tally
    are [_process_message]: every pending subscriber is called, in the order
    of the list, and the counters change as in [tally]. *)
Lemma gather_steps tid topic m outcome pend res w :
  tasks w !! tid = Some (mkTask topic (PGather m pend res)) →
  message_stats (broker (exec_all (((λ c, OProcStep tid (outcome c)) <$> pend)
                                     ++ [OProcStep tid Returns]) w).1)
  = tally (res ++ ((λ c, _call_subscriber (outcome c)) <$> pend)) (message_stats (broker w)) ∧
  (exec_all (((λ c, OProcStep tid (outcome c)) <$> pend) ++ [OProcStep tid Returns]) w).2
  = (λ c, EvInvoked topic c m) <$> pend.
Proof.
  revert res w. induction pend as [|c pend IH]; intros res w Hl.
  - simpl. unfold _process_topic_messages. rewrite Hl; simpl. by rewrite app_nil_r.
  - rewrite !fmap_cons. rewrite <- app_comm_cons.
    set (rest := ((λ c0, OProcStep tid (outcome c0)) <$> pend) ++ [OProcStep tid Returns]) in *.
    specialize (IH (res ++ [_call_subscriber (outcome c)])
                   (set_task tid topic (PGather m pend (res ++ [_call_subscriber (outcome c)])) w)).
    destruct IH as [IH1 IH2]; [simpl; by rewrite lookup_insert_eq|].
    cbn [exec_all exec]. unfold _process_topic_messages at 1 2. rewrite Hl.
    destruct (exec_all rest (set_task _ _ _ w)) as [w2 e2]. simpl in *.
    rewrite IH1, IH2. by rewrite <- app_assoc.
Qed.

(** ** The dispatch tasks: one per topic *)

Lemma active_in_insert ts tid topic st t x :
  active_in (<[tid := mkTask topic st]> ts) t x ↔
  (x = tid ∧ t = topic ∧ st ≠ PDone) ∨ (x ≠ tid ∧ active_in ts t x).
Proof.
  unfold active_in. split.
  - intros (st' & Hl & Hnd). rewrite lookup_insert in Hl. case_decide.
    + left. by simplify_eq.
    + right. eauto.
  - intros [(-> & -> & Hnd)|(Hne & st' & Hl & Hnd)].
    + exists st. by rewrite lookup_insert_eq.
    + exists st'. by rewrite lookup_insert_ne.
Qed.

Lemma task_inv_frame w b' :
  task_inv w →
  (∀ t, is_Some (topics (broker w) !! t) → is_Some (topics b' !! t)) →
  message_handlers b' = message_handlers (broker w) →
  map_Forall (λ _ l, NoDup l) (subscribers b') →
  task_inv (mkWorld b' (tasks w) (next_task w) (ready w)).
Proof.
  intros [H1 H2 H3 H4 H5] Ht Hh Hs. split; simpl.
  - exact H1.
  - intros t i Ha. destruct (H2 t i Ha) as [Hq Hin]. rewrite Hh. auto.
  - exact H3.
  - exact Hs.
  - intros i t Hi. destruct (H5 i t Hi) as [Hq|Hj]; auto.
Qed.

Lemma task_inv_ensure_exists topic w :
  task_inv w → task_inv (set_broker (_ensure_topic_exists topic) w).
Proof.
  intros Hinv. unfold set_broker, _ensure_topic_exists.
  destruct (topics (broker w) !! topic) eqn:E.
  { by destruct w. }
  destruct Hinv as [H1 H2 H3 H4 H5]. split; simpl.
  - exact H1.
  - intros t i Ha. destruct (H2 t i Ha) as [Hq Hin].
    assert (topic ≠ t) as Hne by (intros ->; rewrite E in Hq; by destruct Hq).
    by rewrite !lookup_insert_ne.
  - exact H3.
  - apply map_Forall_insert_2; [constructor|exact H4].
  - intros i t Hi. destruct (H5 i t Hi) as [Hq|Hj]; [left|by right].
    rewrite lookup_insert. case_decide; [eauto|done].
Qed.

Lemma done_false_active w t i :
  active_in (tasks w) t i → done w i = false.
Proof.
  intros (st & Hl & Hnd). unfold done. rewrite Hl; simpl. by destruct st.
Qed.

Lemma filter_nil_not_in {A} (f : A → bool) l x :
  List.filter f l = [] → x ∈ l → f x = false.
Proof.
  induction l as [|y l IH]; simpl; intros Hf Hin.
  - by apply elem_of_nil in Hin.
  - destruct (f y) eqn:Hy; [done|].
    apply elem_of_cons in Hin as [->|Hin]; auto.
Qed.

Lemma task_inv_ensure_processing topic w :
  task_inv w →
  is_Some (topics (broker w) !! topic) →
  task_inv (_ensure_topic_processing topic w).
Proof.
  intros Hinv Hq. unfold _ensure_topic_processing.
  destruct (List.filter _ _) as [|a l] eqn:Hf.
  - assert (∀ x, ¬ active_in (tasks w) topic x) as Hnone.
    { intros x Ha. destruct (inv_tracked w Hinv topic x Ha) as [_ Hin].
      pose proof (filter_nil_not_in _ _ x Hf Hin) as Hd.
      simpl in Hd. rewrite (done_false_active w topic x Ha) in Hd. done. }
    assert (tasks w !! next_task w = None) as Hfresh.
    { destruct (tasks w !! next_task w) as [d|] eqn:E; [|done].
      assert (next_task w < next_task w); [|lia].
      apply (inv_fresh w Hinv). by exists d. }
    destruct Hinv as [H1 H2 H3 H4 H5]. split; simpl.
    + intros t i j Hi Hj. apply active_in_insert in Hi, Hj.
      destruct Hi as [(Hi1 & Hi2 & _)|[Hi1 Hi2]]; destruct Hj as [(Hj1 & Hj2 & _)|[Hj1 Hj2]].
      * congruence.
      * subst. by destruct (Hnone j).
      * subst. by destruct (Hnone i).
      * eauto.
    + intros t i Hi. apply active_in_insert in Hi as [(-> & -> & _)|[Hi1 Hi2]].
      * split; [done|]. rewrite lookup_insert_eq; simpl.
        apply elem_of_app. right. by apply list_elem_of_singleton.
      * destruct (H2 t i Hi2) as [Hqt Hin]. split; [done|].
        rewrite lookup_insert_ne; [done|]. intros ->. by destruct (Hnone i).
    + intros i Hi. rewrite lookup_insert in Hi. case_decide; [lia|].
      specialize (H3 i Hi). lia.
    + exact H4.
    + exact H5.
  - destruct Hinv as [H1 H2 H3 H4 H5]. split; simpl; auto.
    intros t i Ha. destruct (H2 t i Ha) as [Hqt Hin]. split; [done|].
    rewrite lookup_insert. case_decide; [|done]. by subst.
Qed.

Lemma task_inv_set_task w tid topic st st' :
  task_inv w →
  tasks w !! tid = Some (mkTask topic st) → st ≠ PDone →
  task_inv (set_task tid topic st' w).
Proof.
  intros [H1 H2 H3 H4 H5] Hl Hnd.
  assert (∀ t x, active_in (<[tid := mkTask topic st']> (tasks w)) t x →
                 active_in (tasks w) t x) as Hkey.
  { intros t x Ha. apply active_in_insert in Ha as [(-> & -> & _)|[_ Ha]]; [|done].
    by exists st. }
  split; simpl.
  - intros t i j Hi Hj. eapply H1; eauto.
  - intros t i Ha. apply H2. eauto.
  - intros i Hi. rewrite lookup_insert in Hi. case_decide; [|auto].
    subst. apply H3. by eexists.
  - exact H4.
  - exact H5.
Qed.

Lemma task_inv_schedule_exists topic w :
  task_inv w → task_inv (schedule (SEnsureExists topic) w).
Proof.
  intros [H1 H2 H3 H4 H5]. split; simpl; auto.
  intros i t Hi. apply lookup_app_Some in Hi as [Hi|[_ Hi]].
  - destruct (H5 i t Hi) as [Hq|(j & Hj & Hl)]; [by left|right].
    exists j. split; [done|]. by apply lookup_app_l_Some.
  - destruct (i - length (ready w)) as [|n]; simpl in Hi; [done|].
    by rewrite lookup_nil in Hi.
Qed.

Lemma task_inv_schedule_processing topic w :
  task_inv w →
  (∃ j, ready w !! j = Some (SEnsureExists topic)) →
  task_inv (schedule (SEnsureProcessing topic) w).
Proof.
  intros [H1 H2 H3 H4 H5] (j0 & Hj0). split; simpl; auto.
  intros i t Hi. apply lookup_app_Some in Hi as [Hi|[Hlen Hi]].
  - destruct (H5 i t Hi) as [Hq|(j & Hj & Hl)]; [by left|right].
    exists j. split; [done|]. by apply lookup_app_l_Some.
  - destruct (i - length (ready w)) as [|n] eqn:En; simpl in Hi;
      [|by rewrite lookup_nil in Hi].
    injection Hi as <-. right. exists j0. split.
    + apply lookup_lt_Some in Hj0. lia.
    + by apply lookup_app_l_Some.
Qed.

Lemma task_inv_pop_exists topic rest w :
  task_inv w →
  ready w = SEnsureExists topic :: rest →
  is_Some (topics (broker w) !! topic) →
  task_inv (mkWorld (broker w) (tasks w) (next_task w) rest).
Proof.
  intros [H1 H2 H3 H4 H5] Hr Hq. split; simpl; auto.
  intros i t Hi. destruct (H5 (S i) t) as [Hqt|(j & Hj & Hl)].
  - by rewrite Hr.
  - by left.
  - rewrite Hr in Hl. destruct j as [|j]; simpl in Hl.
    + injection Hl as ->. by left.
    + right. exists j. split; [lia|done].
Qed.

Lemma task_inv_pop_processing topic rest w :
  task_inv w →
  ready w = SEnsureProcessing topic :: rest →
  is_Some (topics (broker w) !! topic) ∧
  task_inv (mkWorld (broker w) (tasks w) (next_task w) rest).
Proof.
  intros [H1 H2 H3 H4 H5] Hr. split.
  - destruct (H5 0 topic) as [Hq|(j & Hj & _)]; [by rewrite Hr|done|lia].
  - split; simpl; auto.
    intros i t Hi. destruct (H5 (S i) t) as [Hqt|(j & Hj & Hl)].
    + by rewrite Hr.
    + by left.
    + rewrite Hr in Hl. destruct j as [|j]; simpl in Hl; [done|].
      right. exists j. split; [lia|done].
Qed.

Lemma task_inv_run_ready w : task_inv w → task_inv (run_ready w).
Proof.
  intros Hinv. unfold run_ready. destruct (ready w) as [|[t|t] rest] eqn:Hr; [done|..].
  - change (set_broker (_ensure_topic_exists t) (mkWorld (broker w) (tasks w) (next_task w) rest))
      with (mkWorld (broker (set_broker (_ensure_topic_exists t) w))
                    (tasks (set_broker (_ensure_topic_exists t) w))
                    (next_task (set_broker (_ensure_topic_exists t) w)) rest).
    apply (task_inv_pop_exists t).
    + by apply task_inv_ensure_exists.
    + done.
    + apply ensure_exists_is_Some.
  - destruct (task_inv_pop_processing t rest w Hinv Hr) as [Hq Hinv'].
    by apply task_inv_ensure_processing.
Qed.

Lemma same_shape_refl b : same_shape b b.
Proof. by split. Qed.

Lemma same_shape_trans b1 b2 b3 : same_shape b1 b2 → same_shape b2 b3 → same_shape b1 b3.
Proof.
  intros (H1 & H2 & H3) (H1' & H2' & H3'). split; [|split]; auto. congruence.
Qed.

Lemma same_shape_stats f b : same_shape b (with_stats f b).
Proof. by split. Qed.

Lemma same_shape_running r b : same_shape b (with_running r b).
Proof. by split. Qed.

Lemma same_shape_consumers c b : same_shape b (with_consumers c b).
Proof. by split. Qed.

Lemma same_shape_queue t q b : same_shape b (with_topics (<[t := q]> (topics b)) b).
Proof.
  split; [|by split]. intros t' Ht; simpl. rewrite lookup_insert. case_decide; eauto.
Qed.

Lemma same_shape_take t q b :
  same_shape b (with_stats inc_consumed (with_topics (<[t := q]> (topics b)) b)).
Proof. eapply same_shape_trans; [apply same_shape_queue|apply same_shape_stats]. Qed.

Lemma same_shape_put t q b :
  same_shape b (with_stats inc_published (with_topics (<[t := q]> (topics b)) b)).
Proof. eapply same_shape_trans; [apply same_shape_queue|apply same_shape_stats]. Qed.

Create HintDb shape.
#[local] Hint Resolve same_shape_refl same_shape_stats same_shape_running
  same_shape_consumers same_shape_queue same_shape_take same_shape_put : shape.

Lemma NoDup_remove_first `{EqDecision A} (x : A) l : NoDup l → NoDup (remove_first x l).
Proof.
  induction 1 as [|y l Hy Hl IH]; simpl; [constructor|].
  case_decide; [done|]. constructor; [|done].
  intros Hin. apply Hy. clear -Hin. induction l as [|z l IH]; simpl in *; [done|].
  case_decide.
  - by apply elem_of_cons; right.
  - apply elem_of_cons in Hin as [->|Hin]; [apply list_elem_of_here|].
    apply elem_of_cons; right; auto.
Qed.

Lemma same_shape_subscribers t l b :
  NoDup l → same_shape b (with_subscribers (<[t := l]> (subscribers b)) b).
Proof.
  intros Hl. split; [done|]. split; [done|]. simpl. intros H. by apply map_Forall_insert_2.
Qed.

Lemma same_shape_consume_close topic ct b : same_shape b (consume_close topic ct b).
Proof.
  unfold consume_close. destruct (consumers b !! topic); [|apply same_shape_refl].
  destruct (inb ct l); [apply same_shape_consumers|apply same_shape_refl].
Qed.

Lemma same_shape_unsubscribe topic cb b :
  map_Forall (λ _ l, NoDup l) (subscribers b) → same_shape b (unsubscribe topic cb b).2.
Proof.
  intros Hnd. unfold unsubscribe. destruct (subscribers b !! topic) as [l|] eqn:E; simpl;
    [|apply same_shape_refl].
  destruct (inb cb l); simpl; [|apply same_shape_refl].
  apply same_shape_subscribers, NoDup_remove_first. by eapply Hnd.
Qed.

Lemma task_inv_set_broker f w :
  task_inv w → same_shape (broker w) (f (broker w)) → task_inv (set_broker f w).
Proof.
  intros Hinv (H1 & H2 & H3). unfold set_broker.
  apply task_inv_frame; auto. apply H3, Hinv.
Qed.

Lemma task_inv_start w : task_inv w → task_inv (set_broker start w).
Proof.
  intros Hinv. unfold start.
  destruct (_running (broker w)) eqn:Hr.
  { unfold set_broker. rewrite Hr. by destruct w. }
  assert (task_inv (set_broker (with_running true) w)) as Hinv'.
  { apply task_inv_set_broker; [done|apply same_shape_running]. }
  assert (∀ l w0, task_inv w0 →
            task_inv (set_broker (λ b, foldl (λ acc t, _ensure_topic_exists t acc) b l) w0))
    as Hfold.
  { induction l as [|t l IH]; intros w0 H0; simpl.
    - by destruct w0.
    - apply (IH (set_broker (_ensure_topic_exists t) w0)). by apply task_inv_ensure_exists. }
  specialize (Hfold InternalMessageType _ Hinv').
  unfold set_broker in *. simpl in *. by rewrite Hr.
Qed.

Lemma task_inv_publish topic message t1 t2 oid w :
  task_inv w → task_inv (publish topic message t1 t2 oid w).2.
Proof.
  intros Hinv.
  destruct (publish_cases topic message t1 t2 oid w) as [Hr|Hr Hrej|q Hr Hany Hq Hf]; simpl.
  - done.
  - by apply task_inv_ensure_exists.
  - apply task_inv_ensure_processing.
    + apply task_inv_set_broker; [by apply task_inv_ensure_exists|auto with shape].
    + simpl. rewrite lookup_insert_eq. eauto.
Qed.

Lemma task_inv_subscribe topic cb w :
  task_inv w → task_inv (subscribe topic cb w).2.
Proof.
  intros Hinv. unfold subscribe. destruct (_running (broker w)); simpl; [|done].
  pose proof (task_inv_schedule_exists topic w Hinv) as H1.
  assert (∃ j, ready (schedule (SEnsureExists topic) w) !! j = Some (SEnsureExists topic))
    as Hj.
  { exists (length (ready w)). simpl. by rewrite list_lookup_middle. }
  destruct (subscribers (broker w) !! topic) as [l|] eqn:E; simpl.
  - rewrite E; simpl. destruct (inb cb l) eqn:Hin; simpl; [done|].
    apply task_inv_schedule_processing; [|done].
    apply task_inv_set_broker; [done|]. simpl.
    apply same_shape_subscribers. apply NoDup_app. split; [by eapply (inv_nodup w Hinv)|].
    split; [|apply NoDup_singleton].
    intros x Hx Hx'. apply list_elem_of_singleton in Hx' as ->. by apply inb_false in Hin.
  - rewrite lookup_insert_eq; simpl.
    assert (task_inv (set_broker (λ b, with_subscribers (<[topic := []]> (subscribers b)) b)
                        (schedule (SEnsureExists topic) w))) as H2.
    { apply task_inv_set_broker; [done|]. apply same_shape_subscribers. constructor. }
    destruct (inb cb []) eqn:Hin; simpl; [done|].
    apply task_inv_schedule_processing; [|done].
    apply task_inv_set_broker; [done|]. simpl.
    apply (same_shape_subscribers topic [cb]). apply NoDup_singleton.
Qed.

Lemma task_inv_consume_one_wait topic during w :
  task_inv w → task_inv (consume_one_wait topic during w).2.
Proof.
  revert w. induction during as [|c rest IH]; intros w Hinv; simpl.
  - destruct (topics (broker w) !! topic ≫= get) as [[m q']|]; simpl; [|done].
    apply task_inv_set_broker; auto with shape.
  - destruct (topics (broker w) !! topic ≫= get) as [[m q']|]; simpl.
    + apply task_inv_set_broker; auto with shape.
    + pose proof (task_inv_publish (pc_topic c) (pc_message c) (pc_t1 c) (pc_t2 c)
                    (pc_oid c) w Hinv) as Hp.
      unfold do_publish. destruct (publish _ _ _ _ _ w) as [r w1]; simpl in *.
      specialize (IH w1 Hp). by destruct (consume_one_wait topic rest w1) as [[res rs] w2].
Qed.

Lemma task_inv_proc_step tid o w :
  task_inv w → task_inv (_process_topic_messages tid o w).1.
Proof.
  intros Hinv. unfold _process_topic_messages.
  destruct (tasks w !! tid) as [[topic st]|] eqn:Hl; [|done].
  destruct st as [| | |m [|c pend] res|]; simpl.
  - destruct (topics (broker w) !! topic); simpl; by eapply task_inv_set_task.
  - destruct (_running (broker w)); simpl; [|by eapply task_inv_set_task].
    destruct (truthy _); simpl; [by eapply task_inv_set_task|done].
  - destruct (topics (broker w) !! topic ≫= get) as [[m q']|]; simpl.
    + assert (task_inv (set_broker (with_topics (<[topic := q']> (topics (broker w)))) w)) as H1.
      { apply task_inv_set_broker; [done|apply same_shape_queue]. }
      destruct (default [] _); simpl; by eapply task_inv_set_task.
    + destruct (truthy _); simpl; by eapply task_inv_set_task.
  - eapply task_inv_set_task; [|done..].
    apply task_inv_set_broker; [done|apply same_shape_stats].
  - by eapply task_inv_set_task.
  - done.
Qed.

Lemma same_shape_consume_next tg topic ct b :
  same_shape b (consume_next tg topic ct b).2.
Proof.
  unfold consume_next. destruct (inb ct _); simpl; [|apply same_shape_refl].
  destruct (_running b); simpl; [|apply same_shape_consume_close].
  destruct (topics b !! topic ≫= get) as [[m q']|]; simpl; [auto with shape|].
  destruct tg; simpl; [apply same_shape_consume_close|apply same_shape_refl].
Qed.

Lemma task_inv_consume_open topic ct w :
  task_inv w → task_inv (set_broker (λ b, (consume_open topic ct b).2) w).
Proof.
  intros Hinv. unfold set_broker, consume_open.
  destruct (_running (broker w)); simpl; [|by destruct w].
  refine (task_inv_set_broker (with_consumers _)
            (set_broker (_ensure_topic_exists topic) w) _ _).
  - by apply task_inv_ensure_exists.
  - apply same_shape_consumers.
Qed.

Lemma task_inv_consume_one topic during w :
  task_inv w → task_inv (consume_one topic during w).2.
Proof.
  intros Hinv. unfold consume_one. destruct (_running (broker w)); simpl; [|done].
  by apply task_inv_consume_one_wait, task_inv_ensure_exists.
Qed.

Lemma task_inv_exec op w :
  is_stop op = false → task_inv w → task_inv (exec op w).1.
Proof.
  intros Hop Hinv. destruct op; simpl; try done.
  - by apply task_inv_start.
  - pose proof (task_inv_publish (pc_topic c) (pc_message c) (pc_t1 c) (pc_t2 c)
                  (pc_oid c) w Hinv).
    unfold do_publish. by destruct (publish _ _ _ _ _ w).
  - by apply task_inv_subscribe.
  - apply task_inv_set_broker; [done|]. apply same_shape_unsubscribe, Hinv.
  - by apply task_inv_run_ready.
  - by apply task_inv_proc_step.
  - by apply task_inv_consume_open.
  - pose proof (same_shape_consume_next timeout_given topic consumer_task (broker w)) as Hs.
    destruct (consume_next _ _ _ _) as [[m| |] b']; simpl in *;
      by apply (task_inv_set_broker (λ _, b')).
  - apply task_inv_set_broker; [done|apply same_shape_consume_close].
  - pose proof (task_inv_consume_one topic during w Hinv).
    by destruct (consume_one topic during w) as [[res rs] w'].
Qed.

(** ** The trace and the queues *)

Lemma published_app tr1 tr2 t : published (tr1 ++ tr2) t = published tr1 t ++ published tr2 t.
Proof. apply omap_app. Qed.

Lemma dequeued_app tr1 tr2 t : dequeued (tr1 ++ tr2) t = dequeued tr1 t ++ dequeued tr2 t.
Proof. apply omap_app. Qed.

Lemma invoked_app tr1 tr2 t c : invoked (tr1 ++ tr2) t c = invoked tr1 t c ++ invoked tr2 t c.
Proof. apply omap_app. Qed.

Lemma trace_inv_frame w w' tr :
  trace_inv w tr →
  (∀ t, queue_items w' t = queue_items w t) →
  (∀ i t m pend res, tasks w' !! i = Some (mkTask t (PGather m pend res)) →
                     tasks w !! i = Some (mkTask t (PGather m pend res))) →
  trace_inv w' tr.
Proof.
  intros [H1 H2 H3] Hq Ht. split.
  - intros t. by rewrite Hq.
  - exact H2.
  - intros i t m pend res Hi. eapply H3, Ht, Hi.
Qed.

Lemma trace_inv_enqueue w w' tr t0 m :
  trace_inv w tr →
  queue_items w' t0 = queue_items w t0 ++ [m] →
  (∀ t, t ≠ t0 → queue_items w' t = queue_items w t) →
  (∀ i t m' pend res, tasks w' !! i = Some (mkTask t (PGather m' pend res)) →
                      tasks w !! i = Some (mkTask t (PGather m' pend res))) →
  trace_inv w' (tr ++ [EvPublished t0 m]).
Proof.
  intros [H1 H2 H3] Hq Hq' Ht. split.
  - intros t. rewrite published_app, dequeued_app; simpl. rewrite app_nil_r.
    destruct (decide (t0 = t)) as [<-|Hne]; simpl.
    + by rewrite Hq, H1, app_assoc.
    + rewrite Hq' by done. by rewrite app_nil_r.
  - intros t c. rewrite invoked_app, dequeued_app; simpl. rewrite !app_nil_r. apply H2.
  - intros i t m' pend res Hi. destruct (H3 i t m' pend res (Ht _ _ _ _ _ Hi)) as [Hnd Hc].
    split; [done|]. intros c Hin. rewrite invoked_app, dequeued_app; simpl.
    rewrite !app_nil_r. by apply Hc.
Qed.

Lemma trace_inv_dequeue w w' tr t0 m :
  trace_inv w tr →
  queue_items w t0 = m :: queue_items w' t0 →
  (∀ t, t ≠ t0 → queue_items w' t = queue_items w t) →
  (∀ i t m' pend res, tasks w' !! i = Some (mkTask t (PGather m' pend res)) →
     tasks w !! i = Some (mkTask t (PGather m' pend res)) ∨ (t = t0 ∧ m' = m ∧ NoDup pend)) →
  trace_inv w' (tr ++ [EvDequeued t0 m]).
Proof.
  intros [H1 H2 H3] Hq Hq' Ht. split.
  - intros t. rewrite published_app, dequeued_app; simpl. rewrite app_nil_r.
    destruct (decide (t0 = t)) as [<-|Hne]; simpl.
    + rewrite H1, Hq, <- app_assoc. done.
    + rewrite Hq' by done. by rewrite app_nil_r.
  - intros t c. rewrite invoked_app, dequeued_app; simpl. rewrite app_nil_r.
    by apply sublist_inserts_r.
  - intros i t m' pend res Hi. destruct (Ht _ _ _ _ _ Hi) as [Hold|(-> & -> & Hnd)].
    + destruct (H3 i t m' pend res Hold) as [Hnd Hc]. split; [done|].
      intros c Hin. rewrite invoked_app, dequeued_app; simpl. rewrite app_nil_r.
      by apply sublist_inserts_r, Hc.
    + split; [done|]. intros c Hin. rewrite invoked_app, dequeued_app; simpl.
      rewrite app_nil_r, decide_True by done. by apply sublist_app.
Qed.

Lemma trace_inv_invoke w tr i t m c pend res res' :
  trace_inv w tr → task_inv w →
  tasks w !! i = Some (mkTask t (PGather m (c :: pend) res)) →
  trace_inv (set_task i t (PGather m pend res') w) (tr ++ [EvInvoked t c m]).
Proof.
  intros [H1 H2 H3] Htask Hi.
  destruct (H3 i t m (c :: pend) res Hi) as [Hnd Hc].
  apply NoDup_cons in Hnd as [Hnotin Hnd].
  split.
  - intros t'. rewrite published_app, dequeued_app; simpl. by rewrite !app_nil_r.
  - intros t' c'. rewrite invoked_app, dequeued_app; simpl. rewrite app_nil_r.
    case_decide as Heq; [|rewrite app_nil_r; apply H2].
    destruct Heq as [<- <-]. apply Hc, list_elem_of_here.
  - intros j t' m' pend' res'' Hj. simpl in Hj. rewrite lookup_insert in Hj.
    case_decide as Hij.
    + injection Hj as <- <- <- <-. split; [done|].
      intros c' Hin. rewrite invoked_app, dequeued_app; simpl. rewrite app_nil_r.
      rewrite decide_False, app_nil_r.
      * apply Hc. by apply elem_of_cons; right.
      * intros [_ ->]. done.
    + destruct (H3 j t' m' pend' res'' Hj) as [Hnd' Hc']. split; [done|].
      intros c' Hin. rewrite invoked_app, dequeued_app; simpl. rewrite app_nil_r.
      rewrite decide_False, app_nil_r; [by apply Hc'|].
      intros [<- _]. apply Hij. apply (inv_single w Htask t).
      * by exists (PGather m (c :: pend) res).
      * by exists (PGather m' pend' res'').
Qed.

Lemma queue_items_topics w w' t :
  topics (broker w') = topics (broker w) → queue_items w' t = queue_items w t.
Proof. unfold queue_items. by intros ->. Qed.

Lemma start_queue_items w t : queue_items (set_broker start w) t = queue_items w t.
Proof.
  unfold start. destruct (_running (broker w)) eqn:Hr.
  { unfold set_broker, queue_items; simpl. by rewrite Hr. }
  assert (∀ l w0, queue_items
            (set_broker (λ b, foldl (λ acc t, _ensure_topic_exists t acc) b l) w0) t
            = queue_items w0 t) as Hfold.
  { induction l as [|x l IH]; intros w0; [done|].
    transitivity (queue_items (set_broker (_ensure_topic_exists x) w0) t).
    - exact (IH (set_broker (_ensure_topic_exists x) w0)).
    - apply ensure_exists_queue_items. }
  specialize (Hfold InternalMessageType (set_broker (with_running true) w)).
  unfold set_broker, queue_items in *; simpl in *. by rewrite Hr.
Qed.

Lemma ensure_processing_gather topic w i t m pend res :
  task_inv w →
  tasks (_ensure_topic_processing topic w) !! i = Some (mkTask t (PGather m pend res)) →
  tasks w !! i = Some (mkTask t (PGather m pend res)).
Proof.
  intros Hinv. unfold _ensure_topic_processing.
  destruct (List.filter _ _); simpl; [|done].
  rewrite lookup_insert. case_decide; [done|done].
Qed.

Lemma trace_inv_ensure_exists topic w tr :
  trace_inv w tr → trace_inv (set_broker (_ensure_topic_exists topic) w) tr.
Proof.
  intros H. eapply trace_inv_frame; [done| |done].
  intros t. apply ensure_exists_queue_items.
Qed.

Lemma trace_inv_ensure_processing topic w tr :
  task_inv w → trace_inv w tr → trace_inv (_ensure_topic_processing topic w) tr.
Proof.
  intros Htask H. eapply trace_inv_frame; [done| |].
  - intros t. apply queue_items_topics, ensure_processing_topics.
  - intros i t m pend res. by apply ensure_processing_gather.
Qed.

Lemma trace_inv_set_broker f w tr :
  trace_inv w tr → topics (f (broker w)) = topics (broker w) →
  trace_inv (set_broker f w) tr.
Proof.
  intros H Ht. eapply trace_inv_frame; [done| |done].
  intros t. by apply queue_items_topics.
Qed.

Lemma trace_inv_publish c w tr :
  task_inv w → trace_inv w tr →
  trace_inv (do_publish c w).2 (tr ++ published_event c (do_publish c w).1).
Proof.
  intros Htask H. unfold do_publish.
  destruct (publish_cases (pc_topic c) (pc_message c) (pc_t1 c) (pc_t2 c) (pc_oid c) w)
    as [Hr|Hr Hrej|q Hr Hany Hq Hf]; simpl; rewrite ?app_nil_r.
  - done.
  - by apply trace_inv_ensure_exists.
  - eapply trace_inv_enqueue; [exact H|..].
    + rewrite <- (ensure_exists_queue_items (pc_topic c) (pc_topic c) w).
      unfold queue_items. rewrite ensure_processing_topics; simpl.
      by rewrite lookup_insert_eq, Hq.
    + intros t Hne. rewrite <- (ensure_exists_queue_items (pc_topic c) t w).
      unfold queue_items. rewrite ensure_processing_topics; simpl.
      by rewrite lookup_insert_ne.
    + intros i t m' pend res Hi.
      apply ensure_processing_gather in Hi; [done|].
      apply task_inv_set_broker; [by apply task_inv_ensure_exists|auto with shape].
Qed.

Lemma subscribe_topics topic cb w :
  topics (broker (subscribe topic cb w).2) = topics (broker w).
Proof.
  unfold subscribe. destruct (_running (broker w)); simpl; [|done].
  destruct (subscribers (broker w) !! topic) as [l|] eqn:E; simpl.
  - rewrite E; simpl. by destruct (inb cb l).
  - rewrite lookup_insert_eq; simpl. by destruct (inb cb []).
Qed.

Lemma subscribe_tasks topic cb w : tasks (subscribe topic cb w).2 = tasks w.
Proof.
  unfold subscribe. destruct (_running (broker w)); simpl; [|done].
  destruct (subscribers (broker w) !! topic) as [l|] eqn:E; simpl.
  - rewrite E; simpl. by destruct (inb cb l).
  - rewrite lookup_insert_eq; simpl. by destruct (inb cb []).
Qed.

Lemma unsubscribe_topics topic cb b : topics (unsubscribe topic cb b).2 = topics b.
Proof.
  unfold unsubscribe. destruct (subscribers b !! topic); [|done]. by destruct (inb cb l).
Qed.

Lemma consume_close_topics topic ct b : topics (consume_close topic ct b) = topics b.
Proof.
  unfold consume_close. destruct (consumers b !! topic); [|done]. by destruct (inb ct l).
Qed.

Lemma trace_inv_run_ready w tr : task_inv w → trace_inv w tr → trace_inv (run_ready w) tr.
Proof.
  intros Htask H. unfold run_ready. destruct (ready w) as [|[t|t] rest] eqn:Hr; [done|..].
  - eapply trace_inv_frame; [exact H| |done].
    intros t'. apply (ensure_exists_queue_items t t' w).
  - destruct (task_inv_pop_processing t rest w Htask Hr) as [Hq Hinv'].
    apply trace_inv_ensure_processing; [done|].
    eapply trace_inv_frame; [exact H|done|done].
Qed.

(** Taking the first item of a queue. *)
Lemma get_queue_items w topic q m q' :
  topics (broker w) !! topic = Some q → get q = Some (m, q') →
  queue_items w topic = m :: q_items q'.
Proof.
  intros Hq Hg. unfold queue_items, get in *. rewrite Hq.
  destruct (q_items q); [done|]. by simplify_eq.
Qed.

Lemma trace_inv_take w f tr topic q m q' :
  trace_inv w tr →
  topics (broker w) !! topic = Some q → get q = Some (m, q') →
  topics (f (broker w)) = <[topic := q']> (topics (broker w)) →
  trace_inv (set_broker f w) (tr ++ [EvDequeued topic m]).
Proof.
  intros H Hq Hg Hf. eapply trace_inv_dequeue; [exact H|..].
  - rewrite (get_queue_items w topic q m q' Hq Hg). f_equal.
    unfold queue_items; simpl. by rewrite Hf, lookup_insert_eq.
  - intros t Hne. unfold queue_items; simpl. by rewrite Hf, lookup_insert_ne.
  - intros i t m' pend res Hi. by left.
Qed.

Lemma bind_get_Some (tp : gmap string Queue) topic m q' :
  tp !! topic ≫= get = Some (m, q') →
  ∃ q, tp !! topic = Some q ∧ get q = Some (m, q').
Proof. destruct (tp !! topic) as [q|]; simpl; [eauto|done]. Qed.

(** The dispatch task takes a message and starts the subscriber tasks. *)
Lemma trace_inv_dispatch w tr tid topic q m q' st' :
  task_inv w → trace_inv w tr →
  topics (broker w) !! topic = Some q → get q = Some (m, q') →
  (∀ m' pend res, st' = PGather m' pend res →
                  m' = m ∧ pend = default [] (subscribers (broker w) !! topic)) →
  trace_inv (set_task tid topic st'
               (set_broker (with_topics (<[topic := q']> (topics (broker w)))) w))
            (tr ++ [EvDequeued topic m]).
Proof.
  intros Htask H Hq Hg Hst.
  assert (NoDup (default [] (subscribers (broker w) !! topic))) as Hnd.
  { destruct (subscribers (broker w) !! topic) as [l|] eqn:Hs; simpl; [|constructor].
    by eapply (inv_nodup w Htask). }
  eapply trace_inv_dequeue; [exact H|..].
  - rewrite (get_queue_items w topic q m q' Hq Hg). f_equal.
    unfold queue_items; simpl. by rewrite lookup_insert_eq.
  - intros t Hne. unfold queue_items; simpl. by rewrite lookup_insert_ne.
  - intros i t m' pend res Hi. simpl in Hi. rewrite lookup_insert in Hi.
    case_decide; [|by left]. right. injection Hi as <- Hi.
    destruct (Hst m' pend res) as [-> ->]; done.
Qed.

Lemma trace_inv_proc_step tid o w tr :
  task_inv w → trace_inv w tr →
  trace_inv (_process_topic_messages tid o w).1 (tr ++ (_process_topic_messages tid o w).2).
Proof.
  intros Htask H. unfold _process_topic_messages.
  destruct (tasks w !! tid) as [[topic st]|] eqn:Hl; [|by rewrite app_nil_r].
  assert (∀ st' w0, (∀ m pend res, st' ≠ PGather m pend res) →
            trace_inv w0 tr →
            tasks w0 = tasks w →
            trace_inv (set_task tid topic st' w0) tr) as Hsimple.
  { intros st' w0 Hng H0 Hts. eapply trace_inv_frame; [exact H0|done|].
    intros i t m pend res Hi. simpl in Hi. rewrite lookup_insert in Hi.
    case_decide; [|done]. injection Hi as _ Hi. by destruct (Hng m pend res). }
  destruct st as [| | |m [|c pend] res|]; simpl.
  - destruct (topics (broker w) !! topic); simpl; rewrite app_nil_r; by apply Hsimple.
  - destruct (_running (broker w)); simpl; [|rewrite app_nil_r; by apply Hsimple].
    destruct (truthy _); simpl; rewrite app_nil_r; [by apply Hsimple|done].
  - destruct (topics (broker w) !! topic ≫= get) as [[m q']|] eqn:E; simpl.
    + apply bind_get_Some in E as (q & Hq & Hg).
      destruct (default [] (subscribers (broker w) !! topic)) as [|c subs] eqn:Hsubs; simpl.
      * eapply trace_inv_dispatch; eauto. intros; discriminate.
      * eapply trace_inv_dispatch; eauto. intros m' pend res [= <- <- _]. by rewrite Hsubs.
    + destruct (truthy _); simpl; rewrite app_nil_r; by apply Hsimple.
  - rewrite app_nil_r. apply Hsimple; [done| |done].
    by apply trace_inv_set_broker.
  - by eapply trace_inv_invoke.
  - by rewrite app_nil_r.
Qed.

Lemma trace_inv_consume_open topic ct w tr :
  trace_inv w tr → trace_inv (set_broker (λ b, (consume_open topic ct b).2) w) tr.
Proof.
  intros H. eapply trace_inv_frame; [exact H| |done].
  intros t. unfold consume_open. destruct (_running (broker w)) eqn:Hr.
  - unfold queue_items; simpl. rewrite Hr; simpl.
    apply (ensure_exists_queue_items topic t w).
  - unfold queue_items; simpl. by rewrite Hr.
Qed.

Lemma consume_next_cases tg topic ct b :
  (∃ m q q', consume_next tg topic ct b
             = (Yielded m, with_stats inc_consumed (with_topics (<[topic := q']> (topics b)) b))
             ∧ topics b !! topic = Some q ∧ get q = Some (m, q'))
  ∨ (∀ m, (consume_next tg topic ct b).1 ≠ Yielded m)
    ∧ topics (consume_next tg topic ct b).2 = topics b.
Proof.
  unfold consume_next. destruct (inb ct _); simpl; [|by right].
  destruct (_running b); simpl; [|right; split; [done|apply consume_close_topics]].
  destruct (topics b !! topic ≫= get) as [[m q']|] eqn:E; simpl.
  - left. apply bind_get_Some in E as (q & Hq & Hg). eauto 10.
  - right. destruct tg; simpl; split; try done. apply consume_close_topics.
Qed.

Lemma trace_inv_consume_one_wait topic during w tr :
  task_inv w → trace_inv w tr →
  trace_inv (consume_one_wait topic during w).2
    (tr ++ concat (zip_with published_event
                     (take (length (consume_one_wait topic during w).1.2) during)
                     (consume_one_wait topic during w).1.2)
        ++ match (consume_one_wait topic during w).1.1 with
           | Some m => [EvDequeued topic m]
           | None => []
           end).
Proof.
  revert w tr. induction during as [|c rest IH]; intros w tr Htask H; simpl.
  - destruct (topics (broker w) !! topic ≫= get) as [[m q']|] eqn:E; simpl.
    + apply bind_get_Some in E as (q & Hq & Hg). rewrite ?app_nil_r.
      by eapply trace_inv_take.
    + by rewrite !app_nil_r.
  - destruct (topics (broker w) !! topic ≫= get) as [[m q']|] eqn:E; simpl.
    + apply bind_get_Some in E as (q & Hq & Hg). rewrite ?app_nil_r.
      by eapply trace_inv_take.
    + pose proof (trace_inv_publish c w tr Htask H) as Hp.
      pose proof (task_inv_publish (pc_topic c) (pc_message c) (pc_t1 c) (pc_t2 c)
                    (pc_oid c) w Htask) as Htask'.
      unfold do_publish in *. destruct (publish _ _ _ _ _ w) as [r w1]; simpl in *.
      specialize (IH w1 _ Htask' Hp).
      destruct (consume_one_wait topic rest w1) as [[res rs] w2]; simpl in *.
      by rewrite <- !app_assoc in IH |- *.
Qed.

Lemma trace_inv_exec op w tr :
  is_stop op = false → task_inv w → trace_inv w tr →
  trace_inv (exec op w).1 (tr ++ (exec op w).2).
Proof.
  intros Hop Htask H. destruct op; simpl; try done; rewrite ?app_nil_r.
  - eapply trace_inv_frame; [exact H| |done]. intros t. apply start_queue_items.
  - pose proof (trace_inv_publish c w tr Htask H).
    by destruct (do_publish c w).
  - eapply trace_inv_frame; [exact H| |].
    + intros t. apply queue_items_topics, subscribe_topics.
    + intros i t m pend res. by rewrite subscribe_tasks.
  - apply trace_inv_set_broker; [done|apply unsubscribe_topics].
  - by apply trace_inv_run_ready.
  - by apply trace_inv_proc_step.
  - by apply trace_inv_consume_open.
  - destruct (consume_next_cases timeout_given topic consumer_task (broker w))
      as [(m & q & q' & -> & Hq & Hg)|[Hny Ht]]; simpl.
    + by eapply (trace_inv_take w (λ _, _)).
    + destruct (consume_next _ _ _ _) as [[m| |] b'] eqn:E; simpl in *.
      * by destruct (Hny m).
      * rewrite app_nil_r. by apply (trace_inv_set_broker (λ _, b')).
      * rewrite app_nil_r. by apply (trace_inv_set_broker (λ _, b')).
  - apply trace_inv_set_broker; [done|apply consume_close_topics].
  - unfold consume_one. destruct (_running (broker w)); simpl; [|by rewrite app_nil_r].
    pose proof (trace_inv_consume_one_wait topic during
                  (set_broker (_ensure_topic_exists topic) w) tr
                  (task_inv_ensure_exists topic w Htask)
                  (trace_inv_ensure_exists topic w tr H)) as Hw.
    by destruct (consume_one_wait topic during _) as [[res rs] w'].
Qed.

Lemma exec_all_inv ops w tr :
  Forall (λ op, is_stop op = false) ops →
  task_inv w → trace_inv w tr →
  task_inv (exec_all ops w).1 ∧ trace_inv (exec_all ops w).1 (tr ++ (exec_all ops w).2).
Proof.
  intros Hops. revert w tr. induction Hops as [|op rest Hop Hrest IH]; intros w tr Htask H; simpl.
  - by rewrite app_nil_r.
  - pose proof (task_inv_exec op w Hop Htask) as H1.
    pose proof (trace_inv_exec op w tr Hop Htask H) as H2.
    destruct (exec op w) as [w1 e1]; simpl in *.
    specialize (IH w1 _ H1 H2). destruct (exec_all rest w1) as [w2 e2]; simpl in *.
    by rewrite app_assoc.
Qed.

Lemma new_world_inv n : task_inv (new_world n) ∧ trace_inv (new_world n) [].
Proof.
  split; split; simpl.
  - intros t i j (st & Hl & _). by rewrite lookup_empty in Hl.
  - intros t i (st & Hl & _). by rewrite lookup_empty in Hl.
  - intros i [x Hx]. by rewrite lookup_empty in Hx.
  - apply map_Forall_empty.
  - intros i t Hi. by rewrite lookup_nil in Hi.
  - done.
  - intros t c. constructor.
  - intros i t m pend res Hi. by rewrite lookup_empty in Hi.
Qed.

(** ** Every operation is a sequence of broker steps *)

Lemma count_published_app tr1 tr2 :
  count_published (tr1 ++ tr2) = count_published tr1 + count_published tr2.
Proof. unfold count_published. by rewrite List.filter_app, length_app. Qed.

Lemma bstep_eq n m b b' : bstep n b b' → n = m → bstep m b b'.
Proof. by intros H <-. Qed.

Lemma bstep_start b : bstep 0 b (start b).
Proof.
  unfold start. destruct (_running b); [constructor|].
  apply (bs_trans 0 0 _ (with_running true b)); [constructor|].
  generalize (with_running true b) as b0.
  induction InternalMessageType as [|t l IH]; intros b0; simpl; [constructor|].
  apply (bs_trans 0 0 _ (_ensure_topic_exists t b0)); [constructor|apply IH].
Qed.

Lemma bstep_stop w : bstep 0 (broker w) (broker (stop w)).
Proof. unfold stop. destruct (_running (broker w)); simpl; constructor. Qed.

Lemma bstep_ensure_processing topic w :
  bstep 0 (broker w) (broker (_ensure_topic_processing topic w)).
Proof.
  unfold _ensure_topic_processing. destruct (List.filter _ _); simpl.
  - eapply (bs_trans 0 0); [|apply bs_broker_tasks]. apply bs_handlers.
  - apply bs_handlers.
Qed.

Lemma bstep_publish topic message t1 t2 oid w :
  bstep (if (publish topic message t1 t2 oid w).1 then 1 else 0)
        (broker w) (broker (publish topic message t1 t2 oid w).2).
Proof.
  destruct (publish_cases topic message t1 t2 oid w) as [Hr|Hr Hrej|q Hr Hany Hq Hf]; simpl.
  - constructor.
  - constructor.
  - apply (bs_trans 0 1 _ (_ensure_topic_exists topic (broker w))); [constructor|].
    eapply (bs_trans 1 0); [|apply bstep_ensure_processing]. simpl.
    eapply bs_put; [exact Hq|]. unfold put_nowait. by rewrite Hf.
Qed.

Lemma bstep_subscribe topic cb w : bstep 0 (broker w) (broker (subscribe topic cb w).2).
Proof.
  unfold subscribe. destruct (_running (broker w)); simpl; [|constructor].
  destruct (subscribers (broker w) !! topic) as [l|] eqn:E; simpl.
  - rewrite E; simpl. destruct (inb cb l) eqn:Hin; simpl; [constructor|].
    apply inb_false in Hin.
    pose proof (bs_subscribe topic cb (broker w)) as Hs. rewrite E in Hs. by apply Hs.
  - rewrite lookup_insert_eq; simpl.
    assert (inb cb [] = false) as Hin by apply inb_false, not_elem_of_nil.
    rewrite ?Hin; simpl.
    eapply (bs_trans 0 0); [apply (bs_subscribers_new topic)|].
    pose proof (bs_subscribe topic cb
                  (with_subscribers (<[topic := []]> (subscribers (broker w))) (broker w)))
      as Hs.
    simpl in Hs. rewrite lookup_insert_eq in Hs. simpl in Hs.
    apply Hs, not_elem_of_nil.
Qed.

Lemma bstep_unsubscribe topic cb b : bstep 0 b (unsubscribe topic cb b).2.
Proof.
  unfold unsubscribe. destruct (subscribers b !! topic) as [l|] eqn:E; [|constructor].
  destruct (inb cb l); simpl; [by apply bs_unsubscribe|constructor].
Qed.

Lemma bstep_run_ready w : bstep 0 (broker w) (broker (run_ready w)).
Proof.
  unfold run_ready. destruct (ready w) as [|[t|t] rest]; simpl.
  - constructor.
  - constructor.
  - apply (bstep_ensure_processing t (mkWorld (broker w) (tasks w) (next_task w) rest)).
Qed.

Lemma bstep_process_topic_messages tid o w :
  bstep 0 (broker w) (broker (_process_topic_messages tid o w).1).
Proof.
  unfold _process_topic_messages.
  destruct (tasks w !! tid) as [[topic st]|]; [|constructor].
  destruct st as [| | |m [|c pend] res|]; simpl; try constructor.
  - destruct (topics (broker w) !! topic); constructor.
  - destruct (_running (broker w)); simpl; [|constructor]. destruct (truthy _); constructor.
  - destruct (topics (broker w) !! topic ≫= get) as [[m q']|] eqn:E; simpl.
    + apply bind_get_Some in E as (q & Hq & Hg).
      destruct (default [] _); simpl; by eapply bs_take.
    + destruct (truthy _); constructor.
Qed.

Lemma bstep_consume_close topic ct b : bstep 0 b (consume_close topic ct b).
Proof.
  unfold consume_close. destruct (consumers b !! topic); [|constructor].
  destruct (inb ct l); constructor.
Qed.

Lemma bstep_consume_open topic ct b : bstep 0 b (consume_open topic ct b).2.
Proof.
  unfold consume_open. destruct (_running b); simpl; [|constructor].
  eapply (bs_trans 0 0); [apply (bs_ensure topic)|apply bs_consumers].
Qed.

Lemma bstep_take_consumed topic q m q' b :
  topics b !! topic = Some q → get q = Some (m, q') →
  bstep 0 b (with_stats inc_consumed (with_topics (<[topic := q']> (topics b)) b)).
Proof.
  intros Hq Hg. eapply (bs_trans 0 0); [by eapply bs_take|apply bs_consumed].
Qed.

Lemma bstep_consume_next tg topic ct b : bstep 0 b (consume_next tg topic ct b).2.
Proof.
  unfold consume_next. destruct (inb ct _); simpl; [|constructor].
  destruct (_running b); simpl; [|apply bstep_consume_close].
  destruct (topics b !! topic ≫= get) as [[m q']|] eqn:E; simpl.
  - apply bind_get_Some in E as (q & Hq & Hg). by eapply bstep_take_consumed.
  - destruct tg; simpl; [apply bstep_consume_close|constructor].
Qed.

Lemma count_published_event c r : count_published (published_event c r) = if r then 1 else 0.
Proof. by destruct r. Qed.

Lemma bstep_consume_one_wait topic during w :
  bstep (count_published
           (concat (zip_with published_event
                      (take (length (consume_one_wait topic during w).1.2) during)
                      (consume_one_wait topic during w).1.2)))
        (broker w) (broker (consume_one_wait topic during w).2).
Proof.
  revert w. induction during as [|c rest IH]; intros w; simpl.
  - destruct (topics (broker w) !! topic ≫= get) as [[m q']|] eqn:E; simpl; [|constructor].
    apply bind_get_Some in E as (q & Hq & Hg). by eapply bstep_take_consumed.
  - destruct (topics (broker w) !! topic ≫= get) as [[m q']|] eqn:E; simpl.
    + apply bind_get_Some in E as (q & Hq & Hg). by eapply bstep_take_consumed.
    + pose proof (bstep_publish (pc_topic c) (pc_message c) (pc_t1 c) (pc_t2 c) (pc_oid c) w)
        as Hp.
      unfold do_publish. destruct (publish _ _ _ _ _ w) as [r w1]; simpl in *.
      specialize (IH w1). destruct (consume_one_wait topic rest w1) as [[res rs] w2].
      simpl in *. rewrite count_published_app, count_published_event.
      by eapply bs_trans.
Qed.

Lemma bstep_exec op w :
  bstep (count_published (exec op w).2) (broker w) (broker (exec op w).1).
Proof.
  destruct op; simpl.
  - apply bstep_start.
  - apply bstep_stop.
  - pose proof (bstep_publish (pc_topic c) (pc_message c) (pc_t1 c) (pc_t2 c) (pc_oid c) w)
      as Hp.
    unfold do_publish. destruct (publish _ _ _ _ _ w) as [r w1]; simpl in *.
    by rewrite count_published_event.
  - apply bstep_subscribe.
  - apply bstep_unsubscribe.
  - apply bstep_run_ready.
  - pose proof (bstep_process_topic_messages tid o w) as Hp.
    eapply bstep_eq; [exact Hp|].
    unfold _process_topic_messages.
    destruct (tasks w !! tid) as [[topic st]|]; [|done].
    destruct st as [| | |m [|c pend] res|]; simpl; try done.
    + by destruct (topics (broker w) !! topic).
    + destruct (_running (broker w)); simpl; [|done]. by destruct (truthy _).
    + destruct (topics (broker w) !! topic ≫= get) as [[m q']|]; simpl.
      * by destruct (default [] _).
      * by destruct (truthy _).
  - apply bstep_consume_open.
  - pose proof (bstep_consume_next timeout_given topic consumer_task (broker w)) as Hp.
    by destruct (consume_next _ _ _ _) as [[m| |] b'].
  - apply bstep_consume_close.
  - unfold consume_one. destruct (_running (broker w)); simpl; [|constructor].
    pose proof (bstep_consume_one_wait topic during
                  (set_broker (_ensure_topic_exists topic) w)) as Hw.
    destruct (consume_one_wait topic during _) as [[res rs] w']. simpl in *.
    rewrite count_published_app.
    assert (count_published match res with Some m => [EvDequeued topic m] | None => [] end = 0)
      as -> by by destruct res.
    rewrite Nat.add_0_r. apply (bs_trans 0 _ _ (_ensure_topic_exists topic (broker w)));
      [constructor|done].
Qed.

Lemma bstep_exec_all ops w :
  bstep (count_published (exec_all ops w).2) (broker w) (broker (exec_all ops w).1).
Proof.
  revert w. induction ops as [|op rest IH]; intros w; simpl; [constructor|].
  pose proof (bstep_exec op w) as H1. destruct (exec op w) as [w1 e1].
  specialize (IH w1). destruct (exec_all rest w1) as [w2 e2]. simpl in *.
  rewrite count_published_app. by eapply bs_trans.
Qed.

(** ** What the broker steps keep *)

Lemma bstep_published n b b' :
  bstep n b b' →
  total_published (message_stats b') = total_published (message_stats b) + n.
Proof.
  induction 1; simpl; try lia.
  - unfold _ensure_topic_exists. destruct (topics b !! topic); simpl; lia.
Qed.

Lemma bstep_max n b b' : bstep n b b' → max_queue_size b' = max_queue_size b.
Proof.
  induction 1; simpl; try done; try congruence.
  apply ensure_exists_max.
Qed.

Lemma is_Some_insert_keep {A} (m : gmap string A) t x t' :
  is_Some (m !! t') → is_Some (<[t := x]> m !! t').
Proof. intros H. rewrite lookup_insert. case_decide; eauto. Qed.

Lemma wf_replace_queue b topic q q' :
  broker_wf b →
  topics b !! topic = Some q →
  maxsize q' = maxsize q → qsize q' ≤ qsize q ∨ full q = false ∧ qsize q' = S (qsize q) →
  broker_wf (with_topics (<[topic := q']> (topics b)) b).
Proof.
  intros [H1 H2 H3 H4] Hq Hm Hlen. split; simpl.
  - apply map_Forall_insert_2; [|exact H1].
    destruct (H1 topic q Hq) as [Hmax Hcap]. split; [congruence|].
    rewrite Hm. intros Hpos. specialize (Hcap Hpos).
    destruct Hlen as [Hle|[Hf Hs]]; [lia|].
    unfold full in Hf. apply andb_false_iff in Hf as [Hf|Hf]; [apply Z.ltb_ge in Hf; lia|].
    apply Z.leb_gt in Hf. lia.
  - intros t Ht. apply H2. rewrite lookup_insert in Ht. case_decide; [subst; eauto|done].
  - rewrite map_size_insert_Some; [done|eauto].
  - exact H4.
Qed.

Lemma bstep_wf n b b' : bstep n b b' → broker_wf b → broker_wf b'.
Proof.
  induction 1 as [| | topic b | topic q item q' b Hq Hput | topic q m q' b Hq Hg | | |
                  topic cb b Hn | topic b | topic cb l b Hl | | | | | ]; intros Hwf; auto.
  - unfold _ensure_topic_exists. destruct (topics b !! topic) eqn:E; [done|].
    destruct Hwf as [H1 H2 H3 H4]. split; simpl.
    + apply map_Forall_insert_2; [|exact H1].
      split; [done|]. unfold qsize; simpl. lia.
    + intros t Ht. rewrite lookup_insert in Ht.
      rewrite !lookup_insert. case_decide; [eauto|]. by apply H2.
    + rewrite map_size_insert_None by done. lia.
    + apply map_Forall_insert_2; [constructor|exact H4].
  - unfold put_nowait in Hput. destruct (full q) eqn:Hf; [done|]. injection Hput as <-.
    pose proof (wf_replace_queue b topic q (mkQueue (q_items q ++ [item]) (maxsize q))
                  Hwf Hq eq_refl) as Hr.
    destruct Hr as [H1 H2 H3 H4].
    { right. split; [done|]. unfold qsize; simpl. rewrite length_app; simpl. lia. }
    by split.
  - unfold get in Hg. destruct (q_items q) as [|x r] eqn:Hi; [done|]. injection Hg as <- <-.
    apply (wf_replace_queue b topic q); [done|done|done|].
    left. unfold qsize; simpl. rewrite Hi; simpl. lia.
  - destruct Hwf as [H1 H2 H3 H4]. by split.
  - destruct Hwf as [H1 H2 H3 H4]. by split.
  - destruct Hwf as [H1 H2 H3 H4]. split; simpl; auto.
    + intros t Ht. destruct (H2 t Ht) as (? & ? & ?).
      split; [by apply is_Some_insert_keep|done].
    + apply map_Forall_insert_2; [|exact H4].
      apply NoDup_app. split.
      * destruct (subscribers b !! topic) as [l|] eqn:E; simpl; [by eapply H4|constructor].
      * split; [|apply NoDup_singleton].
        intros x Hx Hx'. apply list_elem_of_singleton in Hx' as ->. done.
  - destruct Hwf as [H1 H2 H3 H4]. split; simpl; auto.
    + intros t Ht. destruct (H2 t Ht) as (? & ? & ?).
      split; [by apply is_Some_insert_keep|done].
    + apply map_Forall_insert_2; [constructor|exact H4].
  - destruct Hwf as [H1 H2 H3 H4]. split; simpl; auto.
    + intros t Ht. destruct (H2 t Ht) as (? & ? & ?).
      split; [by apply is_Some_insert_keep|done].
    + apply map_Forall_insert_2; [|exact H4]. apply NoDup_remove_first. by eapply H4.
  - destruct Hwf as [H1 H2 H3 H4]. split; simpl; auto.
    intros t Ht. destruct (H2 t Ht) as (? & ? & ?).
    split; [done|]. split; [by apply is_Some_insert_keep|done].
  - destruct Hwf as [H1 H2 H3 H4]. by split.
  - destruct Hwf as [H1 H2 H3 H4]. split; simpl; auto.
    intros t Ht. destruct (H2 t Ht) as (? & ? & ?).
    split; [done|]. split; [done|by apply is_Some_insert_keep].
  - destruct Hwf as [H1 H2 H3 H4]. by split.
  - split; simpl.
    + apply map_Forall_empty.
    + intros t Ht. rewrite lookup_empty in Ht. by destruct Ht.
    + rewrite map_size_empty. lia.
    + apply map_Forall_empty.
Qed.

Lemma init_wf n : broker_wf (init n).
Proof.
  split; simpl.
  - apply map_Forall_empty.
  - intros t Ht. rewrite lookup_empty in Ht. by destruct Ht.
  - rewrite map_size_empty. lia.
  - apply map_Forall_empty.
Qed.

(** ** [start] *)

Lemma ensure_exists_topics_keep topic b t q :
  topics b !! t = Some q → topics (_ensure_topic_exists topic b) !! t = Some q.
Proof. intros H. rewrite ensure_exists_topics_lookup. by rewrite H. Qed.

Lemma ensure_all_spec l b :
  let b' := foldl (λ acc topic, _ensure_topic_exists topic acc) b l in
  (∀ t, t ∈ l → is_Some (topics b' !! t)) ∧
  (∀ t q, topics b !! t = Some q → topics b' !! t = Some q) ∧
  _running b' = _running b.
Proof.
  revert b. induction l as [|x l IH]; intros b; simpl.
  - split; [|done]. intros t Ht. by apply elem_of_nil in Ht.
  - destruct (IH (_ensure_topic_exists x b)) as (H1 & H2 & H3). split; [|split].
    + intros t Ht. apply elem_of_cons in Ht as [->|Ht]; [|by apply H1].
      destruct (ensure_exists_is_Some x b) as [q Hq]. rewrite (H2 x q Hq). eauto.
    + intros t q Hq. by apply H2, ensure_exists_topics_keep.
    + by rewrite H3, ensure_exists_running.
Qed.

Lemma start_twice b : start (start b) = start b.
Proof.
  unfold start at 1. destruct (_running (start b)) eqn:E; [done|].
  unfold start in E. destruct (_running b) eqn:Hr; [congruence|].
  destruct (ensure_all_spec InternalMessageType (with_running true b)) as (_ & _ & H3).
  cbv zeta in H3. rewrite H3 in E. discriminate.
Qed.

Lemma ensure_exists_fresh topic b :
  topics b !! topic = None →
  _ensure_topic_exists topic b
  = mkBroker (<[topic := mkQueue [] (max_queue_size b)]> (topics b))
             (<[topic := []]> (subscribers b))
             (<[topic := []]> (message_handlers b))
             (<[topic := []]> (consumers b))
             (max_queue_size b) (_running b) (_broker_tasks b)
             (inc_topics_created (message_stats b)).
Proof. intros H. unfold _ensure_topic_exists. by rewrite H. Qed.

Lemma ensure_all_fresh l b :
  NoDup l → (∀ t, t ∈ l → topics b !! t = None) →
  let b' := foldl (λ acc topic, _ensure_topic_exists topic acc) b l in
  (∀ t, topics b' !! t = if bool_decide (t ∈ l)
                         then Some (mkQueue [] (max_queue_size b)) else topics b !! t) ∧
  (∀ t, subscribers b' !! t = if bool_decide (t ∈ l) then Some [] else subscribers b !! t) ∧
  (∀ t, consumers b' !! t = if bool_decide (t ∈ l) then Some [] else consumers b !! t) ∧
  topics_created (message_stats b') = topics_created (message_stats b) + length l ∧
  total_published (message_stats b') = total_published (message_stats b) ∧
  total_processed (message_stats b') = total_processed (message_stats b) ∧
  total_failed (message_stats b') = total_failed (message_stats b) ∧
  total_consumed (message_stats b') = total_consumed (message_stats b).
Proof.
  intros Hnd. revert b. induction Hnd as [|x l Hx Hnd IH]; intros b Hfresh.
  - cbn [foldl]. repeat split; intros; try rewrite bool_decide_eq_false_2; try done;
      try apply not_elem_of_nil; try (simpl; lia).
  - cbn [foldl]. rewrite (ensure_exists_fresh x b) by (apply Hfresh, list_elem_of_here).
    set (b1 := mkBroker _ _ _ _ _ _ _ _).
    destruct (IH b1) as (H1 & H2 & H3 & H4 & H5 & H6 & H7 & H8).
    { intros t Ht. subst b1; simpl. rewrite lookup_insert_ne.
      - apply Hfresh. by apply elem_of_cons; right.
      - intros ->. done. }
    assert (∀ t, bool_decide (t ∈ x :: l)
                 = bool_decide (t ∈ l) || bool_decide (x = t)) as Hdec.
    { intros t. apply eq_true_iff_eq. rewrite orb_true_iff, !bool_decide_eq_true.
      rewrite elem_of_cons. split; intros [H|H]; auto. }
    split; [|split; [|split; [|split]]].
    + intros t. rewrite H1, Hdec. subst b1; simpl.
      destruct (bool_decide (t ∈ l)); [done|]. simpl. rewrite lookup_insert.
      by destruct (decide (x = t)); [rewrite bool_decide_eq_true_2|rewrite bool_decide_eq_false_2].
    + intros t. rewrite H2, Hdec. subst b1; simpl.
      destruct (bool_decide (t ∈ l)); [done|]. simpl. rewrite lookup_insert.
      by destruct (decide (x = t)); [rewrite bool_decide_eq_true_2|rewrite bool_decide_eq_false_2].
    + intros t. rewrite H3, Hdec. subst b1; simpl.
      destruct (bool_decide (t ∈ l)); [done|]. simpl. rewrite lookup_insert.
      by destruct (decide (x = t)); [rewrite bool_decide_eq_true_2|rewrite bool_decide_eq_false_2].
    + rewrite H4. subst b1; simpl. lia.
    + rewrite H5, H6, H7, H8. by subst b1.
Qed.

Lemma start_not_running b :
  _running b = false →
  start b = foldl (λ acc topic, _ensure_topic_exists topic acc)
                  (with_running true b) InternalMessageType.
Proof. intros H. unfold start. by rewrite H. Qed.

Lemma stop_broker w :
  _running (broker w) = true →
  broker (stop w)
  = mkBroker ∅ ∅ ∅ ∅ (max_queue_size (broker w)) false [] (message_stats (broker w)).
Proof. intros H. unfold stop. by rewrite H. Qed.

Lemma reachable_wf n ops : broker_wf (broker (exec_all ops (new_world n)).1).
Proof. eapply bstep_wf; [apply bstep_exec_all|apply init_wf]. Qed.

Lemma reachable_max n ops : max_queue_size (broker (exec_all ops (new_world n)).1) = n.
Proof. by rewrite (bstep_max _ _ _ (bstep_exec_all ops (new_world n))). Qed.
(** ** Subscribing, publishing and dispatching *)

Lemma ensure_processing_live topic w :
  ∃ tid, tid ∈ default [] (message_handlers (broker (_ensure_topic_processing topic w)) !! topic)
         ∧ done (_ensure_topic_processing topic w) tid = false.
Proof.
  unfold _ensure_topic_processing.
  destruct (List.filter _ _) as [|a l] eqn:Hf; simpl.
  - exists (next_task w). split.
    + rewrite lookup_insert_eq; simpl. apply elem_of_app. right. by apply list_elem_of_singleton.
    + unfold done; simpl. by rewrite lookup_insert_eq.
  - exists a.
    assert (In a (List.filter (λ t, negb (done w t))
                    (default [] (message_handlers (broker w) !! topic)))) as Hin
      by (rewrite Hf; by left).
    apply filter_In in Hin as [Hin Hd]. split.
    + rewrite lookup_insert_eq; simpl. by apply list_elem_of_In.
    + apply negb_true_iff in Hd. exact Hd.
Qed.

Lemma ensure_processing_ready topic w : ready (_ensure_topic_processing topic w) = ready w.
Proof. unfold _ensure_topic_processing. by destruct (List.filter _ _). Qed.

Lemma ensure_exists_present topic b :
  is_Some (topics b !! topic) → _ensure_topic_exists topic b = b.
Proof. intros [q Hq]. unfold _ensure_topic_exists. by rewrite Hq. Qed.

Lemma subscribe_fresh topic cb w :
  _running (broker w) = true →
  cb ∉ subscriber_list (broker w) topic →
  subscribe topic cb w
  = (true, mkWorld (with_subscribers
                      (<[topic := subscriber_list (broker w) topic ++ [cb]]>
                         (subscribers (broker w))) (broker w))
                   (tasks w) (next_task w)
                   (ready w ++ [SEnsureExists topic; SEnsureProcessing topic])).
Proof.
  intros Hr Hin. unfold subscribe, subscriber_list in *. rewrite Hr; simpl.
  destruct (subscribers (broker w) !! topic) as [l|] eqn:E; simpl in *.
  - rewrite E; simpl. apply inb_false in Hin. rewrite Hin.
    unfold schedule, set_broker; simpl. by rewrite <- app_assoc.
  - rewrite lookup_insert_eq; cbn [from_option id]. apply inb_false in Hin. rewrite Hin.
    unfold schedule, set_broker, with_subscribers; simpl.
    by rewrite insert_insert_eq, <- app_assoc.
Qed.

Lemma run_ready_exists b ts n topic rest :
  run_ready (mkWorld b ts n (SEnsureExists topic :: rest))
  = mkWorld (_ensure_topic_exists topic b) ts n rest.
Proof. reflexivity. Qed.

Lemma run_ready_processing b ts n topic rest :
  run_ready (mkWorld b ts n (SEnsureProcessing topic :: rest))
  = _ensure_topic_processing topic (mkWorld b ts n rest).
Proof. reflexivity. Qed.


Lemma ensure_exists_wipes topic b :
  topics b !! topic = None →
  subscriber_list (_ensure_topic_exists topic b) topic = [] ∧
  consumer_list (_ensure_topic_exists topic b) topic = [].
Proof.
  intros Hq. unfold _ensure_topic_exists, subscriber_list, consumer_list. rewrite Hq; simpl.
  by rewrite !lookup_insert_eq.
Qed.

Lemma ensure_exists_total_published topic b :
  total_published (message_stats (_ensure_topic_exists topic b))
  = total_published (message_stats b).
Proof. unfold _ensure_topic_exists. by destruct (topics b !! topic). Qed.

Lemma subscribe_ready topic cb w :
  _running (broker w) = true →
  ∃ rest, ready (subscribe topic cb w).2 = ready w ++ SEnsureExists topic :: rest.
Proof.
  intros Hr. unfold subscribe. rewrite Hr; simpl.
  destruct (inb cb _); simpl.
  - exists []. by destruct (subscribers (broker w) !! topic).
  - exists [SEnsureProcessing topic].
    destruct (subscribers (broker w) !! topic); simpl; by rewrite <- app_assoc.
Qed.

Lemma run_ready_broker_exists topic rest w :
  ready w = SEnsureExists topic :: rest →
  broker (run_ready w) = _ensure_topic_exists topic (broker w).
Proof. intros H. unfold run_ready. by rewrite H. Qed.

Lemma publish_new_topic topic message t1 t2 oid w :
  _running (broker w) = true →
  topics (broker w) !! topic = None →
  publish topic message t1 t2 oid w = (false, set_broker (_ensure_topic_exists topic) w).
Proof.
  intros Hr Hq. destruct (ensure_exists_wipes topic (broker w) Hq) as [Hs Hc].
  destruct (publish_cases topic message t1 t2 oid w) as [Hr'|Hr' Hrej|q Hr' Hany Hq' Hf].
  - congruence.
  - done.
  - by destruct Hany.
Qed.

Lemma empty_not_full q : q_items q = [] → full q = false.
Proof.
  intros H. unfold full, qsize. rewrite H; simpl.
  destruct (0 <? maxsize q)%Z eqn:E; [|done]. simpl.
  apply Z.ltb_lt in E. apply Z.leb_gt. lia.
Qed.

Lemma consume_next_yields tg topic ct b q m q' :
  ct ∈ consumer_list b topic →
  _running b = true →
  topics b !! topic = Some q →
  get q = Some (m, q') →
  consume_next tg topic ct b
  = (Yielded m, with_stats inc_consumed (with_topics (<[topic := q']> (topics b)) b)).
Proof.
  intros Hct Hr Hq Hg. unfold consume_next, consumer_list in *.
  unfold inb. rewrite bool_decide_eq_true_2 by done. simpl. rewrite Hr, Hq; simpl.
  by rewrite Hg.
Qed.
(** ** Only subscribed callbacks are called *)

Lemma no_new_callee_refl w : no_new_callee w w.
Proof. by split. Qed.

Lemma no_new_callee_trans w1 w2 w3 :
  no_new_callee w1 w2 → no_new_callee w2 w3 → no_new_callee w1 w3.
Proof. intros [H1 H2] [H3 H4]. split; eauto 10. Qed.

Lemma quiet_no_new_callee topic cb w w' :
  quiet topic cb w → no_new_callee w w' → quiet topic cb w'.
Proof.
  intros [H1 H2] [H3 H4]. split.
  - intros Hin. apply H1. by apply H3.
  - intros tid m pend res Hl. eapply H2. by apply H4.
Qed.

Lemma no_new_callee_set_broker f w :
  (∀ t c, c ∈ subscriber_list (f (broker w)) t → c ∈ subscriber_list (broker w) t) →
  no_new_callee w (set_broker f w).
Proof. by split. Qed.

Lemma ensure_exists_subscribers_incl topic t c b :
  c ∈ subscriber_list (_ensure_topic_exists topic b) t → c ∈ subscriber_list b t.
Proof.
  unfold subscriber_list, _ensure_topic_exists. destruct (topics b !! topic); [done|]; simpl.
  rewrite lookup_insert. case_decide; [|done]. simpl. intros H'. by apply elem_of_nil in H'.
Qed.

Lemma no_new_callee_ensure_exists topic w :
  no_new_callee w (set_broker (_ensure_topic_exists topic) w).
Proof. apply no_new_callee_set_broker. intros t c. apply ensure_exists_subscribers_incl. Qed.

Lemma no_new_callee_ensure_processing topic w :
  no_new_callee w (_ensure_topic_processing topic w).
Proof.
  split.
  - intros t c. unfold subscriber_list. by rewrite ensure_processing_subscribers.
  - intros i t m pend res. unfold _ensure_topic_processing.
    destruct (List.filter _ _); simpl; [|done].
    rewrite lookup_insert. by case_decide.
Qed.

Lemma start_subscribers_incl t c b :
  c ∈ subscriber_list (start b) t → c ∈ subscriber_list b t.
Proof.
  unfold start. destruct (_running b); [done|].
  change (subscriber_list b t) with (subscriber_list (with_running true b) t).
  generalize (with_running true b). induction InternalMessageType as [|x l IH]; intros b0; simpl.
  - done.
  - intros H. apply IH in H. by apply ensure_exists_subscribers_incl in H.
Qed.

Lemma no_new_callee_stop w : no_new_callee w (stop w).
Proof.
  unfold stop. destruct (_running (broker w)); simpl; [|apply no_new_callee_refl].
  split; simpl.
  - intros t c. unfold subscriber_list; simpl. rewrite lookup_empty; simpl.
    intros H. by apply elem_of_nil in H.
  - intros i t m pend res. induction (all_tasks (broker w)) as [|x l IH]; simpl; [done|].
    rewrite lookup_alter. case_decide as Hxi; [|done]. subst x.
    destruct (foldr _ _ _ !! i) as [[tt st]|]; simpl; intros Hx; [|done].
    unfold finish_task in Hx. simpl in Hx. congruence.
Qed.

Lemma no_new_callee_publish topic message t1 t2 oid w :
  no_new_callee w (publish topic message t1 t2 oid w).2.
Proof.
  destruct (publish_cases topic message t1 t2 oid w); simpl.
  - apply no_new_callee_refl.
  - apply no_new_callee_ensure_exists.
  - eapply no_new_callee_trans; [|apply no_new_callee_ensure_processing].
    eapply no_new_callee_trans; [apply (no_new_callee_ensure_exists topic)|].
    by apply no_new_callee_set_broker.
Qed.

Lemma elem_of_remove_first `{EqDecision A} (x y : A) l : y ∈ remove_first x l → y ∈ l.
Proof.
  induction l as [|z l IH]; simpl; [done|].
  case_decide as Hd; [by right|]. intros [->|Hy]%elem_of_cons; [by left|right; auto].
Qed.

Lemma unsubscribe_subscribers_incl topic cb b t c :
  c ∈ subscriber_list (unsubscribe topic cb b).2 t → c ∈ subscriber_list b t.
Proof.
  unfold unsubscribe, subscriber_list.
  destruct (subscribers b !! topic) as [l|] eqn:E; [|done].
  destruct (inb cb l); [|done]. simpl.
  rewrite lookup_insert. case_decide; [|done]. subst. rewrite E; simpl.
  apply elem_of_remove_first.
Qed.

Lemma no_new_callee_run_ready w : no_new_callee w (run_ready w).
Proof.
  unfold run_ready. destruct (ready w) as [|[topic|topic] rest]; [apply no_new_callee_refl|..].
  - split; [|done]. intros t c. apply ensure_exists_subscribers_incl.
  - apply (no_new_callee_trans _ (mkWorld (broker w) (tasks w) (next_task w) rest));
      [by split|apply no_new_callee_ensure_processing].
Qed.

Lemma consume_close_subscribers topic ct b :
  subscribers (consume_close topic ct b) = subscribers b.
Proof.
  unfold consume_close. destruct (consumers b !! topic) as [l|]; [|done].
  by destruct (inb ct l).
Qed.

Lemma consume_open_subscribers_incl topic ct b t c :
  c ∈ subscriber_list (consume_open topic ct b).2 t → c ∈ subscriber_list b t.
Proof.
  unfold consume_open. destruct (_running b); simpl; [|done].
  apply ensure_exists_subscribers_incl.
Qed.

Lemma consume_next_subscribers tg topic ct b :
  subscribers (consume_next tg topic ct b).2 = subscribers b.
Proof.
  unfold consume_next. destruct (inb ct _); simpl; [|done].
  destruct (_running b); simpl; [|apply consume_close_subscribers].
  destruct (topics b !! topic ≫= get) as [[m q']|]; simpl; [done|].
  destruct tg; simpl; [apply consume_close_subscribers|done].
Qed.

Lemma no_new_callee_consume_one_wait topic during w :
  no_new_callee w (consume_one_wait topic during w).2.
Proof.
  revert w. induction during as [|c rest IH]; intros w; simpl.
  - destruct (topics (broker w) !! topic ≫= get) as [[m q']|]; simpl;
      [by apply no_new_callee_set_broker|apply no_new_callee_refl].
  - destruct (topics (broker w) !! topic ≫= get) as [[m q']|]; simpl;
      [by apply no_new_callee_set_broker|].
    pose proof (no_new_callee_publish (pc_topic c) (pc_message c) (pc_t1 c) (pc_t2 c)
                  (pc_oid c) w) as Hp.
    unfold do_publish. destruct (publish _ _ _ _ _ w) as [r w1]; simpl in *.
    specialize (IH w1). destruct (consume_one_wait topic rest w1) as [[res rs] w2]; simpl in *.
    by eapply no_new_callee_trans.
Qed.

Lemma no_new_callee_consume_one topic during w :
  no_new_callee w (consume_one topic during w).2.
Proof.
  unfold consume_one. destruct (_running (broker w)); simpl; [|apply no_new_callee_refl].
  eapply no_new_callee_trans; [apply (no_new_callee_ensure_exists topic)|].
  apply no_new_callee_consume_one_wait.
Qed.

Lemma no_invocation_invoked tr t c : no_invocation tr → invoked tr t c = [].
Proof.
  induction 1 as [|e tr He _ IH]; [done|]. simpl. rewrite IH. by destruct e.
Qed.

Lemma no_invocation_app tr1 tr2 :
  no_invocation tr1 → no_invocation tr2 → no_invocation (tr1 ++ tr2).
Proof. apply Forall_app_2. Qed.

Lemma no_invocation_published_event c r : no_invocation (published_event c r).
Proof. destruct r; simpl; [by repeat constructor|constructor]. Qed.

Lemma no_invocation_published_events cs rs :
  no_invocation (concat (zip_with published_event cs rs)).
Proof.
  revert rs. induction cs as [|c cs IH]; intros [|r rs]; simpl; try constructor.
  apply no_invocation_app; [apply no_invocation_published_event|apply IH].
Qed.

(** Every operation but [subscribe] and a step of a dispatch task. *)
Lemma no_new_callee_exec op w :
  match op with OSubscribe _ _ | OProcStep _ _ => False | _ => True end →
  no_new_callee w (exec op w).1 ∧ no_invocation (exec op w).2.
Proof.
  destruct op; simpl; try done; intros _.
  - split; [|constructor]. apply no_new_callee_set_broker. intros t c.
    apply start_subscribers_incl.
  - split; [apply no_new_callee_stop|constructor].
  - pose proof (no_new_callee_publish (pc_topic c) (pc_message c) (pc_t1 c) (pc_t2 c)
                  (pc_oid c) w) as Hp.
    unfold do_publish. destruct (publish _ _ _ _ _ w) as [r w1]; simpl in *.
    split; [done|apply no_invocation_published_event].
  - split; [|constructor]. apply no_new_callee_set_broker. intros t c.
    apply unsubscribe_subscribers_incl.
  - split; [apply no_new_callee_run_ready|constructor].
  - split; [|constructor]. apply no_new_callee_set_broker. intros t c.
    apply consume_open_subscribers_incl.
  - pose proof (consume_next_subscribers timeout_given topic consumer_task (broker w)) as Hs.
    destruct (consume_next _ _ _ _) as [[m| |] b']; simpl in *;
      (split; [apply no_new_callee_set_broker; intros t c; unfold subscriber_list;
               by rewrite Hs|by repeat constructor]).
  - split; [|constructor]. apply no_new_callee_set_broker. intros t c.
    unfold subscriber_list. by rewrite consume_close_subscribers.
  - pose proof (no_new_callee_consume_one topic during w) as Hc.
    destruct (consume_one topic during w) as [[res rs] w']; simpl in *.
    split; [done|]. apply no_invocation_app; [apply no_invocation_published_events|].
    destruct res; by repeat constructor.
Qed.

Lemma quiet_subscribe topic cb t c w :
  ¬ (t = topic ∧ c = cb) → quiet topic cb w → quiet topic cb (subscribe t c w).2.
Proof.
  intros Hne [H1 H2]. split; [|by rewrite subscribe_tasks].
  intros Hin. apply H1. revert Hin. unfold subscribe, subscriber_list.
  destruct (_running (broker w)); simpl; [|done].
  destruct (subscribers (broker w) !! t) as [l|] eqn:E; simpl.
  - rewrite E; simpl. destruct (inb c l); simpl; [done|].
    rewrite lookup_insert. case_decide as Hd; [|done]. subst. rewrite E; simpl.
    intros [Hc|Hc%list_elem_of_singleton]%elem_of_app; [done|]. destruct Hne; by subst.
  - rewrite lookup_insert_eq; cbn [from_option id].
    destruct (inb c []); simpl.
    + rewrite lookup_insert. case_decide as Hd; [|done]. simpl.
      intros Hc. by apply elem_of_nil in Hc.
    + rewrite lookup_insert. case_decide as Hd.
      * simpl. intros Hc%list_elem_of_singleton. destruct Hne; by subst.
      * by rewrite lookup_insert_ne.
Qed.

Lemma invoked_singleton_ne topic cb t c m :
  ¬ (t = topic ∧ c = cb) → invoked [EvInvoked t c m] topic cb = [].
Proof. intros H. simpl. by case_decide. Qed.

Lemma quiet_set_task topic cb tid t st w :
  quiet topic cb w →
  (∀ m pend res, t = topic → st = PGather m pend res → cb ∉ pend) →
  quiet topic cb (set_task tid t st w).
Proof.
  intros [H1 H2] Hst. split; [done|]. intros i m pend res; simpl.
  rewrite lookup_insert. case_decide as Hd; [|apply H2].
  intros Hx. inversion Hx; subst. by eapply Hst.
Qed.

Lemma quiet_set_broker topic cb f w :
  quiet topic cb w → subscribers (f (broker w)) = subscribers (broker w) →
  quiet topic cb (set_broker f w).
Proof. intros [H1 H2] Hs. split; [|done]. unfold subscriber_list; simpl. by rewrite Hs. Qed.

Lemma quiet_proc_step topic cb tid o w :
  quiet topic cb w →
  quiet topic cb (_process_topic_messages tid o w).1 ∧
  invoked (_process_topic_messages tid o w).2 topic cb = [].
Proof.
  intros Hq. unfold _process_topic_messages.
  destruct (tasks w !! tid) as [[t st]|] eqn:Hl; [|done].
  destruct st as [| | |m [|c pend] res|]; simpl.
  - destruct (topics (broker w) !! t); simpl; (split; [|done]);
      by apply quiet_set_task.
  - destruct (_running (broker w)); simpl; [|split; [by apply quiet_set_task|done]].
    destruct (truthy _); simpl; [split; [by apply quiet_set_task|done]|done].
  - destruct (topics (broker w) !! t ≫= get) as [[m q']|]; simpl.
    + assert (quiet topic cb (set_broker (with_topics (<[t := q']> (topics (broker w)))) w))
        as Hq' by (by apply quiet_set_broker).
      destruct (default [] (subscribers (broker w) !! t)) as [|c l] eqn:E; simpl.
      * split; [by apply quiet_set_task|done].
      * split; [|done]. apply quiet_set_task; [done|].
        intros m' pend res -> H. inversion H; subst.
        destruct Hq as [H1 _]. unfold subscriber_list in H1. by rewrite E in H1.
    + destruct (truthy _); simpl; (split; [by apply quiet_set_task|done]).
  - split; [|done]. apply quiet_set_task; [by apply quiet_set_broker|done].
  - destruct Hq as [H1 H2]. split.
    + apply quiet_set_task; [by split|].
      intros m' pend' res' -> H. inversion H; subst.
      specialize (H2 _ _ _ _ Hl). intros Hin. apply H2. by right.
    + case_decide as Hd; [|done]. destruct Hd as [-> ->].
      specialize (H2 _ _ _ _ Hl). destruct H2. by left.
  - done.
Qed.

Lemma quiet_exec topic cb op w :
  subscribes topic cb op = false →
  quiet topic cb w →
  quiet topic cb (exec op w).1 ∧ invoked (exec op w).2 topic cb = [].
Proof.
  intros Hop Hq.
  destruct op as [| | | t c | | | tid o | | | | ] eqn:Eop;
    try (destruct (no_new_callee_exec op w) as [H1 H2]; [by rewrite Eop|];
         rewrite Eop in H1, H2;
         split; [by eapply quiet_no_new_callee|by apply no_invocation_invoked]).
  - simpl. split; [|done]. apply quiet_subscribe; [|done].
    simpl in Hop. by apply bool_decide_eq_false in Hop.
  - simpl. by apply quiet_proc_step.
Qed.

Lemma quiet_exec_all topic cb ops w :
  Forall (λ op, subscribes topic cb op = false) ops →
  quiet topic cb w →
  quiet topic cb (exec_all ops w).1 ∧ invoked (exec_all ops w).2 topic cb = [].
Proof.
  intros Hops. revert w. induction Hops as [|op rest Hop _ IH]; intros w Hq; simpl; [done|].
  destruct (quiet_exec topic cb op w Hop Hq) as [H1 H2].
  destruct (exec op w) as [w1 e1]. simpl in *.
  destruct (IH w1 H1) as [H3 H4]. destruct (exec_all rest w1) as [w2 e2]. simpl in *.
  split; [done|]. by rewrite invoked_app, H2, H4.
Qed.

Lemma quiet_new_world topic cb n : quiet topic cb (new_world n).
Proof.
  split.
  - unfold subscriber_list; simpl. rewrite lookup_empty. apply not_elem_of_nil.
  - intros tid m pend res; simpl. by rewrite lookup_empty.
Qed.

(** ** One round of the dispatch task *)

Lemma gather_run tid topic m outcome pend res w :
  tasks w !! tid = Some (mkTask topic (PGather m pend res)) →
  tasks (exec_all (((λ c, OProcStep tid (outcome c)) <$> pend)
                     ++ [OProcStep tid Returns]) w).1 !! tid
  = Some (mkTask topic PLoopTop) ∧
  topics (broker (exec_all (((λ c, OProcStep tid (outcome c)) <$> pend)
                              ++ [OProcStep tid Returns]) w).1)
  = topics (broker w).
Proof.
  revert res w. induction pend as [|c pend IH]; intros res w Hl.
  - simpl. unfold _process_topic_messages. rewrite Hl; simpl. by rewrite lookup_insert_eq.
  - rewrite !fmap_cons. rewrite <- app_comm_cons.
    set (rest := ((λ c0, OProcStep tid (outcome c0)) <$> pend) ++ [OProcStep tid Returns]) in *.
    specialize (IH (res ++ [_call_subscriber (outcome c)])
                   (set_task tid topic (PGather m pend (res ++ [_call_subscriber (outcome c)])) w)).
    destruct IH as [IH1 IH2]; [simpl; by rewrite lookup_insert_eq|].
    cbn [exec_all exec]. unfold _process_topic_messages at 1 2. rewrite Hl.
    destruct (exec_all rest (set_task _ _ _ w)) as [w2 e2]. simpl in *.
    by rewrite IH1, IH2.
Qed.

Lemma tally_calls outcomes s :
  total_processed (tally (_call_subscriber <$> outcomes) s)
  = total_processed s + length outcomes ∧
  total_failed (tally (_call_subscriber <$> outcomes) s) = total_failed s.
Proof.
  unfold tally; simpl. rewrite successful_call_results, length_fmap. split; [done|lia].
Qed.

Lemma queue_items_get w topic m rest :
  queue_items w topic = m :: rest →
  ∃ q, topics (broker w) !! topic = Some q ∧ get q = Some (m, mkQueue rest (maxsize q)).
Proof.
  unfold queue_items. destruct (topics (broker w) !! topic) as [q|]; [|done].
  intros H. exists q. split; [done|]. unfold get. by rewrite H.
Qed.

Lemma filter_ne_notin `{EqDecision A} (x : A) (l : list A) :
  x ∉ l → filter (λ y, y ≠ x) l = l.
Proof.
  induction l as [|y l IH]; [done|]. intros Hn.
  rewrite filter_cons. case_decide as Hd.
  - f_equal. apply IH. intros Hin. apply Hn. by right.
  - subst. destruct Hn. by left.
Qed.

Lemma remove_first_filter `{EqDecision A} (x : A) (l : list A) :
  NoDup l → remove_first x l = filter (λ y, y ≠ x) l.
Proof.
  induction 1 as [|y l Hy Hnd IH]; [done|]. simpl. rewrite filter_cons.
  case_decide as Hd; case_decide as Hd'; subst; try done.
  - by rewrite filter_ne_notin.
  - by rewrite IH.
Qed.

(** ** [health_check] *)

Lemma subscribes_callback_false topic cb op :
  subscribes_callback cb op = false → subscribes topic cb op = false.
Proof.
  destruct op; simpl; try done. intros H%bool_decide_eq_false.
  apply bool_decide_eq_false. by intros [_ ?].
Qed.

Lemma quiet_consume_one_among topic cb t during w :
  Forall (λ op, subscribes topic cb op = false) during →
  quiet topic cb w →
  quiet topic cb (consume_one_among t during w).1.2 ∧
  invoked (consume_one_among t during w).2 topic cb = [].
Proof.
  intros Hops. revert w. induction Hops as [|op rest Hop Hrest IH]; intros w Hq; simpl.
  - destruct (topics (broker w) !! t ≫= get) as [[m q']|]; simpl;
      [split; [by apply quiet_set_broker|done]|done].
  - destruct (topics (broker w) !! t ≫= get) as [[m q']|]; simpl;
      [split; [by apply quiet_set_broker|done]|].
    destruct (quiet_exec topic cb op w Hop Hq) as [H1 H2].
    destruct (exec op w) as [w1 e1]. simpl in *.
    destruct (is_stop op && _running (broker w)).
    + destruct (quiet_exec_all topic cb rest w1 Hrest H1) as [H3 H4].
      destruct (exec_all rest w1) as [w2 e2]. simpl in *.
      split; [done|]. by rewrite invoked_app, H2, H4.
    + destruct (IH w1 H1) as [H3 H4].
      destruct (consume_one_among t rest w1) as [[res w2] e2]. simpl in *.
      split; [done|]. by rewrite invoked_app, H2, H4.
Qed.

Lemma quiet_consume_one_with topic cb t during w :
  Forall (λ op, subscribes topic cb op = false) during →
  quiet topic cb w →
  quiet topic cb (consume_one_with t during w).1.2 ∧
  invoked (consume_one_with t during w).2 topic cb = [].
Proof.
  intros Hops Hq. unfold consume_one_with. destruct (_running (broker w)); simpl; [|done].
  apply quiet_consume_one_among; [done|].
  eapply quiet_no_new_callee; [done|apply no_new_callee_ensure_exists].
Qed.

Lemma quiet_publish topic cb c w :
  quiet topic cb w →
  quiet topic cb (do_publish c w).2 ∧ invoked (published_event c (do_publish c w).1) topic cb = [].
Proof.
  intros Hq. split.
  - eapply quiet_no_new_callee; [done|apply no_new_callee_publish].
  - apply no_invocation_invoked, no_invocation_published_event.
Qed.

Lemma calls_nil tr cb : (∀ t, invoked tr t cb = []) → calls tr cb = [].
Proof.
  induction tr as [|e tr IH]; [done|]. intros H. simpl.
  assert (∀ t, invoked tr t cb = []) as Htr.
  { intros t. specialize (H t). simpl in H. by destruct (match e with EvInvoked _ _ _ => _ | _ => _ end). }
  rewrite (IH Htr). destruct e as [| |t c m]; try done.
  case_decide as Hd; [|done]. subst. specialize (H t). simpl in H.
  rewrite decide_True in H by done. done.
Qed.

(** After the first two calls of [health_check] on a broker that has no
    test topic, the test subscriber cannot be called. *)
Lemma quiet_after_test_publish e t w :
  topics (broker w) !! test_topic = None →
  quiet t (test_subscriber e) w →
  quiet t (test_subscriber e)
        (do_publish (test_message e) (subscribe test_topic (test_subscriber e) w).2).2.
Proof.
  intros Hq Hquiet. destruct (decide (t = test_topic)) as [->|Hne].
  - destruct (_running (broker w)) eqn:Hr.
    + unfold do_publish; simpl.
      rewrite publish_new_topic; [|by rewrite subscribe_running|by rewrite subscribe_topics].
      split.
      * simpl.
        destruct (ensure_exists_wipes test_topic
                    (broker (subscribe test_topic (test_subscriber e) w).2)) as [Hw _];
          [by rewrite subscribe_topics|].
        rewrite Hw. apply not_elem_of_nil.
      * simpl. rewrite subscribe_tasks. apply Hquiet.
    + unfold subscribe. rewrite Hr; simpl.
      eapply quiet_no_new_callee; [done|apply no_new_callee_publish].
  - eapply quiet_no_new_callee; [|apply no_new_callee_publish].
    apply quiet_subscribe; [|done]. by intros [? _].
Qed.

Lemma health_check_quiet e w :
  topics (broker w) !! test_topic = None →
  (∀ t, quiet t (test_subscriber e) w) →
  Forall (λ op, subscribes_callback (test_subscriber e) op = false)
         (he_sleeping e ++ he_waiting e) →
  calls (health_check e w).2 (test_subscriber e) = [].
Proof.
  intros Hq Hquiet Hops. apply Forall_app in Hops as [Hs Hw].
  apply calls_nil. intros t.
  assert (Forall (λ op, subscribes t (test_subscriber e) op = false) (he_sleeping e)) as Hs'
    by (eapply Forall_impl; [exact Hs|intros op; apply subscribes_callback_false]).
  assert (Forall (λ op, subscribes t (test_subscriber e) op = false) (he_waiting e)) as Hw'
    by (eapply Forall_impl; [exact Hw|intros op; apply subscribes_callback_false]).
  pose proof (quiet_after_test_publish e t w Hq (Hquiet t)) as H2.
  unfold health_check.
  pose proof (no_invocation_published_event (test_message e)
                (do_publish (test_message e)
                   (subscribe test_topic (test_subscriber e) w).2).1) as E1.
  destruct (do_publish (test_message e) _) as [r1 w2]. simpl in H2, E1.
  destruct (quiet_exec_all t _ _ w2 Hs' H2) as [H3 E3].
  destruct (exec_all (he_sleeping e) w2) as [w3 tr3]. simpl in H3, E3.
  destruct (quiet_publish t _ (consume_test e) w3 H3) as [H4 E4].
  destruct (do_publish (consume_test e) w3) as [r2 w4]. simpl in H4, E4.
  destruct (quiet_consume_one_with t _ test_topic _ w4 Hw' H4) as [H5 E5].
  destruct (consume_one_with test_topic (he_waiting e) w4) as [[res w5] tr5].
  simpl in H5, E5. simpl.
  rewrite !invoked_app, E3, E4, E5, (no_invocation_invoked _ _ _ E1). done.
Qed.

Lemma health_check_report e w :
  subscribe_test_passed (health_check e w).1.1
  = bool_decide (0 < length (calls (health_check e w).2 (test_subscriber e))) ∧
  healthy (health_check e w).1.1
  = subscribe_test_passed (health_check e w).1.1 && consume_test_passed (health_check e w).1.1.
Proof.
  unfold health_check.
  destruct (do_publish (test_message e) _) as [r1 w2].
  destruct (exec_all (he_sleeping e) w2) as [w3 tr3].
  destruct (do_publish (consume_test e) w3) as [r2 w4].
  destruct (consume_one_with test_topic (he_waiting e) w4) as [[res w5] tr5].
  done.
Qed.

Lemma quiet_started_world topic cb : quiet topic cb started_world.
Proof.
  eapply quiet_no_new_callee; [apply (quiet_new_world topic cb 1000)|].
  apply no_new_callee_set_broker. intros t c. apply start_subscribers_incl.
Qed.

(** [consume_one_among] with only calls of [publish] during the wait is
    [consume_one_wait]. *)
Lemma consume_one_among_publishes topic during w :
  consume_one_among topic (OPublish <$> during) w
  = ((consume_one_wait topic during w).1.1, (consume_one_wait topic during w).2,
     concat (zip_with published_event
               (take (length (consume_one_wait topic during w).1.2) during)
               (consume_one_wait topic during w).1.2)
     ++ match (consume_one_wait topic during w).1.1 with
        | Some m => [EvDequeued topic m]
        | None => []
        end).
Proof.
  revert w. induction during as [|c rest IH]; intros w; simpl.
  - by destruct (topics (broker w) !! topic ≫= get) as [[m q']|].
  - destruct (topics (broker w) !! topic ≫= get) as [[m q']|]; [done|].
    destruct (do_publish c w) as [r w1]. rewrite IH.
    destruct (consume_one_wait topic rest w1) as [[res rs] w2]. simpl.
    by rewrite app_assoc.
Qed.

(** ** The connection manager's dictionaries *)

Lemma registry_consistent_frame cm cm' :
  active_connections cm' = active_connections cm →
  user_heartbeats cm' = user_heartbeats cm →
  heartbeat_tasks cm' = heartbeat_tasks cm →
  registry_consistent cm → registry_consistent cm'.
Proof. intros H1 H2 H3 H u. rewrite H1, H2, H3. apply H. Qed.

Lemma registry_consistent_init i t : registry_consistent (manager_init i t).
Proof. intros u. simpl. by rewrite !lookup_empty. Qed.

Lemma registry_consistent_cleanup user_id cm :
  registry_consistent cm → registry_consistent (_cleanup_user_connection user_id cm).
Proof.
  intros H u. simpl. rewrite !lookup_delete. case_decide as Hd; [|apply H].
  split; split; intros [? ?]; done.
Qed.

Lemma registry_consistent_stop_main cm :
  registry_consistent cm → registry_consistent (_stop_main_heartbeat cm).
Proof. by apply registry_consistent_frame. Qed.

Lemma registry_consistent_start_main task cm :
  registry_consistent cm → registry_consistent (_start_main_heartbeat task cm).
Proof.
  unfold _start_main_heartbeat. destruct (_heartbeat_running cm); [done|].
  by apply registry_consistent_frame.
Qed.

Lemma registry_consistent_finish task cm :
  registry_consistent cm → registry_consistent (finish task cm).
Proof. by apply registry_consistent_frame. Qed.

Lemma registry_consistent_connect websocket user_id now task main_task cm :
  registry_consistent cm → registry_consistent (connect websocket user_id now task main_task cm).
Proof.
  intros H. unfold connect. apply registry_consistent_start_main.
  intros u. simpl. rewrite !lookup_insert. case_decide as Hd; [|apply H].
  split; split; intros _; by eexists.
Qed.

Lemma registry_consistent_update user_id now cm :
  registry_consistent cm → registry_consistent (update_user_heartbeat user_id now cm).
Proof.
  intros H. unfold update_user_heartbeat.
  destruct (active_connections cm !! user_id) as [ws|] eqn:E; [|done].
  intros u. simpl. rewrite lookup_insert. case_decide as Hd; [|apply H].
  subst. split; [|apply H]. split; intros _; [rewrite E|]; by eexists.
Qed.

Lemma registry_consistent_send message user_id o cm :
  registry_consistent cm →
  registry_consistent (send_personal_message message user_id o cm).1.2.
Proof.
  intros H. unfold send_personal_message.
  destruct (active_connections cm !! user_id); [|done].
  destruct o; simpl; [done|by apply registry_consistent_cleanup..].
Qed.

Lemma registry_consistent_force user_id reason now send close cm :
  registry_consistent cm →
  registry_consistent (_force_disconnect_user user_id reason now send close cm).1.
Proof.
  intros H. unfold _force_disconnect_user.
  destruct (active_connections cm !! user_id); simpl;
    [|by apply registry_consistent_cleanup].
  destruct close; simpl; [by apply registry_consistent_cleanup|done..].
Qed.

Lemma registry_consistent_ping task user_id now ping send close cm :
  registry_consistent cm →
  registry_consistent (_user_heartbeat_loop_ping task user_id now ping send close cm).1.2.
Proof.
  intros H. unfold _user_heartbeat_loop_ping.
  destruct (active_connections cm !! user_id); simpl;
    [|by apply registry_consistent_finish].
  destruct (_heartbeat_running cm); simpl; [|by apply registry_consistent_finish].
  destruct ping; simpl; [done|by apply registry_consistent_finish|].
  pose proof (registry_consistent_force user_id "heartbeat_error" now send close cm H) as Hf.
  destruct (_force_disconnect_user _ _ _ _ _ cm) as [cm' evs]. simpl in *.
  by apply registry_consistent_finish.
Qed.

Lemma registry_consistent_check task user_id now send close cm :
  registry_consistent cm →
  registry_consistent (_user_heartbeat_loop_check task user_id now send close cm).1.2.
Proof.
  intros H. unfold _user_heartbeat_loop_check.
  destruct (heartbeat_expired user_id now cm); simpl; [|done].
  pose proof (registry_consistent_force user_id "heartbeat_timeout" now send close cm H) as Hf.
  destruct (_force_disconnect_user _ _ _ _ _ cm) as [cm' evs]. simpl in *.
  by apply registry_consistent_finish.
Qed.

Lemma registry_consistent_disconnect order websocket cm :
  registry_consistent cm → registry_consistent (disconnect order websocket cm).
Proof.
  intros H. unfold disconnect.
  set (cm1 := match find_user _ _ _ with Some _ => _ | None => _ end).
  assert (registry_consistent cm1) as H1.
  { unfold cm1. destruct (find_user _ _ _) as [u|]; [|done].
    case_bool_decide; [done|by apply registry_consistent_cleanup]. }
  destruct (_ && _); [by apply registry_consistent_stop_main|done].
Qed.

Lemma registry_consistent_disconnect_all order close cm :
  registry_consistent cm → registry_consistent (disconnect_all order close cm).1.
Proof.
  intros H. unfold disconnect_all.
  apply registry_consistent_stop_main in H.
  change (registry_consistent (_stop_main_heartbeat cm, @nil WsEvent).1) in H. revert H.
  generalize (_stop_main_heartbeat cm, @nil WsEvent).
  induction order as [|u order IH]; intros [c evs] Hacc; simpl in *; [done|].
  apply IH. destruct (active_connections c !! u); [|done].
  destruct (close u); simpl; [by apply registry_consistent_cleanup|done..].
Qed.

Lemma registry_consistent_cleanup_all l cm :
  registry_consistent cm →
  registry_consistent (foldl (λ acc user_id, _cleanup_user_connection user_id acc) cm l).
Proof.
  revert cm. induction l as [|u l IH]; intros cm H; simpl; [done|].
  by apply IH, registry_consistent_cleanup.
Qed.

Lemma registry_consistent_broadcast order message exclude_user send cm :
  registry_consistent cm →
  registry_consistent (broadcast order message exclude_user send cm).1.
Proof.
  intros H. unfold broadcast. case_bool_decide; simpl; [done|].
  by apply registry_consistent_cleanup_all.
Qed.

Lemma registry_consistent_exec op cm :
  registry_consistent cm → registry_consistent (cm_exec op cm).
Proof.
  intros H. destruct op; simpl.
  - by apply registry_consistent_connect.
  - by apply registry_consistent_disconnect.
  - by apply registry_consistent_disconnect_all.
  - by apply registry_consistent_send.
  - by apply registry_consistent_broadcast.
  - by apply registry_consistent_update.
  - by apply registry_consistent_ping.
  - by apply registry_consistent_check.
Qed.

Lemma registry_consistent_exec_all ops cm :
  registry_consistent cm → registry_consistent (cm_exec_all ops cm).
Proof.
  unfold cm_exec_all. revert cm. induction ops as [|op ops IH]; intros cm H; simpl; [done|].
  by apply IH, registry_consistent_exec.
Qed.


Lemma disconnect_all_fold l close acc u :
  let step := λ (acc : ConnectionManager * list WsEvent) user_id,
                match active_connections acc.1 !! user_id with
                | Some websocket =>
                    match close user_id with
                    | IoOk => (_cleanup_user_connection user_id acc.1,
                               acc.2 ++ [WsClosed websocket 1000 ""])
                    | _ => acc
                    end
                | None => acc
                end in
  let gone := bool_decide (u ∈ l) && returned (close u)
              && bool_decide (is_Some (active_connections acc.1 !! u)) in
  _heartbeat_running (foldl step acc l).1 = _heartbeat_running acc.1 ∧
  active_connections (foldl step acc l).1 !! u
  = (if gone then None else active_connections acc.1 !! u) ∧
  user_heartbeats (foldl step acc l).1 !! u
  = (if gone then None else user_heartbeats acc.1 !! u) ∧
  heartbeat_tasks (foldl step acc l).1 !! u
  = (if gone then None else heartbeat_tasks acc.1 !! u).
Proof.
  intros step. revert acc. induction l as [|x l IH]; intros [c evs]; simpl; [done|].
  specialize (IH (step (c, evs) x)). simpl in IH. destruct IH as (H0 & H1 & H2 & H3).
  rewrite H0, H1, H2, H3. clear H0 H1 H2 H3.
  destruct (decide (x = u)) as [->|Hne].
  - rewrite (bool_decide_eq_true_2 (u ∈ u :: l)) by by left.
    unfold step; simpl. destruct (active_connections c !! u) as [ws|] eqn:E; simpl.
    + destruct (close u) eqn:Ec; simpl; rewrite ?E, ?Ec; simpl;
        rewrite ?andb_false_r, ?lookup_delete_eq; simpl; try done.
      by destruct (bool_decide (u ∈ l)).
    + rewrite E. rewrite (bool_decide_eq_false_2 (is_Some None)) by (by intros [? ?]).
      by rewrite !andb_false_r.
  - assert (bool_decide (u ∈ x :: l) = bool_decide (u ∈ l)) as ->.
    { apply bool_decide_ext. split; [|by right].
      intros [?|?]%elem_of_cons; [by subst|done]. }
    unfold step; simpl. destruct (active_connections c !! x) as [ws|]; simpl; [|done].
    destruct (close x); simpl; rewrite ?lookup_delete_ne by done; done.
Qed.

Lemma find_user_unique order websocket user_id connections :
  connections !! user_id = Some websocket →
  (∀ u, connections !! u = Some websocket → u = user_id) →
  user_id ∈ order →
  find_user order websocket connections = Some user_id.
Proof.
  intros Hl Huniq. induction order as [|x order IH]; intros Hin; simpl.
  - by apply elem_of_nil in Hin.
  - case_bool_decide as Hx; [f_equal; by apply Huniq|].
    apply IH. apply elem_of_cons in Hin as [->|?]; [done|done].
Qed.

Lemma find_user_none order websocket connections :
  (∀ u, connections !! u ≠ Some websocket) →
  find_user order websocket connections = None.
Proof.
  intros H. induction order as [|x order IH]; simpl; [done|].
  case_bool_decide as Hx; [by destruct (H x)|done].
Qed.




(** ** Subscriptions that last *)

Lemma served_frame topic cb b b' :
  (is_Some (topics b !! topic) → is_Some (topics b' !! topic)) →
  subscribers b' !! topic = subscribers b !! topic →
  served topic cb b → served topic cb b'.
Proof.
  intros Ht Hs [H1 H2]. split; [auto|]. unfold subscriber_list in *. by rewrite Hs.
Qed.

Lemma served_ensure_exists topic cb t b :
  served topic cb b → served topic cb (_ensure_topic_exists t b).
Proof.
  intros [H1 H2]. unfold _ensure_topic_exists.
  destruct (topics b !! t) eqn:E; [done|].
  assert (t ≠ topic) as Hne by (intros ->; rewrite E in H1; by destruct H1).
  split; simpl.
  - by rewrite lookup_insert_ne.
  - unfold subscriber_list in *; simpl. by rewrite lookup_insert_ne.
Qed.

Lemma served_start topic cb b : served topic cb b → served topic cb (start b).
Proof.
  intros H. unfold start. destruct (_running b); [done|].
  assert (served topic cb (with_running true b)) as H' by done. revert H'.
  generalize (with_running true b). induction InternalMessageType as [|x l IH]; intros b0 H0;
    simpl; [done|].
  by apply IH, served_ensure_exists.
Qed.

Lemma served_replace_queue topic cb t q b :
  is_Some (topics b !! t) →
  served topic cb b → served topic cb (with_topics (<[t := q]> (topics b)) b).
Proof.
  intros Ht. apply served_frame; [|done]. simpl. intros H.
  rewrite lookup_insert. by case_decide.
Qed.

Lemma served_ensure_processing topic cb t w :
  served topic cb (broker w) → served topic cb (broker (_ensure_topic_processing t w)).
Proof.
  apply served_frame;
    [by rewrite ensure_processing_topics|by rewrite ensure_processing_subscribers].
Qed.

Lemma served_publish topic cb t message t1 t2 oid w :
  served topic cb (broker w) → served topic cb (broker (publish t message t1 t2 oid w).2).
Proof.
  intros H. destruct (publish_cases t message t1 t2 oid w) as [Hr|Hr Hrej|q Hr Hany Hq Hf];
    simpl.
  - done.
  - by apply served_ensure_exists.
  - apply served_ensure_processing. simpl.
    apply (served_frame topic cb (with_topics (<[t := mkQueue (q_items q ++ [enrich t message t1 t2 oid]) (maxsize q)]> (topics (_ensure_topic_exists t (broker w)))) (_ensure_topic_exists t (broker w)))); [done|done|].
    apply served_replace_queue; [by eexists|by apply served_ensure_exists].
Qed.

Lemma served_subscribe topic cb t c w :
  served topic cb (broker w) → served topic cb (broker (subscribe t c w).2).
Proof.
  intros [H1 H2]. split; [by rewrite subscribe_topics|].
  unfold subscribe, subscriber_list in *.
  destruct (_running (broker w)); simpl; [|done].
  destruct (subscribers (broker w) !! t) as [l|] eqn:E; simpl.
  - rewrite E; simpl. destruct (inb c l); simpl; [done|].
    rewrite lookup_insert. case_decide as Hd; [|done]. subst. rewrite E in H2; simpl in *.
    apply elem_of_app. by left.
  - assert (t ≠ topic) as Hne.
    { intros ->. rewrite E in H2. by apply elem_of_nil in H2. }
    rewrite lookup_insert_eq; cbn [from_option id].
    destruct (inb c []); simpl; by rewrite !lookup_insert_ne.
Qed.

Lemma elem_of_remove_first_ne `{EqDecision A} (x y : A) (l : list A) :
  y ≠ x → y ∈ l → y ∈ remove_first x l.
Proof.
  intros Hne. induction l as [|z l IH]; simpl; [done|].
  intros [->|Hin]%elem_of_cons.
  - case_decide as Hd; [by subst|by left].
  - case_decide as Hd; [done|right; auto].
Qed.

Lemma served_unsubscribe topic cb t c b :
  ¬ (t = topic ∧ c = cb) →
  served topic cb b → served topic cb (unsubscribe t c b).2.
Proof.
  intros Hne [H1 H2]. split; [by rewrite unsubscribe_topics|].
  unfold unsubscribe, subscriber_list in *.
  destruct (subscribers b !! t) as [l|] eqn:E; [|done].
  destruct (inb c l); [|done]. simpl.
  rewrite lookup_insert. case_decide as Hd; [|done]. subst. rewrite E in H2. simpl in *.
  apply elem_of_remove_first_ne; [|done]. intros ->. by apply Hne.
Qed.

Lemma served_run_ready topic cb w :
  served topic cb (broker w) → served topic cb (broker (run_ready w)).
Proof.
  intros H. unfold run_ready. destruct (ready w) as [|[t|t] rest]; [done|..].
  - by apply served_ensure_exists.
  - by apply (served_ensure_processing topic cb t (mkWorld (broker w) _ _ rest)).
Qed.

Lemma served_proc_step topic cb tid o w :
  served topic cb (broker w) → served topic cb (broker (_process_topic_messages tid o w).1).
Proof.
  intros H. unfold _process_topic_messages.
  destruct (tasks w !! tid) as [[t st]|]; [|done].
  destruct st as [| | |m [|c pend] res|]; simpl; try done.
  - by destruct (topics (broker w) !! t).
  - destruct (_running (broker w)); simpl; [|done]. by destruct (truthy _).
  - destruct (topics (broker w) !! t ≫= get) as [[m q']|] eqn:E; simpl.
    + apply bind_get_Some in E as (q & Hq & Hg).
      destruct (default [] _); simpl; (apply served_replace_queue; [by eexists|done]).
    + by destruct (truthy _).
Qed.

Lemma served_consume_close topic cb t ct b :
  served topic cb b → served topic cb (consume_close t ct b).
Proof.
  apply served_frame; [by rewrite consume_close_topics|by rewrite consume_close_subscribers].
Qed.

Lemma served_consume_open topic cb t ct b :
  served topic cb b → served topic cb (consume_open t ct b).2.
Proof.
  intros H. unfold consume_open. destruct (_running b); simpl; [|done].
  apply (served_frame topic cb (_ensure_topic_exists t b)); [done|done|].
  by apply served_ensure_exists.
Qed.

Lemma served_take topic cb t q m q' b :
  topics b !! t = Some q → get q = Some (m, q') →
  served topic cb b →
  served topic cb (with_stats inc_consumed (with_topics (<[t := q']> (topics b)) b)).
Proof.
  intros Hq Hg H.
  apply (served_frame topic cb (with_topics (<[t := q']> (topics b)) b)); [done|done|].
  apply served_replace_queue; [by eexists|done].
Qed.

Lemma served_consume_next topic cb tg t ct b :
  served topic cb b → served topic cb (consume_next tg t ct b).2.
Proof.
  intros H. destruct (consume_next_cases tg t ct b) as [(m & q & q' & -> & Hq & Hg)|[_ Ht]].
  - simpl. by eapply served_take.
  - apply (served_frame topic cb b); [by rewrite Ht|by rewrite consume_next_subscribers|done].
Qed.

Lemma served_consume_one_wait topic cb t during w :
  served topic cb (broker w) → served topic cb (broker (consume_one_wait t during w).2).
Proof.
  revert w. induction during as [|c rest IH]; intros w H; simpl.
  - destruct (topics (broker w) !! t ≫= get) as [[m q']|] eqn:E; simpl; [|done].
    apply bind_get_Some in E as (q & Hq & Hg). by eapply served_take.
  - destruct (topics (broker w) !! t ≫= get) as [[m q']|] eqn:E; simpl.
    + apply bind_get_Some in E as (q & Hq & Hg). by eapply served_take.
    + pose proof (served_publish topic cb (pc_topic c) (pc_message c) (pc_t1 c) (pc_t2 c)
                    (pc_oid c) w H) as Hp.
      unfold do_publish. destruct (publish _ _ _ _ _ w) as [r w1]; simpl in *.
      specialize (IH w1 Hp). by destruct (consume_one_wait t rest w1) as [[res rs] w2].
Qed.

Lemma served_exec topic cb op w :
  ends_subscription topic cb op = false →
  served topic cb (broker w) → served topic cb (broker (exec op w).1).
Proof.
  intros Hop H. destruct op; simpl in *; try done.
  - by apply served_start.
  - pose proof (served_publish topic cb (pc_topic c) (pc_message c) (pc_t1 c) (pc_t2 c)
                  (pc_oid c) w H) as Hp.
    unfold do_publish. by destruct (publish _ _ _ _ _ w).
  - by apply served_subscribe.
  - apply served_unsubscribe; [|done]. by apply bool_decide_eq_false in Hop.
  - by apply served_run_ready.
  - by apply served_proc_step.
  - by apply served_consume_open.
  - pose proof (served_consume_next topic cb timeout_given topic0 consumer_task (broker w) H)
      as Hn.
    by destruct (consume_next _ _ _ _) as [[m| |] b'].
  - by apply served_consume_close.
  - unfold consume_one. destruct (_running (broker w)); simpl; [|done].
    pose proof (served_consume_one_wait topic cb topic0 during
                  (set_broker (_ensure_topic_exists topic0) w)) as Hw.
    destruct (consume_one_wait _ _ _) as [[res rs] w']. simpl in *.
    apply Hw. by apply served_ensure_exists.
Qed.

Lemma served_exec_all topic cb ops w :
  Forall (λ op, ends_subscription topic cb op = false) ops →
  served topic cb (broker w) → served topic cb (broker (exec_all ops w).1).
Proof.
  intros Hops. revert w. induction Hops as [|op rest Hop _ IH]; intros w H; simpl; [done|].
  pose proof (served_exec topic cb op w Hop H) as H1.
  destruct (exec op w) as [w1 e1]. simpl in *. specialize (IH w1 H1).
  by destruct (exec_all rest w1).
Qed.

Lemma truthy_length {A} (o : option (list A)) :
  truthy o = bool_decide (0 < length (default [] o)).
Proof.
  destruct o as [[|x l]|]; simpl; try done.
Qed.
(** ** The tasks in [message_handlers] *)




Lemma handler_inv_ready w l :
  handler_inv w → handler_inv (mkWorld (broker w) (tasks w) (next_task w) l).
Proof. intros H. exact H. Qed.

















(** ** The dispatch task running alone *)





(** ** Publishing *)

(** C1: for a topic with no registered subscriber and no active consumer,
    [publish] returns [False] and enqueues nothing: the content and the
    length of the topic's queue are what they were (0 if it was 0). *)
Theorem publish_without_receivers_fails topic message t1 t2 oid w :
  subscriber_list (broker w) topic = [] →
  consumer_list (broker w) topic = [] →
  (publish topic message t1 t2 oid w).1 = false ∧
  queue_items (publish topic message t1 t2 oid w).2 topic = queue_items w topic ∧
  queue_length (publish topic message t1 t2 oid w).2 topic = queue_length w topic.
Proof.
  intros Hs Hc. unfold queue_length.
  destruct (publish_no_receivers topic message t1 t2 oid w Hs Hc) as [H1 H2].
  by rewrite H2.
Qed.

Lemma publish_without_receivers_fails_witness :
  (publish "t1" hello clock0 clock0 7%N started_world).1 = false ∧
  queue_length (publish "t1" hello clock0 clock0 7%N started_world).2 "t1" = 0.
Proof.
  destruct (publish_without_receivers_fails "t1" hello clock0 clock0 7%N started_world)
    as (H1 & _ & H3); [reflexivity|reflexivity|].
  split; [exact H1|rewrite H3; reflexivity].
Defined.

(** C5: capacity and availability failures are return values.  [publish]
    returns [False] and changes nothing when the broker is not running;
    returns [False] and leaves every queue as it is when the topic's queue is
    full; returns [False] when there is neither subscriber nor consumer;
    [send_personal_message] to an id that is not registered returns [False],
    sends nothing and changes nothing.  No exception leaves either function:
    [QueueFull] is the [Raise] that [publish] turns into [False]. *)
Theorem failures_are_return_values :
  (∀ topic message t1 t2 oid w,
     _running (broker w) = false →
     publish topic message t1 t2 oid w = (false, w)) ∧
  (∀ topic message t1 t2 oid w q,
     _running (broker w) = true →
     topics (broker w) !! topic = Some q →
     full q = true →
     publish topic message t1 t2 oid w = (false, w)) ∧
  (∀ topic message t1 t2 oid w,
     subscriber_list (broker w) topic = [] →
     consumer_list (broker w) topic = [] →
     (publish topic message t1 t2 oid w).1 = false) ∧
  (∀ message user_id o cm,
     active_connections cm !! user_id = None →
     send_personal_message message user_id o cm = (false, cm, [])).
Proof.
  repeat split.
  - intros * Hr. unfold publish. by rewrite Hr.
  - intros * Hr Hq Hfull. unfold publish. rewrite Hr; simpl.
    assert (set_broker (_ensure_topic_exists topic) w = w) as ->.
    { unfold set_broker, _ensure_topic_exists. rewrite Hq. by destruct w. }
    assert (_ensure_topic_exists topic (broker w) = broker w) as ->.
    { unfold _ensure_topic_exists. by rewrite Hq. }
    rewrite Hq. unfold put_nowait. rewrite Hfull. by destruct (negb _ && negb _).
  - intros * Hs Hc. by apply publish_no_receivers.
  - intros * Hn. unfold send_personal_message. by rewrite Hn.
Qed.

Lemma failures_are_return_values_witness :
  publish "t1" hello clock0 clock0 7%N (new_world 1000) = (false, new_world 1000) ∧
  publish response_topic hello clock0 clock0 7%N full_queue_world = (false, full_queue_world) ∧
  (publish "t1" hello clock0 clock0 7%N started_world).1 = false ∧
  send_personal_message "hi" "user-2" IoOk one_connection = (false, one_connection, []).
Proof.
  destruct failures_are_return_values as (H1 & H2 & H3 & H4).
  split; [|split; [|split]].
  - apply H1. reflexivity.
  - eapply H2; vm_compute; reflexivity.
  - apply H3; reflexivity.
  - apply H4. reflexivity.
Defined.

(** C10: [consume_one] does not record itself among the consumers of a
    topic (no task appears in any consumer list that was not there before);
    so on a running broker, for a topic with no subscriber, no [consume]
    generator and an empty queue, every [publish] to the topic made while the
    call waits returns [False] and enqueues nothing, all of these calls run
    before the timeout, and the call returns [None]. *)
Theorem consume_one_is_not_a_consumer topic during w :
  (∀ t ct, ct ∈ consumer_list (broker (consume_one topic during w).2) t →
           ct ∈ consumer_list (broker w) t) ∧
  (_running (broker w) = true →
   subscriber_list (broker w) topic = [] →
   consumer_list (broker w) topic = [] →
   queue_items w topic = [] →
   (consume_one topic during w).1.1 = None ∧
   length (consume_one topic during w).1.2 = length during ∧
   (∀ i c, during !! i = Some c → pc_topic c = topic →
           (consume_one topic during w).1.2 !! i = Some false) ∧
   consumer_list (broker (consume_one topic during w).2) topic = [] ∧
   queue_items (consume_one topic during w).2 topic = []).
Proof.
  split.
  - intros t ct. unfold consume_one. destruct (_running (broker w)); simpl; [|done].
    intros H. apply consume_one_wait_consumers_incl in H. simpl in H.
    by apply ensure_exists_consumers_incl in H.
  - intros Hr Hs Hc Hq. unfold consume_one. rewrite Hr; simpl.
    assert (idle_topic topic (set_broker (_ensure_topic_exists topic) w)) as Hidle.
    { split; [|split]; simpl.
      - by apply ensure_exists_subscriber_list.
      - by apply ensure_exists_consumer_list.
      - by rewrite ensure_exists_queue_items. }
    destruct (consume_one_wait_idle topic during _ Hidle) as (H1 & H2 & H3 & H4).
    repeat split; auto; apply H4.
Qed.

Lemma consume_one_is_not_a_consumer_witness :
  (consume_one "empty-topic" [hello_call "empty-topic"; hello_call "empty-topic"]
     started_world).1 = (None, [false; false]) ∧
  queue_items (consume_one "empty-topic" [hello_call "empty-topic"; hello_call "empty-topic"]
                 started_world).2 "empty-topic" = [].
Proof.
  destruct (proj2 (consume_one_is_not_a_consumer "empty-topic"
                     [hello_call "empty-topic"; hello_call "empty-topic"] started_world))
    as (H1 & H2 & H3 & _ & H5); [reflexivity..|].
  split; [|exact H5].
  destruct (consume_one _ _ _) as [[res rs] w']. simpl in *. subst res.
  destruct rs as [|r1 [|r2 [|r3 rs]]]; simpl in H2; try discriminate.
  pose proof (H3 0 _ eq_refl eq_refl) as Ha. pose proof (H3 1 _ eq_refl eq_refl) as Hb.
  simpl in Ha, Hb. by simplify_eq.
Defined.

(** ** Subscribing *)

(** Where a repeated call is refused: a second [subscribe] that follows the
    first one at once returns [False] and leaves the subscriber lists as
    they are, so does [subscribe] of any callback that is in the topic's
    list at the time of the call; [subscribe] keeps every list free of
    duplicates; [unsubscribe] of a callback that is not in the topic's list
    returns [False] and changes nothing. *)
Lemma subscribe_unsubscribe_idempotent :
  (∀ topic cb w,
     (subscribe topic cb (subscribe topic cb w).2).1 = false ∧
     subscribers (broker (subscribe topic cb (subscribe topic cb w).2).2)
     = subscribers (broker (subscribe topic cb w).2)) ∧
  (∀ topic cb w,
     cb ∈ subscriber_list (broker w) topic →
     (subscribe topic cb w).1 = false ∧
     subscribers (broker (subscribe topic cb w).2) = subscribers (broker w)) ∧
  (∀ topic cb w,
     map_Forall (λ _ l, NoDup l) (subscribers (broker w)) →
     map_Forall (λ _ l, NoDup l) (subscribers (broker (subscribe topic cb w).2))) ∧
  (∀ topic cb b,
     cb ∉ subscriber_list b topic →
     unsubscribe topic cb b = (false, b)).
Proof.
  assert (∀ topic cb w,
     cb ∈ subscriber_list (broker w) topic →
     (subscribe topic cb w).1 = false ∧
     subscribers (broker (subscribe topic cb w).2) = subscribers (broker w)) as Hreg.
  { intros topic cb w Hin. destruct (_running (broker w)) eqn:Hr.
    - by rewrite subscribe_registered.
    - unfold subscribe. by rewrite Hr. }
  split; [|split; [done|split]].
  - intros topic cb w. destruct (_running (broker w)) eqn:Hr.
    + apply Hreg. by apply subscribe_registers.
    + unfold subscribe at 2 4 5. rewrite Hr; simpl. unfold subscribe. by rewrite Hr.
  - intros topic cb w Hnd t l. apply subscribe_NoDup. exact Hnd.
  - intros topic cb b Hn. unfold unsubscribe, subscriber_list in *.
    destruct (subscribers b !! topic) as [l|]; simpl in *; [|done].
    apply inb_false in Hn. by rewrite Hn.
Qed.

Lemma subscribe_unsubscribe_idempotent_witness :
  (subscribe response_topic 0 two_subscribers).1 = false ∧
  subscribers (broker (subscribe response_topic 0 two_subscribers).2)
  = subscribers (broker two_subscribers) ∧
  map_Forall (λ _ l, NoDup l)
             (subscribers (broker (subscribe response_topic 2 two_subscribers).2)) ∧
  unsubscribe response_topic 5 (broker two_subscribers) = (false, broker two_subscribers).
Proof.
  destruct subscribe_unsubscribe_idempotent as (_ & H2 & H3 & H4).
  destruct (H2 response_topic 0 two_subscribers) as [Ha Hb].
  { apply (bool_decide_unpack _). vm_compute. reflexivity. }
  split; [exact Ha|]. split; [exact Hb|]. split.
  - apply (H3 response_topic 2 two_subscribers).
    apply (bool_decide_unpack _). vm_compute. reflexivity.
  - apply H4. apply (bool_decide_unpack _). vm_compute. reflexivity.
Defined.

(** C8, as the code behaves: [subscribe] looks for the callback in the list
    that [self.subscribers] holds for the topic when it is called, and that
    list does not always last.  On a running broker, for a topic that does
    not exist yet, the first [subscribe] returns True and registers the
    callback; the [_ensure_topic_exists] it scheduled then creates the topic
    and puts an empty list in place of the one with the callback; a second
    [subscribe] of the same callback finds the list empty and returns True
    as well.  So it is with the topic ["orders"] on a broker that has just
    been started, where only a second call that comes before the scheduled
    task has run is refused. *)
Theorem second_subscribe_to_a_new_topic_succeeds :
  (∀ topic cb w,
     _running (broker w) = true →
     topics (broker w) !! topic = None →
     ready w = [] →
     cb ∉ subscriber_list (broker w) topic →
     (subscribe topic cb w).1 = true ∧
     subscriber_list (broker (subscribe topic cb w).2) topic
     = subscriber_list (broker w) topic ++ [cb] ∧
     subscriber_list (broker (run_ready (subscribe topic cb w).2)) topic = [] ∧
     (subscribe topic cb (run_ready (subscribe topic cb w).2)).1 = true) ∧
  (_running (broker started_world) = true ∧
   topics (broker started_world) !! "orders" = None ∧
   (subscribe "orders" 0 started_world).1 = true ∧
   (subscribe "orders" 0 (subscribe "orders" 0 started_world).2).1 = false ∧
   (subscribe "orders" 0 (run_ready (subscribe "orders" 0 started_world).2)).1 = true ∧
   subscriber_list
     (broker (subscribe "orders" 0 (run_ready (subscribe "orders" 0 started_world).2)).2)
     "orders" = [0]).
Proof.
  split.
  - intros topic cb w Hr Hq Hready Hin.
    pose proof (subscribe_fresh topic cb w Hr Hin) as Hs.
    destruct (subscribe_ready topic cb w Hr) as [rest Hrest]. rewrite Hready in Hrest.
    pose proof (run_ready_broker_exists topic rest _ Hrest) as Hb.
    destruct (ensure_exists_wipes topic (broker (subscribe topic cb w).2)) as [Hw _];
      [by rewrite subscribe_topics|].
    split; [by rewrite Hs|]. split.
    { rewrite Hs. unfold subscriber_list; simpl. by rewrite lookup_insert_eq. }
    split; [by rewrite Hb|].
    rewrite subscribe_fresh; [done| |].
    + by rewrite Hb, ensure_exists_running, subscribe_running.
    + rewrite Hb, Hw. apply not_elem_of_nil.
  - vm_compute. repeat split; reflexivity.
Qed.

Lemma second_subscribe_to_a_new_topic_succeeds_witness :
  (subscribe "orders" 0 started_world).1 = true ∧
  (subscribe "orders" 0 (run_ready (subscribe "orders" 0 started_world).2)).1 = true.
Proof.
  destruct second_subscribe_to_a_new_topic_succeeds as [H _].
  destruct (H "orders" 0 started_world) as (H1 & _ & _ & H4).
  - reflexivity.
  - vm_compute. reflexivity.
  - reflexivity.
  - vm_compute. apply not_elem_of_nil.
  - split; [exact H1|exact H4].
Defined.

(** ** Stopping and removing *)

(** C7: a second [stop()] changes nothing, [stop()] on a broker that was
    never started (or is not running) changes nothing, and a second
    [_cleanup_user_connection] for the same id changes nothing: the whole
    state, tasks included, is what the first call left.  None of the three
    can raise. *)
Theorem second_stop_and_second_removal_change_nothing :
  (∀ w, stop (stop w) = stop w) ∧
  (∀ max_queue_size, stop (new_world max_queue_size) = new_world max_queue_size) ∧
  (∀ w, stop (set_broker (with_running false) w) = set_broker (with_running false) w) ∧
  (∀ user_id cm,
     _cleanup_user_connection user_id (_cleanup_user_connection user_id cm)
     = _cleanup_user_connection user_id cm).
Proof.
  split; [|split; [|split]].
  - intros w. apply stop_not_running, stop_running.
  - intros n. by apply stop_not_running.
  - intros w. by apply stop_not_running.
  - apply cleanup_twice.
Qed.

(** ** Counters *)

(** C9: no operation of the broker, [stop()] included, and no sequence of
    operations lowers any of the five counters of [message_stats]; [stop()]
    leaves all of them as they are. *)
Theorem counters_never_decrease :
  (∀ op w, stats_le (message_stats (broker w)) (message_stats (broker (exec op w).1))) ∧
  (∀ w, message_stats (broker (stop w)) = message_stats (broker w)) ∧
  (∀ ops w, stats_le (message_stats (broker w)) (message_stats (broker (exec_all ops w).1))).
Proof.
  split; [apply exec_stats|]. split; [apply stop_stats|apply exec_all_stats].
Qed.

(** ** Subscriber failures *)

(** C3, as the code behaves: [_call_subscriber] turns an exception of the
    callback into the return value [False], and the tally of
    [_process_message] counts every result that is not an exception object
    as processed.  So whatever the callbacks do, [total_processed] grows by
    the number of subscribers and [total_failed] by 0.  In the run below the
    first of two subscribers raises: the other one is still called with the
    message, both are counted as processed and none as failed. *)
Theorem raising_subscriber_is_counted_as_processed :
  (∀ subscribers outcome b,
     total_processed (message_stats (_process_message subscribers outcome b))
     = total_processed (message_stats b) + length subscribers ∧
     total_failed (message_stats (_process_message subscribers outcome b))
     = total_failed (message_stats b)) ∧
  (let m := enrich response_topic hello clock0 clock0 140231%N in
   (exec_all dispatch_with_raising_subscriber two_subscribers).2
   = [EvPublished response_topic m; EvDequeued response_topic m;
      EvInvoked response_topic 0 m; EvInvoked response_topic 1 m] ∧
   tasks (exec_all dispatch_with_raising_subscriber two_subscribers).1 !! 0
   = Some (mkTask response_topic PLoopTop) ∧
   total_processed (message_stats (broker two_subscribers)) = 0 ∧
   total_failed (message_stats (broker two_subscribers)) = 0 ∧
   total_processed
     (message_stats (broker (exec_all dispatch_with_raising_subscriber two_subscribers).1)) = 2 ∧
   total_failed
     (message_stats (broker (exec_all dispatch_with_raising_subscriber two_subscribers).1)) = 0).
Proof.
  split.
  - intros subscribers outcome b. unfold _process_message.
    destruct subscribers as [|c l]; [simpl; lia|].
    generalize (c :: l) as subs. intros subs. unfold tally; simpl.
    rewrite (list_fmap_compose outcome _call_subscriber).
    rewrite successful_call_results, !length_fmap. lia.
  - vm_compute. repeat split; reflexivity.
Qed.

(** ** Heartbeat *)

(** C4, where the claim fails: the connection of [one_connection] answers
    at time 25, so at time 30 it is well within interval + grace (40s) of its
    last update.  The ping sent at time 30 raises an error, and the
    supervisor evicts the connection all the same. *)
Lemma fresh_connection_evicted_on_ping_error :
  heartbeat_expired "user-1" 30 (update_user_heartbeat "user-1" 25 one_connection) = false ∧
  active_connections
    (_user_heartbeat_loop_ping 1 "user-1" 30 IoError IoOk IoOk
       (update_user_heartbeat "user-1" 25 one_connection)).1.2 !! "user-1"
  = None.
Proof. vm_compute. split; reflexivity. Qed.

(** C4, amended: at the check after the sleep a connection counts as
    expired exactly when the code's test holds, the float difference
    [now - last_heartbeat] being greater than the float sum
    [interval + ping_timeout].  An expired registered connection gets the
    close notification if sending it works, the transport is closed with
    code 1011 and, when the close returns, the connection, its timestamp and
    its task are removed from the manager and the loop ends.  A connection
    that is not expired is left as it is by the check, and the loop goes on.
    Apart from the check, a ping that raises an error other than a
    disconnect leads to the same forced disconnect, however recent the
    heartbeat is: notification, close with code 1011 and, when the close
    returns, removal. *)
Theorem heartbeat_check_evicts_expired_connections :
  (∀ user_id now cm,
     heartbeat_expired user_id now cm
     = PrimFloat.ltb (PrimFloat.add (heartbeat_interval cm) (ping_timeout cm))
                     (PrimFloat.sub now (default 0%float (user_heartbeats cm !! user_id)))) ∧
  (∀ task user_id now send cm ws,
     heartbeat_expired user_id now cm = true →
     active_connections cm !! user_id = Some ws →
     ∃ cm',
       _user_heartbeat_loop_check task user_id now send IoOk cm
       = (Break, cm',
          match send with
          | IoOk => [WsSent ws (Disconnect "heartbeat_timeout" now)]
          | _ => []
          end ++ [WsClosed ws 1011 "heartbeat_timeout"]) ∧
       active_connections cm' !! user_id = None ∧
       user_heartbeats cm' !! user_id = None ∧
       heartbeat_tasks cm' !! user_id = None) ∧
  (∀ task user_id now send close cm,
     heartbeat_expired user_id now cm = false →
     _user_heartbeat_loop_check task user_id now send close cm = (Continue, cm, [])) ∧
  (∀ task user_id now send cm ws,
     _heartbeat_running cm = true →
     active_connections cm !! user_id = Some ws →
     ∃ cm',
       _user_heartbeat_loop_ping task user_id now IoError send IoOk cm
       = (Break, cm',
          match send with
          | IoOk => [WsSent ws (Disconnect "heartbeat_error" now)]
          | _ => []
          end ++ [WsClosed ws 1011 "heartbeat_error"]) ∧
       active_connections cm' !! user_id = None ∧
       user_heartbeats cm' !! user_id = None ∧
       heartbeat_tasks cm' !! user_id = None).
Proof.
  split; [done|]. split; [|split].
  - intros task user_id now send cm ws He Hc.
    unfold _user_heartbeat_loop_check, _force_disconnect_user. rewrite He, Hc.
    eexists. split; [reflexivity|]. simpl. by rewrite !lookup_delete_eq.
  - intros. by apply heartbeat_check_fresh.
  - intros task user_id now send cm ws Hr Hc.
    unfold _user_heartbeat_loop_ping, _force_disconnect_user. rewrite Hc, Hr; simpl.
    eexists. split; [reflexivity|]. simpl. by rewrite !lookup_delete_eq.
Qed.

Lemma heartbeat_check_evicts_expired_connections_witness :
  active_connections
    (_user_heartbeat_loop_check 1 "user-1" 100 IoOk IoOk one_connection).1.2 !! "user-1"
  = None ∧
  _user_heartbeat_loop_check 1 "user-1" 30 IoOk IoOk one_connection
  = (Continue, one_connection, []) ∧
  active_connections
    (_user_heartbeat_loop_ping 1 "user-1" 30 IoError IoOk IoOk one_connection).1.2
    !! "user-1"
  = None.
Proof.
  destruct heartbeat_check_evicts_expired_connections as (_ & H2 & H3 & H4).
  split; [|split].
  - destruct (H2 1 "user-1" 100%float IoOk one_connection 7) as (cm' & Heq & Ha & _).
    + reflexivity.
    + reflexivity.
    + rewrite Heq. exact Ha.
  - apply H3. reflexivity.
  - destruct (H4 1 "user-1" 30%float IoOk one_connection 7) as (cm' & Heq & Ha & _).
    + reflexivity.
    + reflexivity.
    + rewrite Heq. exact Ha.
Defined.

(** What the amended claim leaves open: the connection of [one_connection]
    was last heard of at time 0; at the check at time 100 it is expired.  The
    notification is sent, [websocket.close] raises, and the loop ends with
    the connection still in [active_connections], because the exception
    skips the clean-up of [_force_disconnect_user].  ([send_personal_message]
    cleans up in its handler.) *)
Example stale_connection_survives_failed_close :
  heartbeat_expired "user-1" 100 one_connection = true ∧
  (_user_heartbeat_loop_check 1 "user-1" 100 IoOk IoError one_connection).1
  = (Break, finish 1 one_connection) ∧
  (_user_heartbeat_loop_check 1 "user-1" 100 IoOk IoError one_connection).2
  = [WsSent 7 (Disconnect "heartbeat_timeout" 100)] ∧
  active_connections
    (_user_heartbeat_loop_check 1 "user-1" 100 IoOk IoError one_connection).1.2
    !! "user-1"
  = Some 7.
Proof. vm_compute. repeat split; reflexivity. Qed.

(** The sum [interval + ping_timeout] is a rounded float.  With an interval
    of 0.1 and a grace of 0.2 it is 0.30000000000000004, so a connection
    last heard of 0.30000000000000004 seconds ago passes the check, although
    that is more than three tenths of a second. *)
Example rounded_sum_decides_the_check :
  PrimFloat.add 0x1.999999999999ap-4 0x1.999999999999ap-3 = 0x1.3333333333334p-2%float ∧
  heartbeat_expired "user-1" 0x1.3333333333334p-2
    (connect 7 "user-1" 0 1 0 (manager_init 0x1.999999999999ap-4 0x1.999999999999ap-3))
  = false.
Proof. vm_compute. split; reflexivity. Qed.

(** ** The enriched message *)




(** ** Order of delivery *)




(** What the run above delivers: both messages to subscriber 0, in the order
    of publishing, and the first one only to subscriber 1. *)
Example fifo_run_delivers :
  invoked (exec_all fifo_run (new_world 1000)).2 response_topic 0
  = [enrich response_topic hello clock0 clock0 140231%N;
     enrich response_topic goodbye clock0 clock0 140232%N] ∧
  invoked (exec_all fifo_run (new_world 1000)).2 response_topic 1
  = [enrich response_topic hello clock0 clock0 140231%N] ∧
  published (exec_all fifo_run (new_world 1000)).2 response_topic
  = [enrich response_topic hello clock0 clock0 140231%N;
     enrich response_topic goodbye clock0 clock0 140232%N].
Proof. vm_compute. repeat split; reflexivity. Qed.

(** ** A note on topics that do not exist yet *)

(** [subscribe] registers the callback at once but only schedules
    [_ensure_topic_exists].  For a topic that does not exist yet, the
    scheduled task creates it and stores a new empty list in
    [self.subscribers]: the callback is no longer registered, and a later
    [subscribe] of it is a first registration again.  The well-known topics
    exist from [start()] on and are not affected. *)
Example scheduled_creation_resets_subscribers :
  subscriber_list (broker (exec_all [OStart; OSubscribe "t1" 0] (new_world 1000)).1) "t1" = [0] ∧
  subscriber_list
    (broker (exec_all [OStart; OSubscribe "t1" 0; ORunReady] (new_world 1000)).1) "t1" = [] ∧
  subscriber_list
    (broker (exec_all [OStart; OSubscribe response_topic 0; ORunReady] (new_world 1000)).1)
    response_topic = [0].
Proof. vm_compute. repeat split; reflexivity. Qed.

(** * More properties of the broker *)

(** ** Starting and restarting *)

(** X1: [start()] on a broker that is not running marks it running and
    makes every well-known topic exist; a topic that existed keeps its
    queue; a second [start()] changes nothing. *)
Theorem start_creates_the_well_known_topics b :
  _running b = false →
  _running (start b) = true ∧
  (∀ t, t ∈ InternalMessageType → is_Some (topics (start b) !! t)) ∧
  (∀ t q, topics b !! t = Some q → topics (start b) !! t = Some q) ∧
  start (start b) = start b.
Proof.
  intros Hr. unfold start at 1 2 3. rewrite Hr.
  destruct (ensure_all_spec InternalMessageType (with_running true b)) as (H1 & H2 & H3).
  split; [exact H3|]. split; [exact H1|]. split; [exact H2|apply start_twice].
Qed.

Lemma start_creates_the_well_known_topics_witness :
  _running (start (init 1000)) = true ∧
  is_Some (topics (start (init 1000)) !! "InternalMessageType.HEARTBEAT").
Proof.
  destruct (start_creates_the_well_known_topics (init 1000) eq_refl) as (H1 & H2 & _).
  split; [exact H1|]. apply H2. apply (bool_decide_unpack _). vm_compute. reflexivity.
Defined.

(** X2: [stop()] followed by [start()] on a running broker gives exactly the
    well-known topics, each with an empty queue of the configured capacity;
    no subscriber and no consumer is left on any topic, and the counters go
    on from where they were (only [topics_created] grows, by five). *)
Theorem restart_forgets_topics_and_subscribers w :
  _running (broker w) = true →
  _running (start (broker (stop w))) = true ∧
  (∀ t, topics (start (broker (stop w))) !! t
        = if bool_decide (t ∈ InternalMessageType)
          then Some (mkQueue [] (max_queue_size (broker w))) else None) ∧
  (∀ t, subscriber_list (start (broker (stop w))) t = [] ∧
        consumer_list (start (broker (stop w))) t = []) ∧
  message_stats (start (broker (stop w)))
  = mkStats (total_published (message_stats (broker w)))
            (total_processed (message_stats (broker w)))
            (total_failed (message_stats (broker w)))
            (topics_created (message_stats (broker w)) + 5)
            (total_consumed (message_stats (broker w))).
Proof.
  intros Hr. rewrite (stop_broker w Hr).
  set (b0 := mkBroker _ _ _ _ _ _ _ _).
  rewrite (start_not_running b0) by done.
  destruct (ensure_all_spec InternalMessageType (with_running true b0)) as (_ & _ & Hrun).
  destruct (ensure_all_fresh InternalMessageType (with_running true b0))
    as (H1 & H2 & H3 & H4 & H5 & H6 & H7 & H8).
  { apply (bool_decide_unpack _). vm_compute. reflexivity. }
  { intros t _. apply lookup_empty. }
  cbv zeta in *.
  split; [by rewrite Hrun|]. split; [|split].
  - intros t. rewrite H1. simpl. by rewrite lookup_empty.
  - intros t. unfold subscriber_list, consumer_list. rewrite H2, H3. simpl.
    rewrite !lookup_empty. by destruct (bool_decide _).
  - destruct (message_stats (foldl _ _ _)) as [p pr f tc c]. simpl in *. subst. done.
Qed.

Lemma restart_forgets_topics_and_subscribers_witness :
  subscriber_list (start (broker (stop two_subscribers))) response_topic = [] ∧
  topics_created (message_stats (start (broker (stop two_subscribers)))) = 10.
Proof.
  destruct (restart_forgets_topics_and_subscribers two_subscribers eq_refl)
    as (_ & _ & H3 & H4).
  split; [exact (proj1 (H3 response_topic))|]. rewrite H4. vm_compute. reflexivity.
Defined.

(** ** What holds in every state the broker can reach *)

(** X3: whatever is done with a broker created with capacity [n], every
    queue it holds has capacity [n], and when [n] is positive no queue ever
    holds more than [n] messages. *)
Theorem queues_never_exceed_capacity n ops topic q :
  topics (broker (exec_all ops (new_world n)).1) !! topic = Some q →
  maxsize q = n ∧ ((0 < n)%Z → (Z.of_nat (qsize q) ≤ n)%Z).
Proof.
  intros Hq. destruct (wf_capacity _ (reachable_wf n ops) topic q Hq) as [Hm Hc].
  rewrite reachable_max in Hm. split; [done|]. intros Hn. rewrite <- Hm. apply Hc. lia.
Qed.

Lemma queues_never_exceed_capacity_witness :
  queue_length (exec_all three_publishes (new_world 2)).1 response_topic = 2 ∧
  ∃ q, topics (broker (exec_all three_publishes (new_world 2)).1) !! response_topic = Some q
       ∧ maxsize q = 2%Z ∧ (Z.of_nat (qsize q) ≤ 2)%Z.
Proof.
  split; [vm_compute; reflexivity|].
  destruct (topics (broker (exec_all three_publishes (new_world 2)).1) !! response_topic)
    as [q|] eqn:E; [|vm_compute in E; discriminate].
  exists q. split; [reflexivity|].
  destruct (queues_never_exceed_capacity 2 three_publishes response_topic q E) as [Hm Hc].
  split; [exact Hm|apply Hc; lia].
Defined.

(** X4: in every state the broker can reach, a topic that has a queue also
    has a subscriber list, a handler list and a consumer list, and the
    number of topics is at most the counter [topics_created]. *)
Theorem topics_are_complete_and_counted n ops :
  size (topics (broker (exec_all ops (new_world n)).1))
  ≤ topics_created (message_stats (broker (exec_all ops (new_world n)).1)) ∧
  ∀ t, is_Some (topics (broker (exec_all ops (new_world n)).1) !! t) →
       is_Some (subscribers (broker (exec_all ops (new_world n)).1) !! t) ∧
       is_Some (message_handlers (broker (exec_all ops (new_world n)).1) !! t) ∧
       is_Some (consumers (broker (exec_all ops (new_world n)).1) !! t).
Proof.
  split.
  - apply (wf_count _ (reachable_wf n ops)).
  - apply (wf_keys _ (reachable_wf n ops)).
Qed.

Lemma topics_are_complete_and_counted_witness :
  is_Some (subscribers (broker (exec_all three_publishes (new_world 2)).1)
             !! "InternalMessageType.HEARTBEAT").
Proof.
  destruct (topics_are_complete_and_counted 2 three_publishes) as [_ H].
  destruct (H "InternalMessageType.HEARTBEAT") as [Hs _]; [|exact Hs].
  vm_compute. eexists. reflexivity.
Defined.

(** X5: in every state the broker can reach, [stop()] included, no
    subscriber list holds a callback twice. *)
Theorem subscriber_lists_have_no_duplicates n ops topic :
  NoDup (subscriber_list (broker (exec_all ops (new_world n)).1) topic).
Proof.
  unfold subscriber_list.
  destruct (subscribers _ !! topic) as [l|] eqn:E; simpl; [|constructor].
  by eapply (wf_nodup _ (reachable_wf n ops)).
Qed.

(** X6: the counter [total_published] is the number of publishes that were
    accepted: it grows by one with each message put into a queue and with
    nothing else, whatever the operations are. *)
Theorem total_published_counts_accepted_publishes ops w :
  total_published (message_stats (broker (exec_all ops w).1))
  = total_published (message_stats (broker w)) + count_published (exec_all ops w).2.
Proof. apply bstep_published, bstep_exec_all. Qed.

(** X7: as long as [stop()] is not called, the messages accepted for a
    topic are, in the order of publishing, the ones that were taken out of
    its queue followed by the ones still in it: each message is taken at
    most once, by the dispatch task, a [consume] generator or
    [consume_one], and none is skipped. *)
Theorem every_message_is_taken_once_in_order n ops topic :
  Forall (λ op, is_stop op = false) ops →
  published (exec_all ops (new_world n)).2 topic
  = dequeued (exec_all ops (new_world n)).2 topic
    ++ queue_items (exec_all ops (new_world n)).1 topic.
Proof.
  intros Hops. destruct (new_world_inv n) as [H1 H2].
  destruct (exec_all_inv ops _ [] Hops H1 H2) as [_ Htrace].
  apply (inv_fifo _ _ Htrace).
Qed.

Lemma every_message_is_taken_once_in_order_witness :
  published (exec_all fifo_run (new_world 1000)).2 response_topic
  = dequeued (exec_all fifo_run (new_world 1000)).2 response_topic
    ++ queue_items (exec_all fifo_run (new_world 1000)).1 response_topic.
Proof.
  apply (every_message_is_taken_once_in_order 1000 fifo_run).
  apply Forall_forall. intros op Hop.
  repeat (apply elem_of_cons in Hop as [->|Hop]; [reflexivity|]).
  by apply elem_of_nil in Hop.
Defined.
(** ** The life of a subscription and of a message *)

(** X8: on a running broker, subscribing a new callback to a topic that
    exists returns True; once the two tasks that [subscribe] scheduled have
    run, the callback is the last entry of the topic's subscriber list and
    the topic has a dispatch task that is not done. *)
Theorem subscription_to_an_existing_topic_is_served topic cb w :
  _running (broker w) = true →
  is_Some (topics (broker w) !! topic) →
  ready w = [] →
  cb ∉ subscriber_list (broker w) topic →
  (subscribe topic cb w).1 = true ∧
  subscriber_list (broker (run_ready (run_ready (subscribe topic cb w).2))) topic
  = subscriber_list (broker w) topic ++ [cb] ∧
  ready (run_ready (run_ready (subscribe topic cb w).2)) = [] ∧
  ∃ tid,
    tid ∈ default [] (message_handlers
                        (broker (run_ready (run_ready (subscribe topic cb w).2))) !! topic)
    ∧ done (run_ready (run_ready (subscribe topic cb w).2)) tid = false.
Proof.
  intros Hr Hq Hready Hin. rewrite (subscribe_fresh topic cb w Hr Hin), Hready.
  split; [done|]. cbn [snd app].
  rewrite run_ready_exists, ensure_exists_present by done.
  rewrite run_ready_processing.
  split; [|split].
  - unfold subscriber_list. rewrite ensure_processing_subscribers; simpl.
    by rewrite lookup_insert_eq.
  - by rewrite ensure_processing_ready.
  - apply ensure_processing_live.
Qed.

Lemma subscription_to_an_existing_topic_is_served_witness :
  subscriber_list
    (broker (run_ready (run_ready (subscribe response_topic 5 started_world).2)))
    response_topic = [5].
Proof.
  destruct (subscription_to_an_existing_topic_is_served response_topic 5 started_world)
    as (_ & H & _).
  - reflexivity.
  - vm_compute. by eexists.
  - reflexivity.
  - vm_compute. apply not_elem_of_nil.
  - exact H.
Defined.

(** X9: on a running broker, a subscription to a topic that does not exist
    yet is registered by [subscribe] but does not last: the creation of the
    topic, whether by the task that [subscribe] scheduled or by the next
    [publish], puts an empty subscriber list in place of the one that holds
    the callback, and that [publish] returns False. *)
Theorem subscription_to_a_new_topic_is_lost topic cb message t1 t2 oid w :
  _running (broker w) = true →
  topics (broker w) !! topic = None →
  ready w = [] →
  cb ∈ subscriber_list (broker (subscribe topic cb w).2) topic ∧
  subscriber_list (broker (run_ready (subscribe topic cb w).2)) topic = [] ∧
  (publish topic message t1 t2 oid (subscribe topic cb w).2).1 = false ∧
  subscriber_list (broker (publish topic message t1 t2 oid (subscribe topic cb w).2).2) topic
  = [].
Proof.
  intros Hr Hq Hready.
  assert (topics (broker (subscribe topic cb w).2) !! topic = None) as Hq'
    by (by rewrite subscribe_topics).
  assert (_running (broker (subscribe topic cb w).2) = true) as Hr'
    by (by rewrite subscribe_running).
  split; [by apply subscribe_registers|]. split.
  - destruct (subscribe_ready topic cb w Hr) as [rest Hrest]. rewrite Hready in Hrest.
    rewrite (run_ready_broker_exists topic rest) by done.
    by apply ensure_exists_wipes.
  - rewrite (publish_new_topic _ _ _ _ _ _ Hr' Hq'). split; [done|].
    by apply ensure_exists_wipes.
Qed.

Lemma subscription_to_a_new_topic_is_lost_witness :
  0 ∈ subscriber_list (broker (subscribe "orders" 0 started_world).2) "orders" ∧
  (publish "orders" hello clock0 clock0 140231%N (subscribe "orders" 0 started_world).2).1
  = false.
Proof.
  destruct (subscription_to_a_new_topic_is_lost "orders" 0 hello clock0 clock0 140231%N
              started_world) as (H1 & _ & H3 & _); [reflexivity..|].
  split; [exact H1|exact H3].
Defined.

(** X10: [publish] either puts the enriched message at the end of the
    topic's queue, adds one to [total_published], returns True and leaves
    the topic with a dispatch task that is not done, or it returns False and
    changes neither the queue nor the counter; the queues of the other
    topics are never touched. *)
Theorem publish_is_all_or_nothing topic message t1 t2 oid w :
  queue_items (publish topic message t1 t2 oid w).2 topic
  = queue_items w topic
    ++ (if (publish topic message t1 t2 oid w).1
        then [enrich topic message t1 t2 oid] else []) ∧
  (∀ t, t ≠ topic → queue_items (publish topic message t1 t2 oid w).2 t = queue_items w t) ∧
  total_published (message_stats (broker (publish topic message t1 t2 oid w).2))
  = total_published (message_stats (broker w))
    + (if (publish topic message t1 t2 oid w).1 then 1 else 0) ∧
  ((publish topic message t1 t2 oid w).1 = true →
   ∃ tid, tid ∈ default [] (message_handlers
                              (broker (publish topic message t1 t2 oid w).2) !! topic)
          ∧ done (publish topic message t1 t2 oid w).2 tid = false).
Proof.
  split; [|split; [|split]].
  - destruct (publish topic message t1 t2 oid w).1 eqn:Hres.
    + by apply publish_enqueues.
    + rewrite app_nil_r.
      destruct (publish_cases topic message t1 t2 oid w) as [Hr|Hr Hrej|q Hr Hany Hq Hf];
        [done| |done].
      apply ensure_exists_queue_items.
  - intros t Hne.
    destruct (publish_cases topic message t1 t2 oid w) as [Hr|Hr Hrej|q Hr Hany Hq Hf];
      cbn [snd]; [done|apply ensure_exists_queue_items|].
    unfold queue_items. rewrite ensure_processing_topics; simpl.
    rewrite lookup_insert_ne by done.
    apply (ensure_exists_queue_items topic t w).
  - apply bstep_published, bstep_publish.
  - destruct (publish_cases topic message t1 t2 oid w) as [Hr|Hr Hrej|q Hr Hany Hq Hf];
      cbn [fst snd]; [done..|].
    intros _. apply ensure_processing_live.
Qed.

(** ** Who is called, and with what *)

(** X11: a callback that is not subscribed to a topic and is not waiting in
    a running [gather] of that topic is never called with a message of the
    topic, whatever is done with the broker, until it is subscribed. *)
Theorem only_subscribed_callbacks_are_called topic cb ops w :
  quiet topic cb w →
  Forall (λ op, subscribes topic cb op = false) ops →
  invoked (exec_all ops w).2 topic cb = [] ∧ quiet topic cb (exec_all ops w).1.
Proof.
  intros Hq Hops. destruct (quiet_exec_all topic cb ops w Hops Hq). by split.
Qed.

Lemma only_subscribed_callbacks_are_called_witness :
  invoked (exec_all fifo_run (new_world 1000)).2 response_topic 7 = [].
Proof.
  apply (only_subscribed_callbacks_are_called response_topic 7 fifo_run (new_world 1000)).
  - split.
    + vm_compute. apply not_elem_of_nil.
    + intros tid m pend res Hl. vm_compute in Hl. discriminate.
  - apply (bool_decide_unpack _). vm_compute. reflexivity.
Defined.

(** X12: a dispatch task that waits for a message, on a topic whose queue
    starts with [m] and that has subscribers, takes [m] and calls every
    subscriber with it, once, in the order of the subscriber list;
    [total_processed] grows by the number of subscribers whatever they do,
    [total_failed] does not change, and the task is back at the top of its
    loop with the rest of the queue. *)
Theorem dispatcher_delivers_to_every_subscriber tid topic m rest outcome w :
  tasks w !! tid = Some (mkTask topic PWaiting) →
  queue_items w topic = m :: rest →
  subscriber_list (broker w) topic ≠ [] →
  (exec_all (dispatch_round tid outcome (subscriber_list (broker w) topic)) w).2
  = EvDequeued topic m :: ((λ c, EvInvoked topic c m) <$> subscriber_list (broker w) topic) ∧
  queue_items (exec_all (dispatch_round tid outcome (subscriber_list (broker w) topic)) w).1
              topic = rest ∧
  tasks (exec_all (dispatch_round tid outcome (subscriber_list (broker w) topic)) w).1 !! tid
  = Some (mkTask topic PLoopTop) ∧
  total_processed
    (message_stats
       (broker (exec_all (dispatch_round tid outcome (subscriber_list (broker w) topic)) w).1))
  = total_processed (message_stats (broker w)) + length (subscriber_list (broker w) topic) ∧
  total_failed
    (message_stats
       (broker (exec_all (dispatch_round tid outcome (subscriber_list (broker w) topic)) w).1))
  = total_failed (message_stats (broker w)).
Proof.
  intros Hl Hq Hs. destruct (queue_items_get w topic m rest Hq) as (q & Hq1 & Hq2).
  unfold dispatch_round. set (subs := subscriber_list (broker w) topic) in *.
  set (rnd := ((λ c, OProcStep tid (outcome c)) <$> subs) ++ [OProcStep tid Returns]).
  set (w1 := set_task tid topic (PGather m subs [])
               (set_broker (with_topics (<[topic := mkQueue rest (maxsize q)]>
                                           (topics (broker w)))) w)).
  assert (exec (OProcStep tid Returns) w = (w1, [EvDequeued topic m])) as Hstep.
  { simpl. unfold _process_topic_messages. rewrite Hl, Hq1; simpl. rewrite Hq2.
    fold (subscriber_list (broker w) topic). fold subs. by destruct subs. }
  assert (tasks w1 !! tid = Some (mkTask topic (PGather m subs []))) as Hl1
    by (simpl; by rewrite lookup_insert_eq).
  destruct (gather_steps tid topic m outcome subs [] w1 Hl1) as [G1 G2].
  destruct (gather_run tid topic m outcome subs [] w1 Hl1) as [G3 G4].
  fold rnd in G1, G2, G3, G4.
  cbn [exec_all]. rewrite Hstep. destruct (exec_all rnd w1) as [w2 e2]. simpl in *.
  split; [by rewrite G2|]. split; [|split; [done|]].
  - unfold queue_items. rewrite G4. by rewrite lookup_insert_eq.
  - rewrite G1. rewrite (list_fmap_compose outcome _call_subscriber).
    destruct (tally_calls (outcome <$> subs) (message_stats (broker w))) as [T1 T2].
    rewrite length_fmap in T1. by split.
Qed.

Lemma dispatcher_delivers_to_every_subscriber_witness :
  (exec_all (dispatch_round 0 (λ _, Raises) [0; 1])
     (exec_all [OPublish (hello_call response_topic);
                OProcStep 0 Returns; OProcStep 0 Returns] two_subscribers).1).2
  = [EvDequeued response_topic
       (enrich response_topic hello clock0 clock0 140231%N);
     EvInvoked response_topic 0 (enrich response_topic hello clock0 clock0 140231%N);
     EvInvoked response_topic 1 (enrich response_topic hello clock0 clock0 140231%N)].
Proof.
  destruct (dispatcher_delivers_to_every_subscriber 0 response_topic
              (enrich response_topic hello clock0 clock0 140231%N) [] (λ _, Raises)
              (exec_all [OPublish (hello_call response_topic);
                         OProcStep 0 Returns; OProcStep 0 Returns] two_subscribers).1)
    as (H & _).
  - vm_compute. reflexivity.
  - vm_compute. reflexivity.
  - vm_compute. discriminate.
  - exact H.
Defined.

(** X13: a [consume] generator alone is enough for [publish] to accept a
    message: with the generator open on a running broker and the queue of
    the topic empty, [publish] returns True, and the next round of the
    generator yields the enriched message, adds one to [total_consumed] and
    leaves the queue empty. *)
Theorem consumer_receives_what_is_published topic ct message t1 t2 oid tg w :
  _running (broker w) = true →
  is_Some (topics (broker w) !! topic) →
  ct ∈ consumer_list (broker w) topic →
  queue_items w topic = [] →
  (publish topic message t1 t2 oid w).1 = true ∧
  (consume_next tg topic ct (broker (publish topic message t1 t2 oid w).2)).1
  = Yielded (enrich topic message t1 t2 oid) ∧
  total_consumed
    (message_stats (consume_next tg topic ct (broker (publish topic message t1 t2 oid w).2)).2)
  = total_consumed (message_stats (broker w)) + 1 ∧
  q_items <$> topics (consume_next tg topic ct
                        (broker (publish topic message t1 t2 oid w).2)).2 !! topic
  = Some [].
Proof.
  intros Hr Hq Hct Hempty.
  pose proof (ensure_exists_present topic (broker w) Hq) as He.
  destruct (publish_cases topic message t1 t2 oid w) as [Hr'|Hr' Hrej|q Hr' Hany Hq' Hf].
  - congruence.
  - exfalso. rewrite He in Hrej. destruct Hrej as [[_ Hc]|(q & Hq' & Hf)].
    + rewrite Hc in Hct. by apply elem_of_nil in Hct.
    + unfold queue_items in Hempty. rewrite Hq' in Hempty.
      by rewrite (empty_not_full q Hempty) in Hf.
  - rewrite He in Hq'. unfold queue_items in Hempty. rewrite Hq' in Hempty.
    rewrite Hempty. cbn [fst snd app].
    set (e := enrich topic message t1 t2 oid).
    set (w2 := _ensure_topic_processing topic _).
    assert (topics (broker w2) !! topic = Some (mkQueue [e] (maxsize q))) as Hq2.
    { unfold w2. rewrite ensure_processing_topics; simpl. by rewrite lookup_insert_eq. }
    assert (ct ∈ consumer_list (broker w2) topic) as Hct2.
    { unfold w2, consumer_list. rewrite ensure_processing_consumers; simpl. by rewrite He. }
    assert (_running (broker w2) = true) as Hr2.
    { unfold w2. rewrite ensure_processing_running; simpl. by rewrite He. }
    assert (total_consumed (message_stats (broker w2))
            = total_consumed (message_stats (broker w))) as Hc2.
    { unfold w2. rewrite ensure_processing_stats; simpl. by rewrite He. }
    rewrite (consume_next_yields tg topic ct (broker w2) _ e (mkQueue [] (maxsize q))
               Hct2 Hr2 Hq2) by done.
    simpl. rewrite lookup_insert_eq, Hc2. done.
Qed.

Lemma consumer_receives_what_is_published_witness :
  (consume_next false "orders" 9
     (broker (publish "orders" hello clock0 clock0 140231%N
                (exec_all [OConsumeOpen "orders" 9] started_world).1).2)).1
  = Yielded (enrich "orders" hello clock0 clock0 140231%N).
Proof.
  destruct (consumer_receives_what_is_published "orders" 9 hello clock0 clock0 140231%N false
              (exec_all [OConsumeOpen "orders" 9] started_world).1) as (_ & H & _).
  - reflexivity.
  - vm_compute. by eexists.
  - vm_compute. apply list_elem_of_singleton. reflexivity.
  - vm_compute. reflexivity.
  - exact H.
Defined.

(** X14: a message that [publish] accepted because of a consumer can be
    lost: when the topic's dispatch task is waiting on the empty queue and
    the only subscriber unsubscribes, a message published next is taken by
    the dispatch task, which finds no subscriber and drops it; nothing is
    counted as processed or failed, no callback is called, and the
    consumer's next round finds the queue empty. *)
Theorem dispatcher_drops_a_message_meant_for_a_consumer
    tid topic cb ct message t1 t2 oid o tg w :
  _running (broker w) = true →
  tasks w !! tid = Some (mkTask topic PWaiting) →
  tid ∈ default [] (message_handlers (broker w) !! topic) →
  subscribers (broker w) !! topic = Some [cb] →
  is_Some (topics (broker w) !! topic) →
  ct ∈ consumer_list (broker w) topic →
  queue_items w topic = [] →
  (unsubscribe topic cb (broker w)).1 = true ∧
  (publish topic message t1 t2 oid
     (set_broker (λ b, (unsubscribe topic cb b).2) w)).1 = true ∧
  (_process_topic_messages tid o
     (publish topic message t1 t2 oid
        (set_broker (λ b, (unsubscribe topic cb b).2) w)).2).2
  = [EvDequeued topic (enrich topic message t1 t2 oid)] ∧
  message_stats
    (broker (_process_topic_messages tid o
               (publish topic message t1 t2 oid
                  (set_broker (λ b, (unsubscribe topic cb b).2) w)).2).1)
  = inc_published (message_stats (broker w)) ∧
  ∀ m, (consume_next tg topic ct
          (broker (_process_topic_messages tid o
                     (publish topic message t1 t2 oid
                        (set_broker (λ b, (unsubscribe topic cb b).2) w)).2).1)).1
       ≠ Yielded m.
Proof.
  intros Hr Hl Hh Hs Hq Hct Hempty.
  assert (unsubscribe topic cb (broker w)
          = (true, with_subscribers (<[topic := []]> (subscribers (broker w))) (broker w)))
    as Hu.
  { unfold unsubscribe. rewrite Hs. unfold inb. rewrite bool_decide_eq_true_2 by by left.
    simpl. by rewrite decide_True. }
  rewrite Hu. split; [done|].
  set (w1 := mkWorld (with_subscribers (<[topic := []]> (subscribers (broker w))) (broker w))
                     (tasks w) (next_task w) (ready w)).
  assert (set_broker (λ b, (unsubscribe topic cb b).2) w = w1) as ->
    by (unfold w1, set_broker; by rewrite Hu).
  assert (queue_items w1 topic = []) as He1 by done.
  assert (_running (broker w1) = true) as Hr1 by done.
  assert (is_Some (topics (broker w1) !! topic)) as Hq1 by done.
  assert (subscribers (broker w1) !! topic = Some []) as Hs1
    by (simpl; by rewrite lookup_insert_eq).
  assert (consumers (broker w1) = consumers (broker w)) as Hc1 by done.
  assert (message_stats (broker w1) = message_stats (broker w)) as Hm1 by done.
  assert (message_handlers (broker w1) = message_handlers (broker w)) as Hh1 by done.
  assert (tasks w1 = tasks w) as Hl1 by done.
  clearbody w1.
  pose proof (ensure_exists_present topic (broker w1) Hq1) as He.
  destruct (publish_cases topic message t1 t2 oid w1) as [Hr'|Hr' Hrej|q Hr' Hany Hq' Hf].
  - congruence.
  - exfalso. rewrite He in Hrej. destruct Hrej as [[_ Hc]|(q & Hq' & Hf)].
    + unfold consumer_list in Hc, Hct. rewrite Hc1 in Hc. rewrite Hc in Hct.
      by apply elem_of_nil in Hct.
    + unfold queue_items in He1. rewrite Hq' in He1.
      by rewrite (empty_not_full q He1) in Hf.
  - rewrite He in Hq'. unfold queue_items in He1. rewrite Hq' in He1.
    rewrite He1. cbn [fst snd app]. split; [done|].
    set (e := enrich topic message t1 t2 oid).
    set (w2 := _ensure_topic_processing topic _).
    assert (topics (broker w2) !! topic = Some (mkQueue [e] (maxsize q))) as Hq2.
    { unfold w2. rewrite ensure_processing_topics; simpl. by rewrite lookup_insert_eq. }
    assert (subscribers (broker w2) !! topic = Some []) as Hs2.
    { unfold w2. rewrite ensure_processing_subscribers; simpl. by rewrite He. }
    assert (consumers (broker w2) = consumers (broker w)) as Hc2.
    { unfold w2. rewrite ensure_processing_consumers; simpl. by rewrite He. }
    assert (_running (broker w2) = true) as Hr2.
    { unfold w2. rewrite ensure_processing_running; simpl. by rewrite He. }
    assert (message_stats (broker w2) = inc_published (message_stats (broker w))) as Hm2.
    { unfold w2. rewrite ensure_processing_stats; simpl. by rewrite He, Hm1. }
    assert (tasks w2 !! tid = Some (mkTask topic PWaiting)) as Hl2.
    { unfold w2, _ensure_topic_processing. destruct (List.filter _ _) eqn:Hflt; simpl;
        [|by rewrite Hl1].
      exfalso. eapply (filter_nil_not_in _ _ tid) in Hflt.
      - unfold done in Hflt. simpl in Hflt. by rewrite Hl1, Hl in Hflt.
      - simpl. by rewrite He, Hh1. }
    unfold _process_topic_messages. rewrite Hl2, Hq2, Hs2; simpl.
    split; [done|]. split; [done|].
    intros m. unfold consume_next; simpl. rewrite Hc2.
    fold (consumer_list (broker w) topic).
    unfold inb. rewrite bool_decide_eq_true_2 by done. simpl. rewrite Hr2; simpl.
    rewrite lookup_insert_eq; simpl. by destruct tg.
Qed.

Lemma dispatcher_drops_a_message_meant_for_a_consumer_witness :
  (_process_topic_messages 0 Returns
     (publish response_topic hello clock0 clock0 140231%N
        (set_broker (λ b, (unsubscribe response_topic 0 b).2) waiting_dispatcher)).2).2
  = [EvDequeued response_topic (enrich response_topic hello clock0 clock0 140231%N)].
Proof.
  destruct (dispatcher_drops_a_message_meant_for_a_consumer 0 response_topic 0 9
              hello clock0 clock0 140231%N Returns false waiting_dispatcher)
    as (_ & _ & H & _).
  - reflexivity.
  - vm_compute. reflexivity.
  - vm_compute. apply list_elem_of_singleton. reflexivity.
  - vm_compute. reflexivity.
  - vm_compute. by eexists.
  - vm_compute. apply list_elem_of_singleton. reflexivity.
  - vm_compute. reflexivity.
  - exact H.
Defined.

(** X15: in every state the broker can reach, [unsubscribe] returns True
    exactly when the callback is subscribed to the topic, and afterwards the
    topic's subscriber list is the old one without the callback, in the same
    order; the lists of the other topics are as before. *)
Theorem unsubscribe_removes_exactly_the_callback n ops topic cb :
  (unsubscribe topic cb (broker (exec_all ops (new_world n)).1)).1
  = bool_decide (cb ∈ subscriber_list (broker (exec_all ops (new_world n)).1) topic) ∧
  ∀ t, subscriber_list (unsubscribe topic cb (broker (exec_all ops (new_world n)).1)).2 t
       = if decide (t = topic)
         then filter (λ c, c ≠ cb)
                (subscriber_list (broker (exec_all ops (new_world n)).1) topic)
         else subscriber_list (broker (exec_all ops (new_world n)).1) t.
Proof.
  pose proof (wf_nodup _ (reachable_wf n ops)) as Hnd.
  generalize dependent (broker (exec_all ops (new_world n)).1). intros b Hnd.
  unfold unsubscribe, subscriber_list.
  destruct (subscribers b !! topic) as [l|] eqn:E; simpl.
  - unfold inb. case_bool_decide as Hin; simpl.
    + split; [done|]. intros t. rewrite lookup_insert.
      case_decide as Hd; case_decide as Hd'; try subst t; try done; simpl.
      apply remove_first_filter. by apply (Hnd topic).
    + split; [done|]. intros t. case_decide as Hd; [|done]. subst t. rewrite E; simpl.
      by rewrite filter_ne_notin.
  - split; [done|]. intros t. case_decide as Hd; [|done]. subst t. by rewrite E.
Qed.

(** ** The broker's health check *)

(** X16: [health_check] on a broker that has no topic
    ["health_check_test"], as after every [start()], reports
    [subscribe_test_passed] False and so [healthy] False, whatever the other
    tasks do while it sleeps and waits: its first [publish] creates the
    topic and thereby drops the subscription made just before, so the test
    subscriber is never called. *)
Theorem health_check_fails_when_the_test_topic_is_new e w :
  topics (broker w) !! test_topic = None →
  (∀ t, quiet t (test_subscriber e) w) →
  Forall (λ op, subscribes_callback (test_subscriber e) op = false)
         (he_sleeping e ++ he_waiting e) →
  subscribe_test_passed (health_check e w).1.1 = false ∧
  healthy (health_check e w).1.1 = false.
Proof.
  intros Hq Hquiet Hops. destruct (health_check_report e w) as [H1 H2].
  rewrite H2, H1, (health_check_quiet e w Hq Hquiet Hops). done.
Qed.

Lemma health_check_fails_when_the_test_topic_is_new_witness :
  healthy (health_check first_check started_world).1.1 = false.
Proof.
  apply (health_check_fails_when_the_test_topic_is_new first_check started_world).
  - vm_compute. reflexivity.
  - intros t. apply quiet_started_world.
  - apply (bool_decide_unpack _). vm_compute. reflexivity.
Defined.

(** The test can pass once the topic exists and the dispatch task runs
    during the sleep. *)
Example a_later_health_check_can_pass :
  (health_check second_check (health_check first_check started_world).1.2).1.1
  = mkHealth true true true true.
Proof. vm_compute. reflexivity. Qed.

(** ** Subscriptions, statistics and dispatch tasks *)

(** X17: a subscription to a topic that exists lasts: whatever operations
    run, the callback stays in the topic's subscriber list and the topic
    keeps its queue, until [unsubscribe] is called for it or the broker is
    stopped. *)
Theorem subscription_to_an_existing_topic_lasts topic cb ops w :
  served topic cb (broker w) →
  Forall (λ op, ends_subscription topic cb op = false) ops →
  served topic cb (broker (exec_all ops w).1).
Proof. intros H Hops. by apply served_exec_all. Qed.

Lemma subscription_to_an_existing_topic_lasts_witness :
  0 ∈ subscriber_list
        (broker (exec_all (ORunReady :: ORunReady :: dispatch_with_raising_subscriber
                             ++ [OSubscribe response_topic 1; OUnsubscribe response_topic 1])
                          (subscribe response_topic 0 started_world).2).1)
        response_topic.
Proof.
  destruct (subscription_to_an_existing_topic_lasts response_topic 0
              (ORunReady :: ORunReady :: dispatch_with_raising_subscriber
                 ++ [OSubscribe response_topic 1; OUnsubscribe response_topic 1])
              (subscribe response_topic 0 started_world).2) as [_ H].
  - split; [vm_compute; by eexists|]. vm_compute. apply list_elem_of_singleton. reflexivity.
  - apply (bool_decide_unpack _). vm_compute. reflexivity.
  - exact H.
Defined.

(** X18: for a topic that exists, what [get_topic_stats] reports tells
    whether [publish] will accept a message: [publish] returns True exactly
    when the broker is running, the topic has a subscriber or a consumer,
    and the queue is not reported full. *)
Theorem topic_stats_tell_whether_publish_succeeds
    consumer_done topic s message t1 t2 oid w :
  get_topic_stats consumer_done topic w = Some s →
  (publish topic message t1 t2 oid w).1
  = _running (broker w)
    && (bool_decide (0 < ts_subscribers_count s) || bool_decide (0 < ts_total_consumers s))
    && negb (ts_queue_full s).
Proof.
  unfold get_topic_stats. destruct (topics (broker w) !! topic) as [q|] eqn:E; [|done].
  intros Hs. inversion Hs; subst; clear Hs. simpl.
  unfold publish. destruct (_running (broker w)); simpl; [|done].
  rewrite ensure_exists_present by by eexists.
  rewrite !truthy_length.
  destruct (bool_decide (0 < length (default [] (subscribers (broker w) !! topic))));
    destruct (bool_decide (0 < length (default [] (consumers (broker w) !! topic))));
    simpl; try done;
    rewrite E; unfold put_nowait; by destruct (full q).
Qed.

Lemma topic_stats_tell_whether_publish_succeeds_witness :
  (publish response_topic hello clock0 clock0 140232%N full_queue_world).1 = false.
Proof.
  rewrite (topic_stats_tell_whether_publish_succeeds (λ _, false) response_topic
             (mkTopicStats response_topic 1 1 1 1 1 0 0 true false)
             hello clock0 clock0 140232%N full_queue_world).
  - vm_compute. reflexivity.
  - vm_compute. reflexivity.
Defined.

(** X19: as long as [stop()] is not called, a topic never has two dispatch
    tasks that are not done, and the one it has is listed in
    [message_handlers] and has a queue to read from. *)
Theorem a_topic_has_at_most_one_live_dispatcher n ops topic i j :
  Forall (λ op, is_stop op = false) ops →
  active_in (tasks (exec_all ops (new_world n)).1) topic i →
  active_in (tasks (exec_all ops (new_world n)).1) topic j →
  i = j ∧
  i ∈ default [] (message_handlers (broker (exec_all ops (new_world n)).1) !! topic) ∧
  is_Some (topics (broker (exec_all ops (new_world n)).1) !! topic).
Proof.
  intros Hops Hi Hj. destruct (new_world_inv n) as [H1 H2].
  destruct (exec_all_inv ops _ [] Hops H1 H2) as [Htask _].
  split; [by eapply (inv_single _ Htask)|].
  destruct (inv_tracked _ Htask topic i Hi). by split.
Qed.

Lemma a_topic_has_at_most_one_live_dispatcher_witness :
  0 ∈ default [] (message_handlers (broker (exec_all fifo_run (new_world 1000)).1)
                    !! response_topic).
Proof.
  assert (active_in (tasks (exec_all fifo_run (new_world 1000)).1) response_topic 0) as Ha.
  { eexists. split; [vm_compute; reflexivity|discriminate]. }
  destruct (a_topic_has_at_most_one_live_dispatcher 1000 fifo_run response_topic 0 0)
    as (_ & H & _).
  - apply (bool_decide_unpack _). vm_compute. reflexivity.
  - exact Ha.
  - exact Ha.
  - exact H.
Defined.

(** * More properties of the connection manager *)

(** X20: whatever sequence of manager operations is run, a user has a
    heartbeat timestamp and a heartbeat task exactly when it has a
    connection; so [get_connection_stats] lists exactly the connected
    users, each with [has_heartbeat_task] True and with its recorded
    timestamp, never the default 0. *)
Theorem connection_stats_list_complete_users i t ops now user_id :
  registry_consistent (cm_exec_all ops (manager_init i t)) ∧
  match users (get_connection_stats now (cm_exec_all ops (manager_init i t))) !! user_id with
  | Some s =>
      is_Some (active_connections (cm_exec_all ops (manager_init i t)) !! user_id) ∧
      has_heartbeat_task s = true ∧
      user_heartbeats (cm_exec_all ops (manager_init i t)) !! user_id = Some (last_heartbeat s)
  | None =>
      active_connections (cm_exec_all ops (manager_init i t)) !! user_id = None ∧
      user_heartbeats (cm_exec_all ops (manager_init i t)) !! user_id = None ∧
      heartbeat_tasks (cm_exec_all ops (manager_init i t)) !! user_id = None
  end.
Proof.
  pose proof (registry_consistent_exec_all ops _ (registry_consistent_init i t)) as H.
  split; [done|]. generalize dependent (cm_exec_all ops (manager_init i t)). intros cm H.
  simpl. rewrite map_lookup_imap. destruct (H user_id) as [H1 H2].
  destruct (active_connections cm !! user_id) as [ws|] eqn:E; simpl.
  - destruct (proj2 H1) as [hb Hhb]; [by eexists|].
    split; [by eexists|]. rewrite Hhb. split; [|done].
    apply bool_decide_eq_true. apply H2. by eexists.
  - split; [done|]. split.
    + destruct (user_heartbeats cm !! user_id) eqn:E'; [|done].
      destruct (proj1 H1) as [? ?]; [by eexists|done].
    + destruct (heartbeat_tasks cm !! user_id) eqn:E'; [|done].
      destruct (proj1 H2) as [? ?]; [by eexists|done].
Qed.

(** X21: [disconnect] of a websocket that is registered for one user
    removes that user from the three dictionaries; the main heartbeat is
    stopped when it was the last connection and is left as it was
    otherwise; a second [disconnect] of the same websocket changes
    nothing. *)
Theorem disconnect_removes_the_connection order order' websocket user_id cm :
  active_connections cm !! user_id = Some websocket →
  (∀ u, active_connections cm !! u = Some websocket → u = user_id) →
  user_id ∈ order →
  user_id ≠ "" →
  active_connections (disconnect order websocket cm)
  = delete user_id (active_connections cm) ∧
  user_heartbeats (disconnect order websocket cm) = delete user_id (user_heartbeats cm) ∧
  heartbeat_tasks (disconnect order websocket cm) = delete user_id (heartbeat_tasks cm) ∧
  _heartbeat_running (disconnect order websocket cm)
  = _heartbeat_running cm
    && negb (bool_decide (delete user_id (active_connections cm) = ∅)) ∧
  disconnect order' websocket (disconnect order websocket cm)
  = disconnect order websocket cm.
Proof.
  intros Hl Huniq Hin Hne.
  assert (disconnect order websocket cm
          = if bool_decide (delete user_id (active_connections cm) = ∅)
               && _heartbeat_running cm
            then _stop_main_heartbeat (_cleanup_user_connection user_id cm)
            else _cleanup_user_connection user_id cm) as ->.
  { unfold disconnect. rewrite (find_user_unique order websocket user_id _ Hl Huniq Hin).
    by rewrite (bool_decide_eq_false_2 (user_id = "")) by done. }
  assert (∀ u, delete user_id (active_connections cm) !! u ≠ Some websocket) as Hu.
  { intros u. rewrite lookup_delete. case_decide as Hd; [done|].
    intros Hx. by apply Huniq in Hx. }
  destruct (bool_decide (delete user_id (active_connections cm) = ∅)) eqn:Hempty;
    destruct (_heartbeat_running cm) eqn:Hrun; simpl;
    (split; [done|]; split; [done|]; split; [done|]; split; [done|]);
    unfold disconnect; rewrite find_user_none by exact Hu; simpl;
    rewrite Hempty, ?Hrun; done.
Qed.

Lemma disconnect_removes_the_connection_witness :
  active_connections (disconnect ["user-1"] 7 one_connection) = ∅ ∧
  _heartbeat_running (disconnect ["user-1"] 7 one_connection) = false.
Proof.
  assert (∀ u, active_connections one_connection !! u = Some 7 → u = "user-1") as Huniq.
  { intros u. unfold one_connection, connect. simpl. rewrite lookup_insert.
    case_decide as Hd; [done|]. by rewrite lookup_empty. }
  destruct (disconnect_removes_the_connection ["user-1"] [] 7 "user-1" one_connection)
    as (H1 & _ & _ & H4 & _).
  - reflexivity.
  - exact Huniq.
  - apply list_elem_of_singleton. reflexivity.
  - discriminate.
  - split; [rewrite H1|rewrite H4]; vm_compute; reflexivity.
Defined.

(** X22: [disconnect_all] stops the main heartbeat and removes from the
    three dictionaries exactly the users whose [close()] returned; a user
    whose [close()] raised keeps its connection, timestamp and heartbeat
    task.  Afterwards no heartbeat loop sends another ping: a loop that
    comes to its loop test ends there and leaves the dictionaries as they
    are.  A loop that was asleep still makes its check when it wakes: a user
    that is not expired is left as it is, and an expired user that is still
    registered is closed again and, when that close returns, removed. *)
Theorem disconnect_all_keeps_what_it_cannot_close order close cm user_id :
  _heartbeat_running (disconnect_all order close cm).1 = false ∧
  (if bool_decide (user_id ∈ order) && returned (close user_id)
      && bool_decide (is_Some (active_connections cm !! user_id))
   then active_connections (disconnect_all order close cm).1 !! user_id = None ∧
        user_heartbeats (disconnect_all order close cm).1 !! user_id = None ∧
        heartbeat_tasks (disconnect_all order close cm).1 !! user_id = None
   else active_connections (disconnect_all order close cm).1 !! user_id
        = active_connections cm !! user_id ∧
        user_heartbeats (disconnect_all order close cm).1 !! user_id
        = user_heartbeats cm !! user_id ∧
        heartbeat_tasks (disconnect_all order close cm).1 !! user_id
        = heartbeat_tasks cm !! user_id) ∧
  (∀ task now ping send cl,
     _user_heartbeat_loop_ping task user_id now ping send cl (disconnect_all order close cm).1
     = (Break, finish task (disconnect_all order close cm).1, [])) ∧
  (∀ task now send cl,
     heartbeat_expired user_id now (disconnect_all order close cm).1 = false →
     _user_heartbeat_loop_check task user_id now send cl (disconnect_all order close cm).1
     = (Continue, (disconnect_all order close cm).1, [])) ∧
  (∀ task now send ws,
     heartbeat_expired user_id now (disconnect_all order close cm).1 = true →
     active_connections (disconnect_all order close cm).1 !! user_id = Some ws →
     ∃ cm' notified,
       _user_heartbeat_loop_check task user_id now send IoOk (disconnect_all order close cm).1
       = (Break, cm', notified ++ [WsClosed ws 1011 "heartbeat_timeout"]) ∧
       active_connections cm' !! user_id = None ∧
       user_heartbeats cm' !! user_id = None ∧
       heartbeat_tasks cm' !! user_id = None).
Proof.
  split; [|split; [|split; [|split]]].
  - unfold disconnect_all.
    by destruct (disconnect_all_fold order close (_stop_main_heartbeat cm, []) user_id)
      as (H0 & _).
  - unfold disconnect_all.
    destruct (disconnect_all_fold order close (_stop_main_heartbeat cm, []) user_id)
      as (_ & H1 & H2 & H3).
    simpl in H1, H2, H3. rewrite H1, H2, H3. by destruct (_ && _ && _).
  - intros task now ping send cl. unfold _user_heartbeat_loop_ping.
    assert (_heartbeat_running (disconnect_all order close cm).1 = false) as ->.
    { unfold disconnect_all.
      by destruct (disconnect_all_fold order close (_stop_main_heartbeat cm, []) user_id)
        as (H0 & _). }
    simpl. by destruct (active_connections _ !! user_id).
  - intros task now send cl He. by apply heartbeat_check_fresh.
  - intros task now send ws He Hc. by apply heartbeat_check_evicts.
Qed.

(** Two users, connected at time 0; [close()] raises for the second one. *)
Lemma disconnect_all_keeps_what_it_cannot_close_witness :
  _user_heartbeat_loop_check 2 "user-2" 30 IoOk IoOk
    (disconnect_all ["user-1"; "user-2"]
       (λ u, if bool_decide (u = "user-2") then IoError else IoOk) two_connections).1
  = (Continue,
     (disconnect_all ["user-1"; "user-2"]
        (λ u, if bool_decide (u = "user-2") then IoError else IoOk) two_connections).1, []) ∧
  active_connections
    (_user_heartbeat_loop_check 2 "user-2" 100 IoOk IoOk
       (disconnect_all ["user-1"; "user-2"]
          (λ u, if bool_decide (u = "user-2") then IoError else IoOk) two_connections).1).1.2
    !! "user-2" = None.
Proof.
  destruct (disconnect_all_keeps_what_it_cannot_close ["user-1"; "user-2"]
              (λ u, if bool_decide (u = "user-2") then IoError else IoOk)
              two_connections "user-2") as (_ & _ & _ & H4 & H5).
  split.
  - apply H4. vm_compute. reflexivity.
  - destruct (H5 2 100%float IoOk 8) as (cm' & notified & Heq & Ha & _).
    + vm_compute. reflexivity.
    + vm_compute. reflexivity.
    + rewrite Heq. exact Ha.
Defined.


